(** * Deck-list parser and card resolver of the Magic plugin

    A shallow embedding of [plugins/mtg/parser.go]: the deck-text parser
    ([parseDeckLine], [parseDeckFile]) with the three line grammars of
    [cardLineRegexps], the zone collections ([CardNames], [InsertCount]),
    and the card resolver ([getImageURL], [cardNamesToDeck], [fromDeckFile]).

    Conventions.
    - A Go [string] is a byte sequence: Rocq's [string] (a list of [ascii]).
    - A Go [int] is taken to be 64 bits wide; it is a [Z] and every addition
      is wrapped by [wrap_int].
    - A pointer that may be nil is an [option]; dereferencing nil is the
      outcome [Panic].
    - A Go [map[string]int] is a [gmap string Z]; a missing key reads 0. *)

From Stdlib Require Import ZArith Ascii String Lia.
From stdpp Require Import gmap strings list fin_maps.

Local Open Scope Z_scope.

(** ** Bytes and strings *)

Module Str.

Definition code (c : ascii) : N := N_of_ascii c.

(** The byte 0x0A, which a string literal cannot spell. *)
Definition LF : ascii := ascii_of_N 10.
Definition CR : ascii := ascii_of_N 13.
Definition nl : string := String LF EmptyString.

(** [len(s)] *)
Definition len (s : string) : Z := Z.of_nat (String.length s).

(** [strings.HasPrefix(s, prefix)] *)
Fixpoint HasPrefix (s p : string) : bool :=
  match p, s with
  | EmptyString, _ => true
  | String c p', String d s' => if Ascii.eqb c d then HasPrefix s' p' else false
  | String _ _, EmptyString => false
  end.

(** [strings.HasSuffix(s, suffix)] *)
Definition HasSuffix (s p : string) : bool :=
  let n := String.length s in
  let k := String.length p in
  if (k <=? n)%nat then String.eqb (String.substring (n - k) k s) p else false.

Fixpoint drop (n : nat) (s : string) : string :=
  match n, s with
  | O, _ => s
  | S n', String _ s' => drop n' s'
  | S _, EmptyString => EmptyString
  end.

Definition take (n : nat) (s : string) : string := String.substring 0 n s.

(** [strings.Contains(s, substr)] *)
Fixpoint Contains (s sub : string) : bool :=
  if HasPrefix s sub then true
  else match s with
       | EmptyString => false
       | String _ s' => Contains s' sub
       end.

(** [strings.Replace(s, old, new, 1)] for a non-empty [old]: the first
    occurrence, scanning from the left, is replaced. *)
Fixpoint ReplaceFirst (s old new : string) : string :=
  if HasPrefix s old then new +:+ drop (String.length old) s
  else match s with
       | EmptyString => EmptyString
       | String c s' => String c (ReplaceFirst s' old new)
       end.

Definition of_codes (l : list N) : string :=
  fold_right (fun n s => String (ascii_of_N n) s) EmptyString l.

(** The UTF-8 encodings of the code points for which [unicode.IsSpace]
    holds: U+0009..U+000D, U+0020, U+0085, U+00A0, U+1680,
    U+2000..U+200A, U+2028, U+2029, U+202F, U+205F, U+3000. *)
Definition space_encodings : list string :=
  map of_codes
    [ [9]; [10]; [11]; [12]; [13]; [32];
      [194; 133]; [194; 160]; [225; 154; 128];
      [226; 128; 128]; [226; 128; 129]; [226; 128; 130]; [226; 128; 131];
      [226; 128; 132]; [226; 128; 133]; [226; 128; 134]; [226; 128; 135];
      [226; 128; 136]; [226; 128; 137]; [226; 128; 138];
      [226; 128; 168]; [226; 128; 169]; [226; 128; 175];
      [226; 129; 159]; [227; 128; 128] ]%N.

(** Length of the white-space rune the string starts with, if any. *)
Definition leading_space (s : string) : option nat :=
  String.length <$> List.find (HasPrefix s) space_encodings.

(** Length of the white-space rune the string ends with, if any. *)
Definition trailing_space (s : string) : option nat :=
  String.length <$> List.find (HasSuffix s) space_encodings.

Fixpoint TrimLeft (fuel : nat) (s : string) : string :=
  match fuel with
  | O => s
  | S fuel' =>
      match leading_space s with
      | Some k => TrimLeft fuel' (drop k s)
      | None => s
      end
  end.

Fixpoint TrimRight (fuel : nat) (s : string) : string :=
  match fuel with
  | O => s
  | S fuel' =>
      match trailing_space s with
      | Some k => TrimRight fuel' (take (String.length s - k) s)
      | None => s
      end
  end.

(** [strings.TrimSpace(s)]: every white-space rune is at least one byte
    long, so [length s] rounds are enough on either side. *)
Definition TrimSpace (s : string) : string :=
  let s1 := TrimLeft (String.length s) s in
  TrimRight (String.length s1) s1.

End Str.

(** ** [strconv.Atoi] and machine integers *)

Definition max_int : Z := 2 ^ 63 - 1.
Definition min_int : Z := - 2 ^ 63.

(** Two's-complement wrap-around of a 64-bit [int]. *)
Definition wrap_int (z : Z) : Z := (z + 2 ^ 63) mod 2 ^ 64 - 2 ^ 63.

Definition digit_val (c : ascii) : option Z :=
  let n := Str.code c in
  if ((48 <=? n) && (n <=? 57))%N then Some (Z.of_N n - 48) else None.

(** Value of a string of decimal digits, most significant first. *)
Fixpoint digits_val (acc : Z) (s : string) : option Z :=
  match s with
  | EmptyString => Some acc
  | String c s' =>
      match digit_val c with
      | Some d => digits_val (10 * acc + d) s'
      | None => None
      end
  end.

(** [strconv.Atoi]: an optional sign, then one decimal digit or more;
    [None] stands for the syntax error and for the range error. *)
Definition Atoi (s : string) : option Z :=
  let '(neg, body) :=
    match s with
    | String "-" s' => (true, s')
    | String "+" s' => (false, s')
    | _ => (false, s)
    end in
  match body with
  | EmptyString => None
  | _ =>
      match digits_val 0 body with
      | Some v =>
          let v' := if neg then - v else v in
          if (min_int <=? v') && (v' <=? max_int) then Some v' else None
      | None => None
      end
  end.

(** ** Regular expressions

    The fragment of Go's [regexp] syntax that [cardLineRegexps] uses, with
    the leftmost-first (preference-ordered, greedy) semantics of
    [FindStringSubmatch].  Matching is by bytes: every atom next to a
    [.+] or [[^#]+] in the three patterns is an ASCII byte, which never
    occurs inside a multi-byte rune, so the byte-wise captures are the
    rune-wise ones. *)

Module Regexp.

Inductive regex : Type :=
| Lit (c : ascii)                          (* a literal byte *)
| Class (neg : bool) (ranges : list (N * N)) (* [a-z...] or [^a-z...] *)
| Cat (r1 r2 : regex)                      (* r1 r2 *)
| Star (r : regex)                         (* r*, greedy *)
| Plus (r : regex)                         (* r+, greedy *)
| Quest (r : regex)                        (* r?, prefers one *)
| Cap (i : nat) (r : regex)                (* the i-th capturing group *)
| BeginText                                (* ^ *)
| EndText                                  (* $ *)
| Eps.

Definition in_class (neg : bool) (ranges : list (N * N)) (c : ascii) : bool :=
  let n := Str.code c in
  xorb neg (existsb (fun '(lo, hi) => (lo <=? n) && (n <=? hi))%N ranges).

(** Captured substrings, indexed by group; [None] for a group that took
    no part in the match. *)
Definition caps := list (option string).

Definition set_cap (i : nat) (v : string) (cs : caps) : caps :=
  <[i := Some v]> cs.

(** The continuation receives the rest of the input, the position
    reached and the captures so far. *)
Definition cont := string -> nat -> caps -> option caps.

(** The greedy loop of [r*]: one more round of [body] is preferred to
    leaving the loop; a round that consumes nothing is not repeated.  A
    round consumes a byte at least, so [fuel] is the length of the input. *)
Fixpoint iterate (body : string -> nat -> caps -> cont -> option caps)
  (k : cont) (fuel : nat) (s : string) (pos : nat) (cs : caps) : option caps :=
  match fuel with
  | O => k s pos cs
  | S fuel' =>
      match body s pos cs
              (fun s' pos' cs' =>
                 if (pos <? pos')%nat then iterate body k fuel' s' pos' cs'
                 else None) with
      | Some res => Some res
      | None => k s pos cs
      end
  end.

Fixpoint m (r : regex) (s : string) (pos : nat) (cs : caps) (k : cont)
  {struct r} : option caps :=
  match r with
  | Eps => k s pos cs
  | Lit c =>
      match s with
      | String d s' => if Ascii.eqb c d then k s' (S pos) cs else None
      | EmptyString => None
      end
  | Class neg ranges =>
      match s with
      | String d s' => if in_class neg ranges d then k s' (S pos) cs else None
      | EmptyString => None
      end
  | Cat r1 r2 => m r1 s pos cs (fun s' pos' cs' => m r2 s' pos' cs' k)
  | Star r' => iterate (m r') k (String.length s) s pos cs
  | Plus r' =>
      m r' s pos cs
        (fun s1 pos1 cs1 => iterate (m r') k (String.length s1) s1 pos1 cs1)
  | Quest r' =>
      match m r' s pos cs k with
      | Some res => Some res
      | None => k s pos cs
      end
  | Cap i r' =>
      m r' s pos cs
        (fun s' pos' cs' => k s' pos' (set_cap i (Str.take (pos' - pos) s) cs'))
  | BeginText => if (pos =? 0)%nat then k s pos cs else None
  | EndText => match s with EmptyString => k s pos cs | _ => None end
  end.

(** A compiled pattern: the expression, its number of groups (group 0,
    the whole match, not counted) and [SubexpNames()]. *)
Record Regexp : Type := {
  re : regex;
  NumSubexp : nat;
  SubexpNames : list string
}.

(** The leftmost match: start positions are tried from left to right. *)
Fixpoint search (r : Regexp) (fuel : nat) (s : string) (pos : nat)
  : option caps :=
  match m (Cap 0 (re r)) s pos (replicate (S (NumSubexp r)) None)
          (fun _ _ cs => Some cs) with
  | Some cs => Some cs
  | None =>
      match fuel, s with
      | S fuel', String _ s' => search r fuel' s' (S pos)
      | _, _ => None
      end
  end.

(** [FindStringSubmatch]: [None] is the nil slice; a group that did not
    take part in the match reads as the empty string. *)
Definition FindStringSubmatch (r : Regexp) (s : string) : option (list string) :=
  (fun cs => map (default EmptyString) cs) <$> search r (String.length s) s 0.

Definition seq (l : list regex) : regex := fold_right Cat Eps l.
Definition lits (s : string) : regex :=
  seq (map Lit (list_ascii_of_string s)).

(** [\s], [\d], [.], [[A-Z0-9_]], [[ab]], [[^#]] *)
Definition space : regex := Class false [(9, 10); (12, 13); (32, 32)]%N.
Definition digit : regex := Class false [(48, 57)]%N.
Definition dot : regex := Class true [(10, 10)]%N.
Definition set_code : regex := Class false [(65, 90); (48, 57); (95, 95)]%N.
Definition ab : regex := Class false [(97, 98)]%N.
Definition not_hash : regex := Class true [(35, 35)]%N.

End Regexp.

Import Regexp.

(** Magic Arena format:
    [^\s*(?P<Count>\d+)\s+(?P<Name>.+)\s+\((?P<Set>[A-Z0-9_]+)\)(\s+NUMBER)?$]
    where NUMBER is the named group [NumberInSet] around "one decimal
    digit or more, then any number of the letters a and b". *)
Definition arenaRegexp : Regexp :=
  {| re := seq [ BeginText; Star space; Cap 1 (Plus digit); Plus space;
                 Cap 2 (Plus dot); Plus space; Lit "(";
                 Cap 3 (Plus set_code); Lit ")";
                 Quest (Cap 4 (seq [Plus space;
                                    Cap 5 (seq [Plus digit; Star ab])]));
                 EndText ];
     NumSubexp := 5;
     SubexpNames := [""; "Count"; "Name"; "Set"; ""; "NumberInSet"] |}.

(** Magic Workstation format:
    [^(?P<Sideboard>SB:)?\s*(?P<Count>\d+)\s+\[(?P<Set>[A-Z0-9_]+)\]\s+(?P<Name>.+)$] *)
Definition workstationRegexp : Regexp :=
  {| re := seq [ BeginText; Quest (Cap 1 (lits "SB:")); Star space;
                 Cap 2 (Plus digit); Plus space; Lit "[";
                 Cap 3 (Plus set_code); Lit "]"; Plus space;
                 Cap 4 (Plus dot); EndText ];
     NumSubexp := 4;
     SubexpNames := [""; "Sideboard"; "Count"; "Set"; "Name"] |}.

(** Standard format (MTGO, etc.):
    [^(?P<Sideboard>SB:)?\s*(?P<Count>\d+)x?\s+(?P<Name>[^#]+)(\s+#COMMENT)?$]
    where COMMENT is the named group [Comment] around "any bytes but
    line feeds, as many as possible". *)
Definition standardRegexp : Regexp :=
  {| re := seq [ BeginText; Quest (Cap 1 (lits "SB:")); Star space;
                 Cap 2 (Plus digit); Quest (Lit "x"); Plus space;
                 Cap 3 (Plus not_hash);
                 Quest (Cap 4 (seq [Plus space; Lit "#"; Cap 5 (Star dot)]));
                 EndText ];
     NumSubexp := 5;
     SubexpNames := [""; "Sideboard"; "Count"; "Name"; ""; "Comment"] |}.

Definition cardLineRegexps : list Regexp :=
  [arenaRegexp; workstationRegexp; standardRegexp].


(** ** Outcomes

    A Go function either returns or panics (here: a nil-pointer
    dereference or an index out of range). *)

Inductive outcome (A : Type) : Type :=
| Ret (a : A)
| Panic (msg : string).
Arguments Ret {A} a.
Arguments Panic {A} msg.

Definition error := string.

Definition nilDeref : string := "invalid memory address or nil pointer dereference".

(** ** Zone collections *)

(** [DeckType] *)
Inductive DeckType : Type := Main | Sideboard | Maybeboard.

(** [CardInfo]: the name of a card and its set ([Set] is a pointer). *)
Record CardInfo : Type := { Name : string; Set_ : option string }.

(** [CardNames]: the card names, in order, and the count of each. *)
Record CardNames : Type := {
  Names : list CardInfo;
  Counts : gmap string Z
}.

Definition NewCardNames : CardNames := {| Names := []; Counts := ∅ |}.

(** [c.Counts[name]]: a missing key reads as the zero value. *)
Definition count_of (c : CardNames) (name : string) : Z :=
  default 0 (Counts c !! name).

Definition InsertCount (c : CardNames) (name : string) (set : option string)
  (count : Z) : CardNames :=
  match Counts c !! name with
  | None =>
      {| Names := Names c ++ [{| Name := name; Set_ := set |}];
         Counts := <[name := count]> (Counts c) |}
  | Some _ =>
      {| Names := Names c;
         Counts := <[name := wrap_int (count_of c name + count)]> (Counts c) |}
  end.

Definition Insert (c : CardNames) (name : string) (set : option string) : CardNames :=
  InsertCount c name set 1.

(** The body of the loop [for name, count := range side.Counts] of both
    merges, on the counts of main. *)
Definition mergeStep (name : string) (count : Z) (mainCounts : gmap string Z)
  : gmap string Z :=
  match mainCounts !! name with
  | Some originalCount => <[name := wrap_int (originalCount + count)]> mainCounts
  | None => <[name := count]> mainCounts
  end.

(** The loop itself.  Go visits the keys in an unspecified order; every
    key is visited once and a round writes its own key only, so the order
    is immaterial ([mergeCounts_any_order]) and [map_fold]'s is taken. *)
Definition mergeCounts (mainCounts sideCounts : gmap string Z) : gmap string Z :=
  map_fold mergeStep mainCounts sideCounts.

(** [main.Names = append(main.Names, side.Names...)] followed by the loop
    over [side.Counts]. *)
Definition mergeInto (main side : CardNames) : CardNames :=
  {| Names := Names main ++ Names side;
     Counts := mergeCounts (Counts main) (Counts side) |}.

(** ** The line parser *)

(** Modelled from the spec: [plugins.IndexOf] is declared outside the
    sources at hand; the parser tests its result against -1 and otherwise
    uses it as the index of the named field in the grammar's table of
    group names, so it is the position of the first occurrence, or -1. *)
Fixpoint IndexOf (x : string) (l : list string) : Z :=
  match l with
  | [] => -1
  | y :: l' =>
      if String.eqb x y then 0
      else let i := IndexOf x l' in if i =? -1 then -1 else i + 1
  end.

(** [matches[i]]; [FindStringSubmatch] returns as many strings as
    [SubexpNames] has names, so an index found in the names is in range. *)
Definition at_index (matches : list string) (i : Z) : string :=
  default EmptyString (matches !! Z.to_nat i).

(** The arguments and results of [parseDeckLine], the line apart. *)
Record LineState : Type := {
  main : option CardNames;
  side : option CardNames;
  maybe : option CardNames;
  step : DeckType;
  sbLineFound : bool;
  emptyLineCount : Z
}.

Definition nonEmpty (c : option CardNames) : bool :=
  match c with
  | Some c => 0 <? Z.of_nat (length (Names c))
  | None => false
  end.

(** The first line starting with "SB:": the step becomes [Sideboard] and
    a sideboard that already holds cards is merged into main. *)
Definition sbTransition (st : LineState) : outcome LineState :=
  if nonEmpty (side st) then
    match main st, side st with
    | Some mainC, Some sideC =>
        Ret {| main := Some (mergeInto mainC sideC); side := None;
               maybe := maybe st; step := Sideboard; sbLineFound := true;
               emptyLineCount := emptyLineCount st |}
    | _, _ => Panic nilDeref
    end
  else
    Ret {| main := main st; side := side st; maybe := maybe st;
           step := Sideboard; sbLineFound := true;
           emptyLineCount := emptyLineCount st |}.

Definition insertOrNew (c : option CardNames) (name : string)
  (set : option string) (count : Z) : option CardNames :=
  Some (InsertCount (default NewCardNames c) name set count).

(** The tail of the loop body: the card is filed under the current step. *)
Definition fileCard (st : LineState) (name : string) (set : option string)
  (count : Z) : LineState :=
  match step st with
  | Main =>
      {| main := insertOrNew (main st) name set count; side := side st;
         maybe := maybe st; step := step st; sbLineFound := sbLineFound st;
         emptyLineCount := emptyLineCount st |}
  | Sideboard =>
      {| main := main st; side := insertOrNew (side st) name set count;
         maybe := maybe st; step := step st; sbLineFound := sbLineFound st;
         emptyLineCount := emptyLineCount st |}
  | Maybeboard =>
      {| main := main st; side := side st;
         maybe := insertOrNew (maybe st) name set count; step := step st;
         sbLineFound := sbLineFound st; emptyLineCount := emptyLineCount st |}
  end.

(** What one round of the loop over [cardLineRegexps] ends with. *)
Inductive round : Type :=
| Continue (st : LineState)
| Break (st : LineState)
| Crash (msg : string).

Definition setOf (groupNames matches : list string) : option string :=
  let setIdx := IndexOf "Set" groupNames in
  if negb (setIdx =? -1) && (0 <? Str.len (at_index matches setIdx)) then
    if String.eqb (at_index matches setIdx) "000" then None
    else Some (at_index matches setIdx)
  else None.

Definition nameOf (raw : string) : string :=
  let name := Str.TrimSpace raw in
  if Str.Contains name "///" then Str.ReplaceFirst name "///" "//" else name.

Definition tryRegexp (regex : Regexp) (line : string) (st : LineState) : round :=
  match FindStringSubmatch regex line with
  | None => Continue st
  | Some matches =>
      let groupNames := SubexpNames regex in
      let countIdx := IndexOf "Count" groupNames in
      if countIdx =? -1 then Continue st else
      let nameIdx := IndexOf "Name" groupNames in
      if nameIdx =? -1 then Continue st else
      let sideboardIdx := IndexOf "Sideboard" groupNames in
      let switched :=
        if negb (sideboardIdx =? -1)
           && (0 <? Str.len (at_index matches sideboardIdx))
           && negb (sbLineFound st)
        then sbTransition st else Ret st in
      match switched with
      | Panic msg => Crash msg
      | Ret st1 =>
          let set := setOf groupNames matches in
          match Atoi (at_index matches countIdx) with
          | None => Continue st1
          | Some count =>
              Break (fileCard st1 (nameOf (at_index matches nameIdx)) set count)
          end
      end
  end.

Fixpoint tryRegexps (regexps : list Regexp) (line : string) (st : LineState)
  : outcome LineState :=
  match regexps with
  | [] => Ret st
  | regex :: rest =>
      match tryRegexp regex line st with
      | Continue st' => tryRegexps rest line st'
      | Break st' => Ret st'
      | Crash msg => Panic msg
      end
  end.

Definition parseDeckLine (line : string) (st : LineState) : outcome LineState :=
  tryRegexps cardLineRegexps line st.

(** ** The input stream

    An [io.Reader] delivers the bytes of [content] and then ends, with
    [io.EOF] ([failure = None]) or with a read error. *)
Record Reader : Type := { content : string; failure : option error }.

Definition MaxScanTokenSize : N := 65536.
Definition ErrTooLong : error := "bufio.Scanner: token too long".

(** The pieces between line feeds; the last one is what follows the last
    line feed. *)
Fixpoint splitLF (s : string) : list string :=
  match s with
  | EmptyString => [EmptyString]
  | String c s' =>
      if Ascii.eqb c Str.LF then EmptyString :: splitLF s'
      else match splitLF s' with
           | p :: ps => String c p :: ps
           | [] => [String c EmptyString]
           end
  end.

(** [dropCR] of [bufio.ScanLines] *)
Definition dropCR (s : string) : string :=
  if Str.HasSuffix s (String Str.CR EmptyString)
  then Str.take (String.length s - 1) s else s.

(** The tokens of a [bufio.Scanner] with [ScanLines]: a piece of
    [MaxScanTokenSize] bytes or more fills the buffer before its end is
    seen and ends the scan with [ErrTooLong]; an empty last piece is no
    token. *)
Fixpoint scanTokens (pieces : list string) : list string * option error :=
  match pieces with
  | [] => ([], None)
  | p :: rest =>
      match rest with
      | [] => if String.eqb p EmptyString then ([], None)
              else if (N.of_nat (String.length p) <? MaxScanTokenSize)%N
                   then ([dropCR p], None) else ([], Some ErrTooLong)
      | _ :: _ =>
          if (N.of_nat (String.length p) <? MaxScanTokenSize)%N
          then let '(ls, e) := scanTokens rest in (dropCR p :: ls, e)
          else ([], Some ErrTooLong)
      end
  end.

(** The lines [scanner.Scan()] yields and the final [scanner.Err()]. *)
Definition scan (file : Reader) : list string * option error :=
  let '(ls, e) := scanTokens (splitLF (content file)) in
  (ls, match e with Some e => Some e | None => failure file end).

(** ** The file parser *)

(** The body of the loop [for scanner.Scan()]. *)
Definition scanLine (line : string) (st : LineState) : outcome LineState :=
  if Str.len line =? 0 then
    if nonEmpty (main st) then
      Ret {| main := main st; side := side st; maybe := maybe st;
             step := match step st with Main => Sideboard | s => s end;
             sbLineFound := sbLineFound st;
             emptyLineCount := wrap_int (emptyLineCount st + 1) |}
    else Ret st
  else if Str.HasPrefix line "Sideboard" then
    Ret {| main := main st; side := side st; maybe := maybe st;
           step := match step st with Main => Sideboard | s => s end;
           sbLineFound := sbLineFound st;
           emptyLineCount := emptyLineCount st |}
  else if Str.HasPrefix line "Maybeboard" then
    Ret {| main := main st; side := side st; maybe := maybe st;
           step := Maybeboard; sbLineFound := sbLineFound st;
           emptyLineCount := emptyLineCount st |}
  else if Str.HasPrefix line "//" then Ret st
  else parseDeckLine line st.

Fixpoint scanLoop (lines : list string) (st : LineState) : outcome LineState :=
  match lines with
  | [] => Ret st
  | line :: rest =>
      match scanLine line st with
      | Ret st' => scanLoop rest st'
      | Panic msg => Panic msg
      end
  end.

Definition initialState : LineState :=
  {| main := None; side := None; maybe := None; step := Main;
     sbLineFound := false; emptyLineCount := 0 |}.

(** The merge after the loop: several empty lines and no line starting
    with "SB:" mean that there was no sideboard. *)
Definition endOfInput (st : LineState) : outcome LineState :=
  match side st with
  | Some sideC =>
      if negb (sbLineFound st) && (1 <? emptyLineCount st) then
        match main st with
        | Some mainC =>
            Ret {| main := Some (mergeInto mainC sideC); side := None;
                   maybe := maybe st; step := step st;
                   sbLineFound := sbLineFound st;
                   emptyLineCount := emptyLineCount st |}
        | None => Panic nilDeref
        end
      else Ret st
  | None => Ret st
  end.

(** The four results of [parseDeckFile]. *)
Record Parsed : Type := {
  pMain : option CardNames;
  pSide : option CardNames;
  pMaybe : option CardNames;
  pErr : option error
}.

Definition parseLines (lines : list string) (err : option error) : outcome Parsed :=
  match scanLoop lines initialState with
  | Panic msg => Panic msg
  | Ret st =>
      match endOfInput st with
      | Panic msg => Panic msg
      | Ret st' =>
          Ret {| pMain := main st'; pSide := side st'; pMaybe := maybe st';
                 pErr := err |}
      end
  end.

Definition parseDeckFile (file : Reader) : outcome Parsed :=
  let '(lines, err) := scan file in parseLines lines err.

(** The input that is just a text, read to its end. *)
Definition text (s : string) : Reader := {| content := s; failure := None |}.

(** ** Card data (package [scryfall]) and decks (package [plugins]) *)

Module scryfall.

Record ImageURIs : Type := {
  Small : string; Normal : string; Large : string; PNG : string
}.

Record RelatedCard : Type := { Component : string; URI : string }.

Record CardFace : Type := { FaceName : string; FaceImageURIs : ImageURIs }.

(** The fields of [scryfall.Card] that the resolver reads;
    [ImageURIs] is a pointer. *)
Record Card : Type := {
  ID : string;
  CardName : string;
  Layout : string;
  AllParts : list RelatedCard;
  CardFaces : list CardFace;
  CardImageURIs : option ImageURIs;
  HighresImage : bool;
  Oversized : bool
}.

Record GetCardByNameOptions : Type := { OptSet : string }.

Definition LayoutMeld : string := "meld".
Definition LayoutFlip : string := "flip".
Definition LayoutSplit : string := "split".
Definition LayoutAdventure : string := "adventure".
Definition ComponentMeldResult : string := "meld_result".

(** The client: every call may depend on, and change, the state [St] of
    the service and the network. *)
Record Client (St Ruling : Type) : Type := {
  GetCardByName :
    string -> bool -> GetCardByNameOptions -> St -> (Card + error) * St;
  GetRulings : string -> St -> (list Ruling + error) * St;
  GetCard : string -> St -> (Card + error) * St
}.
Arguments GetCardByName {St Ruling}.
Arguments GetRulings {St Ruling}.
Arguments GetCard {St Ruling}.

End scryfall.

Module plugins.

Inductive CardSize : Type := CardSizeStandard.

#[warning="-register-all"] Inductive CardInfo : Type := mkCardInfo {
  Name : string;
  Description : string;
  ImageURL : string;
  Count : Z;
  Oversized : bool;
  AlternativeState : option CardInfo
}.

Record Deck : Type := {
  DeckName : string;
  BackURL : string;
  Size : CardSize;
  Cards : list CardInfo
}.

End plugins.

(** ** The log

    The records of level Warn and Error, which the error policy of the
    resolver is phrased with; Debug and Info records are left out, and so
    are the records of the parser, none of which changes a result. *)

Inductive Level : Type := WarnLevel | ErrorLevel.

Record LogRecord : Type := {
  level : Level;
  message : string;
  fields : list (string * string)
}.

Definition warn (msg : string) : LogRecord :=
  {| level := WarnLevel; message := msg; fields := [] |}.
Definition errorf (msg : string) : LogRecord :=
  {| level := ErrorLevel; message := msg; fields := [] |}.
Definition errorw (msg : string) (kv : list (string * string)) : LogRecord :=
  {| level := ErrorLevel; message := msg; fields := kv |}.

(** Modelled from the spec: the constants [small], [normal], [large] and
    [png] of the plugin's quality option are declared outside the sources
    at hand; the spec names the four tiers. *)
Definition small : string := "small".
Definition normal : string := "normal".
Definition large : string := "large".
Definition png : string := "png".

(** The validated options: [quality] holds a string and [show_rulings] a
    bool when present, so the type assertions of the source succeed. *)
Record Options : Type := {
  quality : option string;
  show_rulings : option bool
}.

(** ** The resolver *)

Section Resolver.

Context {St Ruling : Type}.

(** What the resolver runs in: the state of the card service and the
    log written so far. *)
Record World : Type := { service : St; logged : list LogRecord }.

Definition M (A : Type) : Type := World -> outcome A * World.

Definition ret {A} (a : A) : M A := fun w => (Ret a, w).
Definition panic {A} (msg : string) : M A := fun w => (Panic msg, w).
Definition bind {A B} (c : M A) (k : A -> M B) : M B :=
  fun w =>
    match c w with
    | (Ret a, w') => k a w'
    | (Panic msg, w') => (Panic msg, w')
    end.
Definition emit (r : LogRecord) : M unit :=
  fun w => (Ret tt, {| service := service w; logged := logged w ++ [r] |}).
Definition call {A} (f : St -> A * St) : M A :=
  fun w => let '(a, s) := f (service w) in
           (Ret a, {| service := s; logged := logged w |}).

Notation "'do' x <- c ; k" := (bind c (fun x => k))
  (at level 10, x name, c at level 100, k at level 200).
Notation "c ;; k" := (bind c (fun _ => k))
  (at level 100, right associativity).

(** [getImageURL]; reading a field of a nil [uris] panics. *)
Definition getImageURL (uris : option scryfall.ImageURIs)
  (highResAvailable : bool) (imageQuality : string) : M string :=
  let field (f : scryfall.ImageURIs -> string) : M string :=
    match uris with
    | Some u => ret (f u)
    | None => panic nilDeref
    end in
  if String.eqb imageQuality small then field scryfall.Small
  else if String.eqb imageQuality normal then field scryfall.Normal
  else if String.eqb imageQuality large then
    if highResAvailable then field scryfall.Large
    else
      emit (warn "High-resolution image not available, using normal quality instead of large") ;;
      field scryfall.Normal
  else if String.eqb imageQuality png then
    if highResAvailable then field scryfall.PNG
    else
      emit (warn "High-resolution image not available, using normal quality instead of png") ;;
      field scryfall.Normal
  else ret EmptyString.

(** The description builders, the default card back and the default
    quality are declared outside the sources at hand. *)
Variable buildCardDescription : scryfall.Card -> list Ruling -> string.
Variable buildCardFacesDescription :
  list scryfall.CardFace -> list Ruling -> string.
Variable buildCardFaceDescription : scryfall.CardFace -> list Ruling -> string.
Variable defaultBackURL : string.
Variable defaultQuality : string.
Variable ValidateNormalize : gmap string string -> Options + error.

Variable client : scryfall.Client St Ruling.

(** The pieces of a string between slashes: [strings.Split(s, "/")]. *)
Fixpoint splitSlash (s : string) : list string :=
  match s with
  | EmptyString => [EmptyString]
  | String c s' =>
      if Ascii.eqb c "/" then EmptyString :: splitSlash s'
      else match splitSlash s' with
           | p :: ps => String c p :: ps
           | [] => [String c EmptyString]
           end
  end.

(** [uriParts[len(uriParts)-1]]; [strings.Split] with a non-empty
    separator returns one piece at least, so the index is in range. *)
Definition lastPart (uriParts : list string) : string :=
  default EmptyString (last uriParts).

(** The first part whose component is the meld result: its URI, or the
    empty string when there is none. *)
Fixpoint findMeldResultURI (parts : list scryfall.RelatedCard) : string :=
  match parts with
  | [] => EmptyString
  | part :: rest =>
      if String.eqb (scryfall.Component part) scryfall.ComponentMeldResult
      then scryfall.URI part
      else findMeldResultURI rest
  end.

(** How one round of the loop over [cards.Names] ends: with the next
    round ([continue], or the end of the body) or with [return deck, err]. *)
Inductive cardRound : Type :=
| NextCard (deck : plugins.Deck)
| Return (deck : plugins.Deck) (err : error).

(** The deck a round ends with. *)
Definition roundDeck (r : cardRound) : plugins.Deck :=
  match r with NextCard d => d | Return d _ => d end.

Definition addCard (deck : plugins.Deck) (c : plugins.CardInfo) : plugins.Deck :=
  {| plugins.DeckName := plugins.DeckName deck;
     plugins.BackURL := plugins.BackURL deck;
     plugins.Size := plugins.Size deck;
     plugins.Cards := plugins.Cards deck ++ [c] |}.

Definition clientError (err : error) (key value : string) (opts : list (string * string))
  : LogRecord :=
  errorw "Scryfall client error" ([("error", err); (key, value)] ++ opts).

(** The branch [card.Layout == scryfall.LayoutMeld]. *)
Definition meldCard (card : scryfall.Card) (rulings : list Ruling)
  (count : Z) (imageQuality : string) (deck : plugins.Deck) : M cardRound :=
  if Z.of_nat (length (scryfall.AllParts card)) =? 0 then
    emit (errorf ("No meld parts found for card " +:+ scryfall.CardName card)) ;;
    ret (NextCard deck)
  else
    let meldResultURI := findMeldResultURI (scryfall.AllParts card) in
    if Str.len meldResultURI =? 0 then
      emit (errorf ("No meld result found for card " +:+ scryfall.CardName card)) ;;
      ret (NextCard deck)
    else
      let meldResultID := lastPart (splitSlash meldResultURI) in
      do res <- call (scryfall.GetCard client meldResultID) ;
      match res with
      | inr err =>
          emit (clientError err "id" meldResultID []) ;;
          ret (NextCard deck)
      | inl meldResult =>
          do imageURL <- getImageURL (scryfall.CardImageURIs card)
                           (scryfall.HighresImage card) imageQuality ;
          do meldResultImageURL <-
            getImageURL (scryfall.CardImageURIs meldResult)
              (scryfall.HighresImage meldResult) imageQuality ;
          ret (NextCard (addCard deck
            {| plugins.Name := scryfall.CardName card;
               plugins.Description := buildCardDescription card rulings;
               plugins.ImageURL := imageURL;
               plugins.Count := count;
               plugins.Oversized := false;
               plugins.AlternativeState := Some
                 {| plugins.Name := scryfall.CardName meldResult;
                    plugins.Description := buildCardDescription meldResult rulings;
                    plugins.ImageURL := meldResultImageURL;
                    plugins.Count := 0;
                    plugins.Oversized := true;
                    plugins.AlternativeState := None |} |}))
      end.

(** The branch of a card with a single face. *)
Definition singleFaceCard (card : scryfall.Card) (rulings : list Ruling)
  (count : Z) (imageQuality : string) (deck : plugins.Deck) : M cardRound :=
  match scryfall.CardImageURIs card with
  | None => ret (Return deck ("no image found for card " +:+ scryfall.CardName card))
  | Some _ =>
      let description :=
        if 1 <? Z.of_nat (length (scryfall.CardFaces card))
        then buildCardFacesDescription (scryfall.CardFaces card) rulings
        else buildCardDescription card rulings in
      do imageURL <- getImageURL (scryfall.CardImageURIs card)
                       (scryfall.HighresImage card) imageQuality ;
      ret (NextCard (addCard deck
        {| plugins.Name := scryfall.CardName card;
           plugins.Description := description;
           plugins.ImageURL := imageURL;
           plugins.Count := count;
           plugins.Oversized := scryfall.Oversized card;
           plugins.AlternativeState := None |}))
  end.

(** The branch of a transform card: [card.CardFaces[0]] and
    [card.CardFaces[1]] panic when out of range. *)
Definition transformCard (card : scryfall.Card) (rulings : list Ruling)
  (count : Z) (imageQuality : string) (deck : plugins.Deck) : M cardRound :=
  match scryfall.CardFaces card with
  | front :: back :: _ =>
      do frontImageURL <- getImageURL (Some (scryfall.FaceImageURIs front))
                            (scryfall.HighresImage card) imageQuality ;
      do backImageURL <- getImageURL (Some (scryfall.FaceImageURIs back))
                           (scryfall.HighresImage card) imageQuality ;
      ret (NextCard (addCard deck
        {| plugins.Name := scryfall.FaceName front;
           plugins.Description := buildCardFaceDescription front rulings;
           plugins.ImageURL := frontImageURL;
           plugins.Count := count;
           plugins.Oversized := false;
           plugins.AlternativeState := Some
             {| plugins.Name := scryfall.FaceName back;
                plugins.Description := buildCardFaceDescription back rulings;
                plugins.ImageURL := backImageURL;
                plugins.Count := 0;
                plugins.Oversized := false;
                plugins.AlternativeState := None |} |}))
  | _ => panic "index out of range"
  end.

Definition optsOf (cardInfo : CardInfo) : scryfall.GetCardByNameOptions :=
  {| scryfall.OptSet := default EmptyString (Set_ cardInfo) |}.

Definition wantRulings (options : Options) : bool :=
  default false (show_rulings options).

(** The first half of the loop body: the lookup by name and, when the
    options ask for them, the rulings. *)
Definition fetchCard (options : Options) (cardInfo : CardInfo)
  : M (scryfall.Card * list Ruling + error) :=
  let opts := optsOf cardInfo in
  do res <- call (scryfall.GetCardByName client (Name cardInfo) false opts) ;
  match res with
  | inr err =>
      emit (clientError err "name" (Name cardInfo)
              [("options", scryfall.OptSet opts)]) ;;
      ret (inr err)
  | inl card =>
      if wantRulings options then
        do r <- call (scryfall.GetRulings client (scryfall.ID card)) ;
        match r with
        | inr err =>
            emit (clientError err "name" (Name cardInfo)
                    [("options", scryfall.OptSet opts)]) ;;
            ret (inr err)
        | inl rulings => ret (inl (card, rulings))
        end
      else ret (inl (card, []))
  end.

(** The second half: the branch on the layout of the card. *)
Definition buildCard (card : scryfall.Card) (rulings : list Ruling)
  (count : Z) (imageQuality : string) (deck : plugins.Deck) : M cardRound :=
  if String.eqb (scryfall.Layout card) scryfall.LayoutMeld then
    meldCard card rulings count imageQuality deck
  else if (Z.of_nat (length (scryfall.CardFaces card)) =? 0)
          || String.eqb (scryfall.Layout card) scryfall.LayoutFlip
          || String.eqb (scryfall.Layout card) scryfall.LayoutSplit
          || String.eqb (scryfall.Layout card) scryfall.LayoutAdventure
  then singleFaceCard card rulings count imageQuality deck
  else transformCard card rulings count imageQuality deck.

(** The body of the loop over [cards.Names]. *)
Definition resolveCard (cards : CardNames) (options : Options)
  (imageQuality : string) (deck : plugins.Deck) (cardInfo : CardInfo)
  : M cardRound :=
  let count := count_of cards (Name cardInfo) in
  do fetched <- fetchCard options cardInfo ;
  match fetched with
  | inr err => ret (Return deck err)
  | inl (card, rulings) => buildCard card rulings count imageQuality deck
  end.

Fixpoint resolveCards (cards : CardNames) (options : Options)
  (imageQuality : string) (names : list CardInfo) (deck : plugins.Deck)
  : M (plugins.Deck * option error) :=
  match names with
  | [] => ret (deck, None)
  | cardInfo :: rest =>
      do r <- resolveCard cards options imageQuality deck cardInfo ;
      match r with
      | NextCard deck' => resolveCards cards options imageQuality rest deck'
      | Return deck' err => ret (deck', Some err)
      end
  end.

Definition newDeck (name : string) : plugins.Deck :=
  {| plugins.DeckName := name; plugins.BackURL := defaultBackURL;
     plugins.Size := plugins.CardSizeStandard; plugins.Cards := [] |}.

(** [cardNamesToDeck]; [cards.Names] on a nil [cards] panics.  The
    client is the one [scryfall.NewClient] returns; the pauses between
    two calls ([time.Sleep]) have no part in the result. *)
Definition cardNamesToDeck (cards : option CardNames) (name : string)
  (options : Options) : M (plugins.Deck * option error) :=
  let deck := newDeck name in
  let imageQuality := default defaultQuality (quality options) in
  match cards with
  | None => panic nilDeref
  | Some c => resolveCards c options imageQuality (Names c) deck
  end.

(** One of the three blocks [if zone != nil] of [fromDeckFile]: the
    deck resolved from [cards] joins [decks], or the error ends the
    function. *)
Definition zoneBlock (zone cards : option CardNames) (name : string)
  (options : Options) (decks : list plugins.Deck)
  : M (list plugins.Deck + error) :=
  match zone with
  | Some _ =>
      do r <- cardNamesToDeck cards name options ;
      match r with
      | (_, Some err) => ret (inr err)
      | (deck, None) => ret (inl (decks ++ [deck]))
      end
  | None => ret (inl decks)
  end.

(** [fromDeckFile] after the options are validated and the file is
    parsed; the third block resolves [side] under the maybeboard name. *)
Definition decksOf (p : Parsed) (name : string) (options : Options)
  : M (list plugins.Deck * option error) :=
  do r1 <- zoneBlock (pMain p) (pMain p) name options [] ;
  match r1 with
  | inr err => ret ([], Some err)
  | inl decks1 =>
      do r2 <- zoneBlock (pSide p) (pSide p) (name +:+ " - Sideboard") options decks1 ;
      match r2 with
      | inr err => ret ([], Some err)
      | inl decks2 =>
          do r3 <- zoneBlock (pMaybe p) (pSide p) (name +:+ " - Maybeboard") options decks2 ;
          match r3 with
          | inr err => ret ([], Some err)
          | inl decks3 => ret (decks3, None)
          end
      end
  end.

Definition fromDeckFile (file : Reader) (name : string)
  (options : gmap string string) : M (list plugins.Deck * option error) :=
  match ValidateNormalize options with
  | inr err => ret ([], Some err)
  | inl validatedOptions =>
      match parseDeckFile file with
      | Panic msg => panic msg
      | Ret p =>
          match pErr p with
          | Some err => ret ([], Some err)
          | None => decksOf p name validatedOptions
          end
      end
  end.

End Resolver.

(** ** Properties of parses *)

(** A continuation that hands back as many captures as it was given. *)
Definition keeps (n : nat) (k : cont) : Prop :=
  ∀ s pos cs res, length cs = n → k s pos cs = Some res → length res = n.


(** What the loop over [side.Counts] leaves under each key. *)
Definition merged (a b : gmap string Z) (n : string) : option Z :=
  match b !! n with
  | Some c => Some (match a !! n with
                    | Some o => wrap_int (o + c)
                    | None => c
                    end)
  | None => a !! n
  end.

(** The zone collections of a result, the absent ones left out. *)
Definition zones (p : Parsed) : list CardNames :=
  omap id [pMain p; pSide p; pMaybe p].

(** Each card name occurs once in the ordered sequence. *)
Definition distinctNames (c : CardNames) : Prop := NoDup (Name <$> Names c).

(** The keys of the counts are the names of the sequence. *)
Definition keyed (c : CardNames) : Prop :=
  ∀ n, n ∈ (Name <$> Names c) ↔ is_Some (Counts c !! n).


(** Whether a line of the file reaches [parseDeckLine]. *)
Definition isCardLine (line : string) : bool :=
  negb (Str.len line =? 0)
  && negb (Str.HasPrefix line "Sideboard")
  && negb (Str.HasPrefix line "Maybeboard")
  && negb (Str.HasPrefix line "//").









(** ** Sample inputs *)

Module Sample.

Import Str.

Definition card (n : string) : CardInfo := {| Name := n; Set_ := None |}.

Definition retraction : string :=
  "4 Forest" +:+ nl +:+ nl +:+ "4 Island" +:+ nl +:+ nl +:+ "SB: 2 Negate".

Definition falseBoundary : string :=
  "4 Forest" +:+ nl +:+ nl +:+ "4 Island" +:+ nl +:+ nl +:+ nl.

Definition overlap : string :=
  "4 Forest" +:+ nl +:+ nl +:+ "2 Forest" +:+ nl +:+ nl +:+ "SB: 2 Negate".

Definition overlapAtEnd : string :=
  "4 Forest" +:+ nl +:+ nl +:+ "2 Forest" +:+ nl +:+ nl.


Definition maybeOnly : string :=
  "1 Forest" +:+ nl +:+ "Maybeboard" +:+ nl +:+ "1 Negate".

Definition threeZones : string :=
  "1 Forest" +:+ nl +:+ "Sideboard" +:+ nl +:+ "2 Negate" +:+ nl
  +:+ "Maybeboard" +:+ nl +:+ "3 Island".

(** A card service for the examples.  Its state counts the calls made;
    it knows three ordinary cards, a meld card without parts ("Bruna") and
    a meld card whose meld result cannot be fetched ("Gisela"). *)
Definition uris (n : string) : scryfall.ImageURIs :=
  {| scryfall.Small := n +:+ "/small"; scryfall.Normal := n +:+ "/normal";
     scryfall.Large := n +:+ "/large"; scryfall.PNG := n +:+ "/png" |}.

Definition plain (n : string) : scryfall.Card :=
  {| scryfall.ID := "id-" +:+ n; scryfall.CardName := n;
     scryfall.Layout := "normal"; scryfall.AllParts := [];
     scryfall.CardFaces := []; scryfall.CardImageURIs := Some (uris n);
     scryfall.HighresImage := true; scryfall.Oversized := false |}.

Definition meld (n : string) (parts : list scryfall.RelatedCard) : scryfall.Card :=
  {| scryfall.ID := "id-" +:+ n; scryfall.CardName := n;
     scryfall.Layout := scryfall.LayoutMeld; scryfall.AllParts := parts;
     scryfall.CardFaces := []; scryfall.CardImageURIs := Some (uris n);
     scryfall.HighresImage := true; scryfall.Oversized := false |}.

Definition known : list string := ["Forest"; "Island"; "Negate"].

Definition lookup (name : string) : scryfall.Card + error :=
  if bool_decide (name ∈ known) then inl (plain name)
  else if String.eqb name "Bruna" then inl (meld name [])
  else if String.eqb name "Gisela" then
    inl (meld name [ {| scryfall.Component := "meld_part";
                        scryfall.URI := "https://api/cards/bruna" |};
                     {| scryfall.Component := scryfall.ComponentMeldResult;
                        scryfall.URI := "https://api/cards/brisela" |} ])
  else inr ("card not found: " +:+ name).

Definition cardService : scryfall.Client nat unit :=
  {| scryfall.GetCardByName := fun name _ _ calls => (lookup name, S calls);
     scryfall.GetRulings := fun _ calls => (inl [], S calls);
     scryfall.GetCard := fun id calls => (inr ("no card with id " +:+ id), S calls) |}.

Definition describe (c : scryfall.Card) (_ : list unit) : string :=
  scryfall.CardName c.
Definition describeFaces (fs : list scryfall.CardFace) (_ : list unit) : string :=
  String.concat " // " (scryfall.FaceName <$> fs).
Definition describeFace (f : scryfall.CardFace) (_ : list unit) : string :=
  scryfall.FaceName f.

Definition noOptions : Options := {| quality := None; show_rulings := None |}.
Definition validate (_ : gmap string string) : Options + error := inl noOptions.

Definition start : @World nat := {| service := O; logged := [] |}.

Definition resolve := cardNamesToDeck describe describeFaces describeFace "back" normal cardService.
Definition convert := fromDeckFile describe describeFaces describeFace "back" normal validate cardService.

Definition zone (l : list (string * Z)) : CardNames :=
  {| Names := card <$> l.*1; Counts := list_to_map l |}.

(** What the service's ordinary cards resolve to, and a deck of them. *)
Definition resolved (n : string) (count : Z) : plugins.CardInfo :=
  {| plugins.Name := n; plugins.Description := n;
     plugins.ImageURL := n +:+ "/normal"; plugins.Count := count;
     plugins.Oversized := false; plugins.AlternativeState := None |}.

Definition deckOf (name : string) (cards : list plugins.CardInfo) : plugins.Deck :=
  {| plugins.DeckName := name; plugins.BackURL := "back";
     plugins.Size := plugins.CardSizeStandard; plugins.Cards := cards |}.

Definition after (calls : nat) (records : list LogRecord) : @World nat :=
  {| service := calls; logged := records |}.

End Sample.

(** ** Further properties of the collections and of the parser *)

(** The cards of a list inserted one after the other, as the parser does
    for the lines of a zone. *)
Definition insertAll (c : CardNames) (l : list (string * option string * Z))
  : CardNames :=
  foldl (fun c '(name, set, count) => InsertCount c name set count) c l.

(** The names of a list without those in [seen] and without repetitions,
    each at its first occurrence. *)
Fixpoint firstOccurrences (seen : list string) (l : list string) : list string :=
  match l with
  | [] => []
  | x :: l' =>
      if bool_decide (x ∈ seen) then firstOccurrences seen l'
      else x :: firstOccurrences (x :: seen) l'
  end.

(** The sum of the counts listed under a name. *)
Definition sumFor (name : string) (l : list (string * option string * Z)) : Z :=
  foldr (fun '(n, _, k) acc => if bool_decide (n = name) then k + acc else acc) 0 l.

(** A zone that a parse may return: it lists a card at least, and every
    name it lists has a count. *)
Definition populated (c : CardNames) : Prop := Names c ≠ [] ∧ keyed c.

(** No card of the zone carries the placeholder set or an empty one. *)
Definition setsErased (c : CardNames) : Prop :=
  ∀ ci, ci ∈ Names c → Set_ ci ≠ Some "000" ∧ Set_ ci ≠ Some EmptyString.

(** A line that the file parser passes over: a comment, or a line that
    reaches the grammars and that none of them matches. *)
Definition passedOver (line : string) : bool :=
  Str.HasPrefix line "//"
  || (isCardLine line
      && forallb (fun regex => bool_decide (FindStringSubmatch regex line = None))
           cardLineRegexps).

(** Whether a text ends with a line feed. *)
Fixpoint endsWithLF (s : string) : bool :=
  match s with
  | EmptyString => false
  | String c EmptyString => Ascii.eqb c Str.LF
  | String _ s' => endsWithLF s'
  end.

(** ** More sample services *)

Module Cases.

(** A card without image, a transform card with a single face, and a
    meld card whose meld result can be fetched. *)
Definition blank : scryfall.Card :=
  {| scryfall.ID := "id-Blank"; scryfall.CardName := "Blank";
     scryfall.Layout := "normal"; scryfall.AllParts := [];
     scryfall.CardFaces := []; scryfall.CardImageURIs := None;
     scryfall.HighresImage := false; scryfall.Oversized := false |}.

Definition lonely : scryfall.Card :=
  {| scryfall.ID := "id-Lonely"; scryfall.CardName := "Lonely";
     scryfall.Layout := "transform"; scryfall.AllParts := [];
     scryfall.CardFaces :=
       [ {| scryfall.FaceName := "Front";
            scryfall.FaceImageURIs := Sample.uris "Front" |} ];
     scryfall.CardImageURIs := None;
     scryfall.HighresImage := true; scryfall.Oversized := false |}.

Definition gisela : scryfall.Card :=
  Sample.meld "Gisela"
    [ {| scryfall.Component := "meld_part";
         scryfall.URI := "https://api/cards/bruna" |};
      {| scryfall.Component := scryfall.ComponentMeldResult;
         scryfall.URI := "https://api/cards/brisela" |} ].

Definition lookup (name : string) : scryfall.Card + error :=
  if String.eqb name "Blank" then inl blank
  else if String.eqb name "Lonely" then inl lonely
  else if String.eqb name "Gisela" then inl gisela
  else Sample.lookup name.

(** The service answers every lookup and fetches the meld result
    "brisela"; its rulings are down. *)
Definition oddService : scryfall.Client nat unit :=
  {| scryfall.GetCardByName := fun name _ _ calls => (lookup name, S calls);
     scryfall.GetRulings := fun _ calls => (inr "rulings unavailable", S calls);
     scryfall.GetCard := fun id calls =>
       (if String.eqb id "brisela" then inl (Sample.plain "Brisela")
        else inr ("no card with id " +:+ id), S calls) |}.

(** The same service with rulings that answer. *)
Definition calmService : scryfall.Client nat unit :=
  {| scryfall.GetCardByName := scryfall.GetCardByName oddService;
     scryfall.GetRulings := fun _ calls => (inl [], S calls);
     scryfall.GetCard := scryfall.GetCard oddService |}.

Definition withRulings : Options := {| quality := None; show_rulings := Some true |}.

Definition resolve :=
  cardNamesToDeck Sample.describe Sample.describeFaces Sample.describeFace
    "back" normal oddService.

Definition convert :=
  fromDeckFile Sample.describe Sample.describeFaces Sample.describeFace
    "back" normal Sample.validate oddService.

End Cases.

(** ** Printing a collection: [strconv.Itoa] and [CardNames.String] *)

(** ["0123456789"[d]] *)
Definition digitChar (d : Z) : ascii :=
  match d with
  | 0 => "0" | 1 => "1" | 2 => "2" | 3 => "3" | 4 => "4"
  | 5 => "5" | 6 => "6" | 7 => "7" | 8 => "8" | _ => "9"
  end%char.

(** The decimal digits of a number that is not negative, most significant
    first, in front of [acc]; twenty rounds cover 64 bits. *)
Fixpoint digitsOf (fuel : nat) (n : Z) (acc : string) : string :=
  match fuel with
  | O => acc
  | S fuel' =>
      let acc' := String (digitChar (n mod 10)) acc in
      if n <? 10 then acc' else digitsOf fuel' (n / 10) acc'
  end.

(** [strconv.Itoa] *)
Definition Itoa (i : Z) : string :=
  if i <? 0 then String "-" (digitsOf 20 (- i) EmptyString)
  else digitsOf 20 i EmptyString.

(** [CardNames.String]: a line "count name" for each name of the
    sequence. *)
Definition CardNames_String (c : CardNames) : string :=
  foldr (fun cardInfo sb =>
           Itoa (count_of c (Name cardInfo)) +:+ " " +:+ Name cardInfo
           +:+ Str.nl +:+ sb)
    EmptyString (Names c).

(** ** Predicates on lines *)

Fixpoint allChars (p : ascii -> bool) (s : string) : bool :=
  match s with
  | EmptyString => true
  | String c s' => p c && allChars p s'
  end.

(** No byte of [s] is [c]. *)
Definition lacks (c : ascii) (s : string) : bool :=
  allChars (fun x => negb (Ascii.eqb c x)) s.

(** A continuation that fails on every input without the byte [c]. *)
Definition starved (c : ascii) (k : cont) : Prop :=
  forall s pos cs, lacks c s = true -> k s pos cs = None.

Definition isDigit (c : ascii) : bool := in_class false [(48, 57)]%N c.
Definition isSpace (c : ascii) : bool :=
  in_class false [(9, 10); (12, 13); (32, 32)]%N c.

(** The bytes of a set code, [[A-Z0-9_]], and those that [.] matches. *)
Definition isSetCode (c : ascii) : bool :=
  in_class false [(65, 90); (48, 57); (95, 95)]%N c.
Definition notLF (c : ascii) : bool := in_class true [(10, 10)]%N c.

(** The marker of a sideboard line, when [sb]. *)
Definition sbPrefix (sb : bool) : string := if sb then "SB: " else EmptyString.

(** The set that the line parser keeps for a code that is not empty. *)
Definition keptSet (code : string) : option string :=
  if String.eqb code "000" then None else Some code.

(** A name that a line "count name" gives back unchanged: it is not
    empty, does not start with white space, holds none of the bytes that
    the grammars or the scanner give a meaning to (line feed, carriage
    return, "#", "(" and "["), and [nameOf] leaves it as it is. *)
Definition plainChar (c : ascii) : bool :=
  negb (Ascii.eqb c Str.LF) && negb (Ascii.eqb c Str.CR)
  && negb (Ascii.eqb c "#") && negb (Ascii.eqb c "(") && negb (Ascii.eqb c "[").

Definition plainName (name : string) : bool :=
  match name with
  | EmptyString => false
  | String c _ => negb (isSpace c) && allChars plainChar name
  end.

(** The line that the site adapters and [CardNames.String] write for a
    card. *)
Definition cardLine (count : Z) (name : string) : string :=
  Itoa count +:+ " " +:+ name.

(** The lines of a text, each ended by a line feed. *)
Definition linesText (lines : list string) : string :=
  foldr (fun line sb => line +:+ Str.nl +:+ sb) EmptyString lines.

(** A line that the scanner hands over as it is: no line feed inside,
    shorter than the buffer and no carriage return at its end. *)
Definition scannable (line : string) : bool :=
  lacks Str.LF line
  && (N.of_nat (String.length line) <? MaxScanTokenSize)%N
  && negb (Str.HasSuffix line (String Str.CR EmptyString)).

(** Cards filed one after the other into a zone, with no set. *)
Definition addTo (z : option CardNames) (cards : list (Z * string))
  : option CardNames :=
  foldl (fun z card => insertOrNew z (nameOf card.2) None card.1) z cards.

(** The zone that the parser builds from the cards of a list: none when
    the list is empty. *)
Definition zoneOf (cards : list (Z * string)) : option CardNames :=
  addTo None cards.

(** A card whose line "count name" the parser reads back: the count is
    in the range of an int and not negative, the name is plain and the
    line fits the buffer of the scanner. *)
Definition goodCard (card : Z * string) : bool :=
  (0 <=? card.1) && (card.1 <=? max_int) && plainName card.2
  && (N.of_nat (String.length (cardLine card.1 card.2)) <? MaxScanTokenSize)%N.

(** One copy of each name. *)
Definition ones (names : list string) : list (Z * string) :=
  map (fun name => (1, name)) names.

(** The lines of the cards of a list. *)
Definition cardLines (cards : list (Z * string)) : list string :=
  map (fun card => cardLine card.1 card.2) cards.

(** The cards that a collection lists, with their counts. *)
Definition listed (c : CardNames) : list (Z * string) :=
  map (fun ci => (count_of c (Name ci), Name ci)) (Names c).

(** A card as the parser files it: name, set and count, the arguments
    of [InsertCount]. *)
Definition Entry : Type := string * option string * Z.

(** The arguments of [InsertCount] for the cards of a list read from
    lines "count name". *)
Definition entries (cards : list (Z * string)) : list Entry :=
  map (fun card => (nameOf card.2, None, card.1)) cards.

(** Cards filed one after the other into a zone. *)
Definition addEntries (z : option CardNames) (es : list Entry) : option CardNames :=
  foldl (fun z e => insertOrNew z e.1.1 e.1.2 e.2) z es.

(** The state after the lines of the cards of a list: they join the zone
    of the current step. *)
Definition fileEntries (st : LineState) (es : list Entry) : LineState :=
  match step st with
  | Main =>
      {| main := addEntries (main st) es; side := side st; maybe := maybe st;
         step := step st; sbLineFound := sbLineFound st;
         emptyLineCount := emptyLineCount st |}
  | Sideboard =>
      {| main := main st; side := addEntries (side st) es; maybe := maybe st;
         step := step st; sbLineFound := sbLineFound st;
         emptyLineCount := emptyLineCount st |}
  | Maybeboard =>
      {| main := main st; side := side st; maybe := addEntries (maybe st) es;
         step := step st; sbLineFound := sbLineFound st;
         emptyLineCount := emptyLineCount st |}
  end.

(** A line that the scanner hands over as it is and that the body of the
    loop files as the card [e], in every state. *)
Definition files (line : string) (e : Entry) : Prop :=
  scannable line = true
  /\ forall st, scanLine line st = Ret (fileCard st e.1.1 e.1.2 e.2).

(** The header line of a zone, written when [present]. *)
Definition header (present : bool) (title : string) : list string :=
  if present then [title] else [].

(** The lines of a deck in three zones, as the site adapters write
    them. *)
Definition zoned (hs hm : bool) (a b c : list string) : list string :=
  a ++ header hs "Sideboard" ++ b ++ header hm "Maybeboard" ++ c.

Definition zonedLines (hs hm : bool) (a b c : list (Z * string)) : list string :=
  zoned hs hm (cardLines a) (cardLines b) (cardLines c).

(** ** The deck of ManaStack ([handleManaStackLink]) *)

Module manastack.

Record manaStackDeckOwner : Type := { OwnerID : Z; Username : string }.
Record manaStackSet : Type := { SetID : Z; SetName : string; Slug : string }.
Record manaStackCardInfo : Type := { Name : string; Set_ : manaStackSet }.
Record manaStackCard : Type := {
  Card : manaStackCardInfo;
  Commander : bool;
  Sideboard : bool;
  Maybeboard : bool
}.
Record manaStackDeck : Type := {
  Cards : list manaStackCard;
  DeckName : string;
  Owner : manaStackDeckOwner
}.

(** The four slices that the loop over [data.Cards] fills. *)
Record Slices : Type := {
  commanders : list string;
  main : list string;
  sideboard : list string;
  maybeboard : list string
}.

(** The body of the loop: the first flag set, in the order commander,
    sideboard, maybeboard, decides where the name of the card goes. *)
Definition sortCard (s : Slices) (card : manaStackCard) : Slices :=
  if Commander card then
    {| commanders := commanders s ++ [Name (Card card)]; main := main s;
       sideboard := sideboard s; maybeboard := maybeboard s |}
  else if Sideboard card then
    {| commanders := commanders s; main := main s;
       sideboard := sideboard s ++ [Name (Card card)];
       maybeboard := maybeboard s |}
  else if Maybeboard card then
    {| commanders := commanders s; main := main s; sideboard := sideboard s;
       maybeboard := maybeboard s ++ [Name (Card card)] |}
  else
    {| commanders := commanders s; main := main s ++ [Name (Card card)];
       sideboard := sideboard s; maybeboard := maybeboard s |}.

Definition sortCards (data : manaStackDeck) : Slices :=
  foldl sortCard
    {| commanders := []; main := []; sideboard := []; maybeboard := [] |}
    (Cards data).

(** [printCards] *)
Definition printCards (cards : list string) : string :=
  foldr (fun card sb => "1 " +:+ card +:+ Str.nl +:+ sb) EmptyString cards.

(** The text handed to [fromDeckFile]. *)
Definition deckText (data : manaStackDeck) : string :=
  let s := sortCards data in
  printCards (commanders s) +:+ printCards (main s)
  +:+ (if 0 <? Z.of_nat (length (sideboard s)) then "Sideboard" +:+ Str.nl
       else EmptyString)
  +:+ printCards (sideboard s)
  +:+ (if 0 <? Z.of_nat (length (maybeboard s)) then "Maybeboard" +:+ Str.nl
       else EmptyString)
  +:+ printCards (maybeboard s).

(** The cards of each slice, by the flags: the commander flag wins over
    the sideboard flag, which wins over the maybeboard flag. *)
Definition isCommander (card : manaStackCard) : bool := Commander card.
Definition isSide (card : manaStackCard) : bool :=
  negb (Commander card) && Sideboard card.
Definition isMaybe (card : manaStackCard) : bool :=
  negb (Commander card) && negb (Sideboard card) && Maybeboard card.
Definition isMain (card : manaStackCard) : bool :=
  negb (Commander card) && negb (Sideboard card) && negb (Maybeboard card).

Definition names (p : manaStackCard -> bool) (cards : list manaStackCard)
  : list string :=
  map (fun card => Name (Card card)) (List.filter p cards).

End manastack.

(** ** The deck of Frogtown ([handleFrogtownLink]) *)

Module frogtown.

Record frogtownDeckDetails : Type := {
  ID : string;
  Name : string;
  OwnerID : string;
  Mainboard : list string;
  Sideboard : list string;
  IDToNameSubset : gmap string string
}.

(** [printCards]: a card whose id is not a key of [IDToNameSubset] is
    left out (the source logs a warning). *)
Definition printCards (data : frogtownDeckDetails) (cards : list string) : string :=
  foldr (fun card sb =>
           match IDToNameSubset data !! card with
           | Some name => "1 " +:+ name +:+ Str.nl +:+ sb
           | None => sb
           end)
    EmptyString cards.

(** The text handed to [fromDeckFile]. *)
Definition deckText (data : frogtownDeckDetails) : string :=
  printCards data (Mainboard data)
  +:+ (if 0 <? Z.of_nat (length (Sideboard data)) then "Sideboard" +:+ Str.nl
       else EmptyString)
  +:+ printCards data (Sideboard data).

(** The names that the ids of a slice stand for. *)
Definition namesOf (data : frogtownDeckDetails) (cards : list string) : list string :=
  omap (fun card => IDToNameSubset data !! card) cards.

End frogtown.

(** ** The deck of Archidekt ([handleArchidektLink])

    [strings.ToUpper] is not modelled: the adapter is given as a function
    of it, and the text depends on it through the codes it returns. *)

Module archidekt.

Record archidektOwner : Type := {
  OwnerID : Z; Username : string; Avatar : string
}.
Record archidektOracleCard : Type := { Name : string }.
Record archidektEdition : Type := {
  Code : string; EditionName : string; MTGOCode : string
}.
Record archidektCardInfo : Type := {
  SkryfallID : string;
  OracleCard : archidektOracleCard;
  Edition : archidektEdition
}.
Record archidektCard : Type := {
  Card : archidektCardInfo;
  Quantity : Z;
  Modifier : string;
  Category : string;
  Label : string
}.
Record archidektDeck : Type := {
  ID : Z;
  DeckName : string;
  Description : string;
  Owner : archidektOwner;
  Cards : list archidektCard
}.

(** The four slices that the loop over [data.Cards] fills. *)
Record Slices : Type := {
  commanders : list archidektCard;
  main : list archidektCard;
  sideboard : list archidektCard;
  maybeboard : list archidektCard
}.

(** The body of the loop: the switch on [card.Category]. *)
Definition sortCard (s : Slices) (card : archidektCard) : Slices :=
  if String.eqb (Category card) "Commander" then
    {| commanders := commanders s ++ [card]; main := main s;
       sideboard := sideboard s; maybeboard := maybeboard s |}
  else if String.eqb (Category card) "Sideboard" then
    {| commanders := commanders s; main := main s;
       sideboard := sideboard s ++ [card]; maybeboard := maybeboard s |}
  else if String.eqb (Category card) "Maybeboard" then
    {| commanders := commanders s; main := main s; sideboard := sideboard s;
       maybeboard := maybeboard s ++ [card] |}
  else
    {| commanders := commanders s; main := main s ++ [card];
       sideboard := sideboard s; maybeboard := maybeboard s |}.

Definition sortCards (data : archidektDeck) : Slices :=
  foldl sortCard
    {| commanders := []; main := []; sideboard := []; maybeboard := [] |}
    (Cards data).

(** The line that [printCards] writes for a card, the line feed apart. *)
Definition lineOf (ToUpper : string -> string) (card : archidektCard) : string :=
  Itoa (Quantity card) +:+ " " +:+ Name (OracleCard (Card card))
  +:+ " (" +:+ ToUpper (Code (Edition (Card card))) +:+ ")".

(** [printCards] *)
Definition printCards (ToUpper : string -> string) (cards : list archidektCard)
  : string :=
  foldr (fun card sb =>
           Itoa (Quantity card) +:+ " " +:+ Name (OracleCard (Card card))
           +:+ " (" +:+ ToUpper (Code (Edition (Card card))) +:+ ")"
           +:+ Str.nl +:+ sb)
    EmptyString cards.

(** The text handed to [fromDeckFile]. *)
Definition deckText (ToUpper : string -> string) (data : archidektDeck) : string :=
  let s := sortCards data in
  printCards ToUpper (commanders s) +:+ printCards ToUpper (main s)
  +:+ (if 0 <? Z.of_nat (length (sideboard s)) then "Sideboard" +:+ Str.nl
       else EmptyString)
  +:+ printCards ToUpper (sideboard s)
  +:+ (if 0 <? Z.of_nat (length (maybeboard s)) then "Maybeboard" +:+ Str.nl
       else EmptyString)
  +:+ printCards ToUpper (maybeboard s).

(** The cards of a category, in the order of the deck. *)
Definition inCategory (category : string) (card : archidektCard) : bool :=
  String.eqb (Category card) category.
Definition isMain (card : archidektCard) : bool :=
  negb (inCategory "Commander" card) && negb (inCategory "Sideboard" card)
  && negb (inCategory "Maybeboard" card).

(** What the Arena grammar files for the line of a card. *)
Definition entry (ToUpper : string -> string) (card : archidektCard) : Entry :=
  (nameOf (Name (OracleCard (Card card))),
   keptSet (ToUpper (Code (Edition (Card card)))),
   Quantity card).

(** A card whose line the Arena grammar reads: a quantity in the range
    of an int and not negative, a name that is not empty, does not start
    with white space and holds no line feed, a code that [ToUpper] turns
    into capital letters, digits and "_", one at least, and a line that
    fits the buffer of the scanner. *)
Definition goodCard (ToUpper : string -> string) (card : archidektCard) : bool :=
  (0 <=? Quantity card) && (Quantity card <=? max_int)
  && match Name (OracleCard (Card card)) with
     | EmptyString => false
     | String c _ => negb (isSpace c)
     end
  && allChars notLF (Name (OracleCard (Card card)))
  && match ToUpper (Code (Edition (Card card))) with
     | EmptyString => false
     | String _ _ => true
     end
  && allChars isSetCode (ToUpper (Code (Edition (Card card))))
  && (N.of_nat (String.length (lineOf ToUpper card)) <? MaxScanTokenSize)%N.

End archidekt.

(** ** The text of an HTML deck ([handleHTMLLink]) *)

Module html.

(** The node types that [output] tells apart; [OtherNode] stands for the
    remaining ones (document, doctype, error). *)
Inductive NodeType : Type := TextNode | ElementNode | CommentNode | OtherNode.

(** A node with its children, from [FirstChild] along [NextSibling]. *)
#[warning="-register-all"] Inductive Node : Type :=
  mkNode (Type_ : NodeType) (Data : string) (children : list Node).

Definition Type_ (n : Node) : NodeType := let '(mkNode t _ _) := n in t.
Definition Data (n : Node) : string := let '(mkNode _ d _) := n in d.
Definition children (n : Node) : list Node := let '(mkNode _ _ l) := n in l.

(** [output]: what the closure writes to the buffer for a node. *)
Fixpoint output (n : Node) : string :=
  let '(mkNode t data kids) := n in
  let inner :=
    (fix each (l : list Node) : string :=
       match l with
       | [] => EmptyString
       | child :: rest => output child +:+ each rest
       end) kids in
  match t with
  | TextNode => Str.TrimSpace data
  | ElementNode =>
      if String.eqb data "br" then Str.nl
      else if String.eqb data "p" then Str.nl +:+ inner +:+ Str.nl
      else inner
  | CommentNode => EmptyString
  | OtherNode => inner
  end.

(** The tree without its comments, without what hangs below a text node
    and without what hangs below a line break. *)
Fixpoint prune (n : Node) : Node :=
  let '(mkNode t data kids) := n in
  let inner :=
    (fix each (l : list Node) : list Node :=
       match l with
       | [] => []
       | child :: rest =>
           match Type_ child with
           | CommentNode => each rest
           | _ => prune child :: each rest
           end
       end) kids in
  match t with
  | TextNode => mkNode t data []
  | ElementNode => if String.eqb data "br" then mkNode t data [] else mkNode t data inner
  | _ => mkNode t data inner
  end.

Definition text (s : string) : Node := mkNode TextNode s [].
Definition br : Node := mkNode ElementNode "br" [].

End html.

(** ** The options of the command line ([options.Set] of the deck builder) *)

Module cli.

(** [strings.Split(value, "=")] *)
Fixpoint splitEq (s : string) : list string :=
  match s with
  | EmptyString => [EmptyString]
  | String c s' =>
      if Ascii.eqb c "=" then EmptyString :: splitEq s'
      else match splitEq s' with
           | p :: ps => String c p :: ps
           | [] => [String c EmptyString]
           end
  end.

(** [options.Set]: the map after the call and the error returned. *)
Definition Set_ (o : gmap string string) (value : string)
  : gmap string string * option error :=
  match splitEq value with
  | [k; v] => (<[k := v]> o, None)
  | _ => (o, Some ("invalid option value: " +:+ value))
  end.

(** The number of "=" in a string. *)
Fixpoint countEq (s : string) : nat :=
  match s with
  | EmptyString => O
  | String c s' => if Ascii.eqb c "=" then S (countEq s') else countEq s'
  end.

End cli.


(** ** Sample decks of the sites *)

Module Decks.

Definition stackCard (name : string) (commander sideboard maybeboard : bool)
  : manastack.manaStackCard :=
  {| manastack.Card :=
       {| manastack.Name := name;
          manastack.Set_ := {| manastack.SetID := 1; manastack.SetName := "Core";
                               manastack.Slug := "core" |} |};
     manastack.Commander := commander; manastack.Sideboard := sideboard;
     manastack.Maybeboard := maybeboard |}.

Definition stackDeck (cards : list manastack.manaStackCard) : manastack.manaStackDeck :=
  {| manastack.Cards := cards; manastack.DeckName := "deck";
     manastack.Owner := {| manastack.OwnerID := 7; manastack.Username := "owner" |} |}.

(** A deck with cards in every zone; the commander is listed last and has
    the sideboard flag too. *)
Definition stack : manastack.manaStackDeck :=
  stackDeck [ stackCard "Forest" false false false;
              stackCard "Negate" false true false;
              stackCard "Island" false false true;
              stackCard "Forest" false false false;
              stackCard "Atraxa" true true false ].

(** A deck with a maybeboard and no sideboard. *)
Definition stackMaybe : manastack.manaStackDeck :=
  stackDeck [ stackCard "Forest" false false false;
              stackCard "Island" false false true ].

(** A Frogtown deck: the id "zz" has no name. *)
Definition frog : frogtown.frogtownDeckDetails :=
  {| frogtown.ID := "d1"; frogtown.Name := "deck"; frogtown.OwnerID := "o1";
     frogtown.Mainboard := ["a1"; "zz"; "a2"; "a1"];
     frogtown.Sideboard := ["zz"];
     frogtown.IDToNameSubset := {[ "a1" := "Forest"; "a2" := "Island" ]} |}.

(** Upper case for the letters a to z, as [strings.ToUpper] gives for
    them. *)
Definition upperByte (c : ascii) : ascii :=
  let n := Str.code c in
  if ((97 <=? n) && (n <=? 122))%N then ascii_of_N (n - 32) else c.

Fixpoint upper (s : string) : string :=
  match s with
  | EmptyString => EmptyString
  | String c s' => String (upperByte c) (upper s')
  end.

Definition archCard (name code : string) (quantity : Z) (category : string)
  : archidekt.archidektCard :=
  {| archidekt.Card :=
       {| archidekt.SkryfallID := "uid-" +:+ name;
          archidekt.OracleCard := {| archidekt.Name := name |};
          archidekt.Edition :=
            {| archidekt.Code := code; archidekt.EditionName := "edition";
               archidekt.MTGOCode := code |} |};
     archidekt.Quantity := quantity; archidekt.Modifier := "Normal";
     archidekt.Category := category; archidekt.Label := "" |}.

(** An Archidekt deck: a name with parentheses, the placeholder code and
    a commander listed after the main cards. *)
Definition arch : archidekt.archidektDeck :=
  {| archidekt.ID := 1; archidekt.DeckName := "deck";
     archidekt.Description := "";
     archidekt.Owner := {| archidekt.OwnerID := 7; archidekt.Username := "owner";
                           archidekt.Avatar := "" |};
     archidekt.Cards :=
       [ archCard "Forest" "m10" 4 "Land";
         archCard "Negate" "000" 2 "Sideboard";
         archCard "Erase (Not the Urza's Legacy One)" "unh" 1 "Maybeboard";
         archCard "Atraxa" "c16" 1 "Commander" ] |}.

(** The state after "4 Forest", an empty line and "4 Island". *)
Definition afterBlank : LineState :=
  {| main := Some (Sample.zone [("Forest", 4)]);
     side := Some (Sample.zone [("Island", 4)]); maybe := None;
     step := Sideboard; sbLineFound := false; emptyLineCount := 1 |}.

End Decks.
(** * Theorems *)

(** ** Machine integers and the merge of the counts *)

Lemma wrap_int_small z : min_int ≤ z ≤ max_int → wrap_int z = z.
Proof.
  unfold wrap_int, min_int, max_int. intros Hz.
  rewrite Z.mod_small; lia.
Qed.

Lemma wrap_int_range z : min_int ≤ wrap_int z ≤ max_int.
Proof.
  unfold wrap_int, min_int, max_int.
  pose proof (Z.mod_pos_bound (z + 2 ^ 63) (2 ^ 64) ltac:(lia)). lia.
Qed.

Lemma mergeStep_lookup i x r n :
  mergeStep i x r !! n =
    if decide (i = n)
    then Some (match r !! i with Some o => wrap_int (o + x) | None => x end)
    else r !! n.
Proof.
  unfold mergeStep. destruct (decide (i = n)) as [->|Hne].
  - destruct (r !! n); by rewrite lookup_insert_eq.
  - destruct (r !! i); by rewrite lookup_insert_ne.
Qed.

Lemma mergeCounts_lookup (a b : gmap string Z) (n : string) :
  mergeCounts a b !! n = merged a b n.
Proof.
  unfold mergeCounts. revert n.
  apply (map_fold_weak_ind
           (λ (r : gmap string Z) (m : gmap string Z), ∀ n, r !! n = merged a m n)).
  - intros n. unfold merged. by rewrite lookup_empty.
  - intros i x m r Hi IH n. rewrite mergeStep_lookup.
    pose proof (IH i) as Hri. unfold merged in *. rewrite Hi in Hri.
    destruct (decide (i = n)) as [->|Hne].
    + by rewrite lookup_insert_eq, Hri.
    + rewrite lookup_insert_ne by done. apply IH.
Qed.

(** The same counts result from any order of the visit. *)
Lemma mergeCounts_any_order (a b : gmap string Z) (l : list (string * Z)) :
  l ≡ₚ map_to_list b →
  foldr (λ kv acc, mergeStep kv.1 kv.2 acc) a l = mergeCounts a b.
Proof.
  intros Hperm. apply map_eq. intros n. rewrite mergeCounts_lookup.
  assert (Hnodup : NoDup l.*1).
  { rewrite Hperm. apply NoDup_fst_map_to_list. }
  assert (Hb : b = list_to_map l).
  { rewrite <- (list_to_map_to_list b) at 1.
    apply list_to_map_proper; [apply NoDup_fst_map_to_list|by symmetry]. }
  rewrite Hb. clear Hb Hperm. revert n.
  induction l as [|[i x] l IH]; intros n; simpl.
  - unfold merged. by rewrite lookup_empty.
  - apply NoDup_cons in Hnodup as [Hi Hnodup]. specialize (IH Hnodup).
    rewrite mergeStep_lookup. simpl. unfold merged in *.
    destruct (decide (i = n)) as [->|Hne].
    + rewrite lookup_insert_eq. rewrite IH.
      by rewrite (not_elem_of_list_to_map_1 _ _ Hi).
    + rewrite lookup_insert_ne by done. apply IH.
Qed.

Lemma IndexOf_range x l : IndexOf x l = -1 ∨ 0 ≤ IndexOf x l < Z.of_nat (length l).
Proof.
  induction l as [|y l IH]; simpl; [by left|].
  destruct (String.eqb x y); [right; lia|].
  destruct (IndexOf x l =? -1) eqn:E; [by left|].
  apply Z.eqb_neq in E. right. lia.
Qed.

(** ** The shape of a match *)

Lemma iterate_keeps n body k :
  (∀ k', keeps n k' → keeps n (λ s pos cs, body s pos cs k')) →
  keeps n k →
  ∀ fuel, keeps n (iterate body k fuel).
Proof.
  intros Hbody Hk fuel. induction fuel as [|fuel IH]; [exact Hk|].
  intros s pos cs res Hlen. simpl.
  destruct (body s pos cs _) as [res'|] eqn:E.
  - intros [= <-]. revert E. apply Hbody; [|done].
    intros s' pos' cs' res'' Hlen'. destruct (pos <? pos')%nat; [|done].
    by apply IH.
  - by apply Hk.
Qed.

Lemma m_keeps n r : ∀ k, keeps n k → keeps n (λ s pos cs, m r s pos cs k).
Proof.
  induction r as [c|neg ranges|r1 IH1 r2 IH2|r IH|r IH|r IH|i r IH| | |];
    intros k Hk s pos cs res Hlen; simpl.
  - destruct s as [|d s]; [done|]. destruct (Ascii.eqb c d); [by apply Hk|done].
  - destruct s as [|d s]; [done|].
    destruct (in_class neg ranges d); [by apply Hk|done].
  - apply (IH1 (λ s' pos' cs', m r2 s' pos' cs' k)); [|done]. by apply IH2.
  - by apply iterate_keeps.
  - apply (IH (λ s1 pos1 cs1, iterate (m r) k (String.length s1) s1 pos1 cs1)); [|done].
    intros s1 pos1 cs1 res1. by apply iterate_keeps.
  - destruct (m r s pos cs k) as [res'|] eqn:E.
    + intros [= <-]. revert E. by apply IH.
    + by apply Hk.
  - apply (IH (λ s' pos' cs', k s' pos' (set_cap i (Str.take (pos' - pos) s) cs'))); [|done].
    intros s' pos' cs' res' Hlen'. apply Hk.
    unfold set_cap, caps. by rewrite length_insert.
  - destruct (pos =? 0)%nat; [by apply Hk|done].
  - destruct s; [by apply Hk|done].
  - by apply Hk.
Qed.

Lemma attempt_length r s pos cs :
  m (Cap 0 (re r)) s pos (replicate (S (NumSubexp r)) None) (λ _ _ cs, Some cs)
  = Some cs →
  length cs = S (NumSubexp r).
Proof.
  apply (m_keeps (S (NumSubexp r)) (Cap 0 (re r)) (λ _ _ cs, Some cs)).
  - by intros ? ? ? ? ? [= <-].
  - by rewrite length_replicate.
Qed.

Lemma search_length r : ∀ fuel s pos cs,
  search r fuel s pos = Some cs → length cs = S (NumSubexp r).
Proof.
  induction fuel as [|fuel IH]; intros s pos cs; cbn [search];
    destruct (m (Cap 0 (re r)) s pos (replicate (S (NumSubexp r)) None)
                (λ _ _ cs, Some cs)) as [res|] eqn:E.
  - intros [= <-]. by apply attempt_length in E.
  - done.
  - intros [= <-]. by apply attempt_length in E.
  - destruct s as [|c s]; [done|]. apply IH.
Qed.

(** [FindStringSubmatch] returns one string for the whole match and one
    for each group: for the three grammars, as many as there are names,
    so that an index found by [IndexOf] in the names is in range. *)
Lemma FindStringSubmatch_length r s matches :
  FindStringSubmatch r s = Some matches → length matches = S (NumSubexp r).
Proof.
  unfold FindStringSubmatch.
  destruct (search r (String.length s) s 0) as [cs|] eqn:E; [|done].
  simpl. intros [= <-]. rewrite length_map. by eapply search_length.
Qed.

Lemma cardLineRegexps_names r :
  r ∈ cardLineRegexps → length (SubexpNames r) = S (NumSubexp r).
Proof.
  intros H. repeat (apply elem_of_cons in H as [->|H]; [reflexivity|]).
  by apply elem_of_nil in H.
Qed.

Lemma at_index_in_range r line matches x :
  r ∈ cardLineRegexps → FindStringSubmatch r line = Some matches →
  IndexOf x (SubexpNames r) ≠ -1 →
  matches !! Z.to_nat (IndexOf x (SubexpNames r))
  = Some (at_index matches (IndexOf x (SubexpNames r))).
Proof.
  intros Hr Hm Hx. unfold at_index.
  destruct (IndexOf_range x (SubexpNames r)) as [?|Hrange]; [done|].
  rewrite (cardLineRegexps_names r Hr), <- (FindStringSubmatch_length _ _ _ Hm) in Hrange.
  destruct (lookup_lt_is_Some_2 matches (Z.to_nat (IndexOf x (SubexpNames r))))
    as [v ->]; [lia|done].
Qed.

(** ** Insertion keeps the names distinct *)

Lemma NewCardNames_keyed : keyed NewCardNames ∧ distinctNames NewCardNames.
Proof.
  split.
  - intros n. simpl. rewrite lookup_empty. split.
    + intros H. by apply elem_of_nil in H.
    + intros [? ?]. done.
  - constructor.
Qed.

Lemma InsertCount_distinct c name set count :
  keyed c → distinctNames c →
  keyed (InsertCount c name set count)
  ∧ distinctNames (InsertCount c name set count).
Proof.
  intros Hk Hd. unfold InsertCount.
  destruct (Counts c !! name) as [old|] eqn:E; simpl.
  - split; [|exact Hd].
    intros n. simpl. rewrite (Hk n).
    destruct (decide (name = n)) as [->|Hne].
    + rewrite lookup_insert_eq, E. split; eauto.
    + by rewrite lookup_insert_ne.
  - split.
    + intros n. simpl. rewrite fmap_app, elem_of_app, (Hk n). simpl.
      rewrite list_elem_of_singleton.
      destruct (decide (name = n)) as [->|Hne].
      * rewrite lookup_insert_eq. split; eauto.
      * rewrite lookup_insert_ne by done.
        split; [intros [?|?]; [done|congruence]|by left].
    + unfold distinctNames. simpl. rewrite fmap_app. simpl.
      apply NoDup_app. split; [exact Hd|]. split.
      * intros n Hn Hn'. apply list_elem_of_singleton in Hn'. subst n.
        apply (Hk name) in Hn. rewrite E in Hn. by destruct Hn.
      * apply NoDup_singleton.
Qed.

(** ** Concrete parses *)

(** C1: the text "4 Forest\n\n4 Island\n\nSB: 2 Negate" parses to
    main = Forest 4, Island 4 (in this order), sideboard = Negate 2 and no
    maybeboard.  After the first four lines Island sits in a sideboard
    opened by the blank line; the line starting with "SB:" merges that
    sideboard into main before Negate is filed. *)
Theorem parse_boundary_retraction :
  scan (text Sample.retraction)
    = (["4 Forest"; ""; "4 Island"; ""; "SB: 2 Negate"], None)
  ∧ scanLoop ["4 Forest"; ""; "4 Island"; ""] initialState
    = Ret {| main := Some (Sample.zone [("Forest", 4)]);
             side := Some (Sample.zone [("Island", 4)]);
             maybe := None; step := Sideboard; sbLineFound := false;
             emptyLineCount := 2 |}
  ∧ sbTransition {| main := Some (Sample.zone [("Forest", 4)]);
                    side := Some (Sample.zone [("Island", 4)]);
                    maybe := None; step := Sideboard; sbLineFound := false;
                    emptyLineCount := 2 |}
    = Ret {| main := Some (Sample.zone [("Forest", 4); ("Island", 4)]);
             side := None;
             maybe := None; step := Sideboard; sbLineFound := true;
             emptyLineCount := 2 |}
  ∧ parseDeckFile (text Sample.retraction)
    = Ret {| pMain := Some {| Names := [Sample.card "Forest"; Sample.card "Island"];
                              Counts := {[ "Forest" := 4; "Island" := 4 ]} |};
             pSide := Some {| Names := [Sample.card "Negate"];
                              Counts := {[ "Negate" := 2 ]} |};
             pMaybe := None;
             pErr := None |}.
Proof. repeat split; vm_compute; reflexivity. Qed.

(** C4: the text "4 Forest\n\n4 Island\n\n\n" has no line starting with
    "SB:" and three blank lines after the first card; at the end of the
    input the sideboard that the first blank line opened (holding Island)
    is merged into main, and the parse returns main = Forest 4, Island 4
    and no sideboard. *)
Theorem parse_false_boundary :
  scanLoop (scan (text Sample.falseBoundary)).1 initialState
    = Ret {| main := Some (Sample.zone [("Forest", 4)]);
             side := Some (Sample.zone [("Island", 4)]);
             maybe := None; step := Sideboard; sbLineFound := false;
             emptyLineCount := 3 |}
  ∧ parseDeckFile (text Sample.falseBoundary)
    = Ret {| pMain := Some {| Names := [Sample.card "Forest"; Sample.card "Island"];
                              Counts := {[ "Forest" := 4; "Island" := 4 ]} |};
             pSide := None;
             pMaybe := None;
             pErr := None |}.
Proof. split; vm_compute; reflexivity. Qed.

(** C7: the line "SB: 2 [ABC] Counterspell" is not matched by the first
    grammar (Arena) and is matched by the second (Workstation), which
    reads the prefix "SB:", the count 2, the set ABC and the name
    Counterspell; [parseDeckLine] therefore files Counterspell with set
    ABC, although the third grammar would have read the name
    "[ABC] Counterspell". *)
Theorem workstation_grammar_first :
  cardLineRegexps !! 1%nat = Some workstationRegexp
  ∧ FindStringSubmatch arenaRegexp "SB: 2 [ABC] Counterspell" = None
  ∧ FindStringSubmatch workstationRegexp "SB: 2 [ABC] Counterspell"
    = Some ["SB: 2 [ABC] Counterspell"; "SB:"; "2"; "ABC"; "Counterspell"]
  ∧ SubexpNames workstationRegexp = [""; "Sideboard"; "Count"; "Set"; "Name"]
  ∧ FindStringSubmatch standardRegexp "SB: 2 [ABC] Counterspell"
    = Some ["SB: 2 [ABC] Counterspell"; "SB:"; "2"; "[ABC] Counterspell"; ""; ""]
  ∧ parseDeckLine "SB: 2 [ABC] Counterspell" initialState
    = Ret {| main := None;
             side := Some {| Names := [{| Name := "Counterspell"; Set_ := Some "ABC" |}];
                             Counts := {[ "Counterspell" := 2 ]} |};
             maybe := None; step := Sideboard; sbLineFound := true;
             emptyLineCount := 0 |}.
Proof. repeat split; vm_compute; reflexivity. Qed.

(** C2 (the code departs from it): on "4 Forest\n\n2 Forest\n\nSB: 2 Negate"
    Forest is in main and in the sideboard opened by the blank line when
    the line starting with "SB:" arrives; the merge adds the counts (6)
    and appends the sideboard's names whole, so main lists Forest twice.
    The merge at the end of the input does the same on
    "4 Forest\n\n2 Forest\n\n". *)
Theorem merge_duplicates_overlapping_name :
  parseDeckFile (text Sample.overlap)
    = Ret {| pMain := Some {| Names := [Sample.card "Forest"; Sample.card "Forest"];
                              Counts := {[ "Forest" := 6 ]} |};
             pSide := Some {| Names := [Sample.card "Negate"];
                              Counts := {[ "Negate" := 2 ]} |};
             pMaybe := None; pErr := None |}
  ∧ parseDeckFile (text Sample.overlapAtEnd)
    = Ret {| pMain := Some {| Names := [Sample.card "Forest"; Sample.card "Forest"];
                              Counts := {[ "Forest" := 6 ]} |};
             pSide := None; pMaybe := None; pErr := None |}
  ∧ ¬ distinctNames {| Names := [Sample.card "Forest"; Sample.card "Forest"];
                       Counts := {[ "Forest" := 6 ]} |}.
Proof.
  split; [vm_compute; reflexivity|].
  split; [vm_compute; reflexivity|].
  unfold distinctNames. simpl. intros H.
  apply NoDup_cons in H as [H _]. apply H. by left.
Qed.

(** ** The counts of the zones *)


Lemma count_of_None c n : Counts c !! n = None → count_of c n = 0.
Proof. unfold count_of. by intros ->. Qed.








(** ** The invariant of the parser loop *)
















(** The second hypothesis is needed: counts that add up to more than
    [max_int] wrap around to a negative count. *)
Lemma count_wraps_around :
  parseDeckFile (text ("9223372036854775807 Forest" +:+ Str.nl +:+ "1 Forest"))
  = Ret {| pMain := Some {| Names := [Sample.card "Forest"];
                            Counts := {[ "Forest" := min_int ]} |};
           pSide := None; pMaybe := None; pErr := None |}.
Proof. vm_compute. reflexivity. Qed.

(** ** The resolver *)

Section ResolverFacts.

Context {St Ruling : Type}.
Variable buildCardDescription : scryfall.Card → list Ruling → string.
Variable buildCardFacesDescription : list scryfall.CardFace → list Ruling → string.
Variable buildCardFaceDescription : scryfall.CardFace → list Ruling → string.
Variable defaultBackURL : string.
Variable defaultQuality : string.
Variable ValidateNormalize : gmap string string → Options + error.
Variable client : scryfall.Client St Ruling.

Abbreviation fetch := (fetchCard client).
Abbreviation build :=
  (buildCard buildCardDescription buildCardFacesDescription
     buildCardFaceDescription client).
Abbreviation resolveOne :=
  (resolveCard buildCardDescription buildCardFacesDescription
     buildCardFaceDescription client).
Abbreviation resolveAll :=
  (resolveCards buildCardDescription buildCardFacesDescription
     buildCardFaceDescription client).
Abbreviation toDeck :=
  (cardNamesToDeck buildCardDescription buildCardFacesDescription
     buildCardFaceDescription defaultBackURL defaultQuality client).
Abbreviation block :=
  (zoneBlock buildCardDescription buildCardFacesDescription
     buildCardFaceDescription defaultBackURL defaultQuality client).
Abbreviation decks :=
  (decksOf buildCardDescription buildCardFacesDescription
     buildCardFaceDescription defaultBackURL defaultQuality client).
Abbreviation convert :=
  (fromDeckFile buildCardDescription buildCardFacesDescription
     buildCardFaceDescription defaultBackURL defaultQuality
     ValidateNormalize client).

Lemma bind_Ret {A B} (c : @M St A) (k : A → @M St B) w b w' :
  bind c k w = (Ret b, w') ↔ ∃ a w1, c w = (Ret a, w1) ∧ k a w1 = (Ret b, w').
Proof.
  unfold bind. split.
  - destruct (c w) as [[a|msg] w1]; [eauto|done].
  - intros (a & w1 & -> & Hk). done.
Qed.

Lemma bind_step {A B} (c : @M St A) (k : A → @M St B) w a w1 :
  c w = (Ret a, w1) → bind c k w = k a w1.
Proof. unfold bind. by intros ->. Qed.

Lemma bind_panic {A B} (c : @M St A) (k : A → @M St B) w msg w1 :
  c w = (Panic msg, w1) → bind c k w = (Panic msg, w1).
Proof. unfold bind. by intros ->. Qed.

(** C9: for every set of image URIs, the qualities "large" and "png"
    return the normal URL when no high-resolution image is available,
    without a panic and with one warning logged; they return the large
    and the png URL when one is available; "small" and "normal" return
    their own URL whatever the flag. *)
Theorem getImageURL_quality (uris : scryfall.ImageURIs) (w : @World St) :
  getImageURL (Some uris) false large w
    = (Ret (scryfall.Normal uris),
       {| service := service w;
          logged := logged w ++ [warn "High-resolution image not available, using normal quality instead of large"] |})
  ∧ getImageURL (Some uris) false png w
    = (Ret (scryfall.Normal uris),
       {| service := service w;
          logged := logged w ++ [warn "High-resolution image not available, using normal quality instead of png"] |})
  ∧ getImageURL (Some uris) true large w = (Ret (scryfall.Large uris), w)
  ∧ getImageURL (Some uris) true png w = (Ret (scryfall.PNG uris), w)
  ∧ ∀ highResAvailable,
      getImageURL (Some uris) highResAvailable small w = (Ret (scryfall.Small uris), w)
      ∧ getImageURL (Some uris) highResAvailable normal w = (Ret (scryfall.Normal uris), w).
Proof. by repeat split. Qed.

(** *** The name of the deck *)

Lemma getImageURL_Ret uris flag q (w w' : @World St) url :
  getImageURL uris flag q w = (Ret url, w') → service w' = service w.
Proof.
  unfold getImageURL, bind, emit, ret, panic.
  repeat case_match; intros; simplify_eq; done.
Qed.

Lemma build_name card rulings count q deck w r w' :
  build card rulings count q deck w = (Ret r, w') →
  plugins.DeckName (roundDeck r) = plugins.DeckName deck.
Proof.
  unfold buildCard, meldCard, singleFaceCard, transformCard.
  unfold bind, emit, ret, panic, call.
  repeat case_match; intros; simplify_eq; done.
Qed.

Lemma resolveOne_name cards opts q deck ci w r w' :
  resolveOne cards opts q deck ci w = (Ret r, w') →
  plugins.DeckName (roundDeck r) = plugins.DeckName deck.
Proof.
  unfold resolveCard. intros H.
  apply bind_Ret in H as ([[card rulings]|err] & w1 & _ & H).
  - by eapply build_name.
  - unfold ret in H. by simplify_eq.
Qed.

Lemma resolveAll_name cards opts q names : ∀ deck w d e w',
  resolveAll cards opts q names deck w = (Ret (d, e), w') →
  plugins.DeckName d = plugins.DeckName deck.
Proof.
  induction names as [|ci rest IH]; intros deck w d e w' H; simpl in H.
  - unfold ret in H. by simplify_eq.
  - apply bind_Ret in H as (r & w1 & Hone & H).
    apply resolveOne_name in Hone.
    destruct r as [deck'|deck' err]; simpl in Hone.
    + apply IH in H. congruence.
    + unfold ret in H. by simplify_eq.
Qed.

Lemma toDeck_name cards name opts w d e w' :
  toDeck cards name opts w = (Ret (d, e), w') → plugins.DeckName d = name.
Proof.
  unfold cardNamesToDeck. destruct cards as [c|]; [|done].
  intros H. by apply resolveAll_name in H.
Qed.

(** *** The blocks of [fromDeckFile] *)

Lemma block_Ret zone cards name opts ds w r w' :
  block zone cards name opts ds w = (Ret r, w') →
  (zone = None ∧ r = inl ds ∧ w' = w)
  ∨ (is_Some zone ∧ ∃ d, toDeck cards name opts w = (Ret (d, None), w')
                         ∧ r = inl (ds ++ [d]))
  ∨ (is_Some zone ∧ ∃ d err, toDeck cards name opts w = (Ret (d, Some err), w')
                             ∧ r = inr err).
Proof.
  unfold zoneBlock. destruct zone as [z|].
  - intros H. apply bind_Ret in H as ([d [err|]] & w1 & Hd & H);
      unfold ret in H; simplify_eq; eauto 10.
  - unfold ret. intros. simplify_eq. by left.
Qed.

Lemma block_error zone c name opts ds w d err w' :
  toDeck (Some c) name opts w = (Ret (d, Some err), w') →
  block (Some zone) (Some c) name opts ds w = (Ret (inr err), w').
Proof. intros H. unfold zoneBlock. by rewrite (bind_step _ _ _ _ _ H). Qed.


(** C3: when the parse has a sideboard and a maybeboard, the last deck
    that [fromDeckFile] returns bears the name with the suffix
    " - Maybeboard" and is what [cardNamesToDeck] resolves from the
    sideboard's collection; the maybeboard's collection plays no part:
    any other one gives the same decks. *)
Theorem maybeboard_deck_from_sideboard file name options opts p s mb w ds w' :
  ValidateNormalize options = inl opts →
  parseDeckFile file = Ret p →
  pSide p = Some s → pMaybe p = Some mb →
  convert file name options w = (Ret (ds, None), w') →
  (∃ front d w2,
      ds = front ++ [d]
      ∧ plugins.DeckName d = name +:+ " - Maybeboard"
      ∧ toDeck (Some s) (name +:+ " - Maybeboard") opts w2 = (Ret (d, None), w'))
  ∧ ∀ mb', decks {| pMain := pMain p; pSide := pSide p; pMaybe := Some mb';
                    pErr := pErr p |} name opts w
           = (Ret (ds, None), w').
Proof.
  intros Hopts Hparse Hs Hmb. unfold fromDeckFile. rewrite Hopts, Hparse.
  destruct (pErr p) as [err|] eqn:Herr; [unfold ret; intros; simplify_eq|].
  intros H. split.
  - unfold decksOf in H.
    apply bind_Ret in H as ([ds1|e1] & w1 & _ & H); [|unfold ret in H; by simplify_eq].
    apply bind_Ret in H as ([ds2|e2] & w2 & _ & H); [|unfold ret in H; by simplify_eq].
    apply bind_Ret in H as ([ds3|e3] & w3 & Hb & H); unfold ret in H; simplify_eq.
    rewrite Hmb, Hs in Hb.
    apply block_Ret in Hb as [(? & _)|[(_ & d & Hd & ?)|(_ & d & e & _ & ?)]];
      simplify_eq.
    exists ds2, d, w2. split; [done|]. split; [|done].
    by apply toDeck_name in Hd.
  - intros mb'. unfold decksOf in *. simpl. rewrite Hmb in H. exact H.
Qed.


(** C8: a meld card that came back from the lookup (and from the
    rulings, when asked for) is skipped when its parts hold no meld
    result, or when the lookup of the meld result fails: one error record
    is logged, the deck is left as it was and the loop goes on with the
    remaining cards.  In particular a zone of such a card followed by a
    card that resolves to [x] gives the deck with [x] only. *)
Theorem meld_without_result_is_skipped cards opts q deck cardInfo w card rulings w1 :
  fetch opts cardInfo w = (Ret (inl (card, rulings)), w1) →
  scryfall.Layout card = scryfall.LayoutMeld →
  (∀ part, part ∈ scryfall.AllParts card →
           scryfall.Component part ≠ scryfall.ComponentMeldResult)
  ∨ (∃ err s2,
       findMeldResultURI (scryfall.AllParts card) ≠ EmptyString
       ∧ scryfall.GetCard client
           (lastPart (splitSlash (findMeldResultURI (scryfall.AllParts card))))
           (service w1) = (inr err, s2)) →
  ∃ w2 rec,
    logged w2 = logged w1 ++ [rec] ∧ level rec = ErrorLevel
    ∧ resolveOne cards opts q deck cardInfo w = (Ret (NextCard deck), w2)
    ∧ (∀ rest, resolveAll cards opts q (cardInfo :: rest) deck w
               = resolveAll cards opts q rest deck w2)
    ∧ (∀ next x w3,
         resolveOne cards opts q deck next w2 = (Ret (NextCard (addCard deck x)), w3) →
         resolveAll cards opts q [cardInfo; next] deck w
           = (Ret (addCard deck x, None), w3)
         ∧ plugins.Cards (addCard deck x) = plugins.Cards deck ++ [x]).
Proof.
  intros Hfetch Hlayout Hcase.
  assert (Hbuild : ∃ w2 rec,
             logged w2 = logged w1 ++ [rec] ∧ level rec = ErrorLevel
             ∧ build card rulings (count_of cards (Name cardInfo)) q deck w1
               = (Ret (NextCard deck), w2)).
  { unfold buildCard. rewrite Hlayout. simpl. unfold meldCard.
    destruct Hcase as [Hnone|(err & s2 & Huri & Hget)].
    - destruct (Z.of_nat (length (scryfall.AllParts card)) =? 0).
      + eexists _, _. split; [|split]; [| |reflexivity]; done.
      + assert (Hempty : findMeldResultURI (scryfall.AllParts card) = EmptyString).
        { revert Hnone. generalize (scryfall.AllParts card).
          induction l as [|part rest IH]; intros Hnone; simpl; [done|].
          destruct (String.eqb_spec (scryfall.Component part) scryfall.ComponentMeldResult)
            as [Heq|_].
          - exfalso. apply (Hnone part); [by left|done].
          - apply IH. intros part' Hin. apply Hnone. by right. }
        rewrite Hempty. simpl.
        eexists _, _. split; [|split]; [| |reflexivity]; done.
    - destruct (Z.of_nat (length (scryfall.AllParts card)) =? 0) eqn:Elen.
      { exfalso. apply Z.eqb_eq in Elen.
        destruct (scryfall.AllParts card); [by apply Huri|simpl in Elen; lia]. }
      destruct (Str.len (findMeldResultURI (scryfall.AllParts card)) =? 0) eqn:Euri.
      { exfalso. apply Z.eqb_eq in Euri. unfold Str.len in Euri.
        destruct (findMeldResultURI (scryfall.AllParts card)); [by apply Huri|].
        simpl in Euri. lia. }
      unfold bind, call, emit, ret. rewrite Hget.
      eexists _, _. split; [|split]; [| |reflexivity]; done. }
  destruct Hbuild as (w2 & rec & Hlog & Hlevel & Hbuild).
  assert (Hone : resolveOne cards opts q deck cardInfo w = (Ret (NextCard deck), w2)).
  { unfold resolveCard. by rewrite (bind_step _ _ _ _ _ Hfetch). }
  exists w2, rec. split; [done|]. split; [done|]. split; [done|]. split.
  - intros rest. simpl. by rewrite (bind_step _ _ _ _ _ Hone).
  - intros next x w3 Hnext. split; [|done]. simpl.
    rewrite (bind_step _ _ _ _ _ Hone). by rewrite (bind_step _ _ _ _ _ Hnext).
Qed.

(** C10: the text "1 Forest\nMaybeboard\n1 Negate" parses to a main zone,
    no sideboard and a maybeboard.  [cardNamesToDeck] panics on a nil
    collection, and [fromDeckFile], which hands it the sideboard when the
    maybeboard is present, panics on every parse that has a maybeboard
    and no sideboard as soon as the main zone has resolved: it does not
    return an error value. *)
Theorem maybeboard_without_sideboard_panics :
  parseDeckFile (text Sample.maybeOnly)
    = Ret {| pMain := Some (Sample.zone [("Forest", 1)]); pSide := None;
             pMaybe := Some (Sample.zone [("Negate", 1)]); pErr := None |}
  ∧ (∀ name opts w, toDeck None name opts w = (Panic nilDeref, w))
  ∧ (∀ file p mb name options opts w ds1 w1,
       ValidateNormalize options = inl opts →
       parseDeckFile file = Ret p →
       pErr p = None → pSide p = None → pMaybe p = Some mb →
       block (pMain p) (pMain p) name opts [] w = (Ret (inl ds1), w1) →
       convert file name options w = (Panic nilDeref, w1)).
Proof.
  split; [vm_compute; reflexivity|]. split; [done|].
  intros file p mb name options opts w ds1 w1 Hopts Hparse Herr Hside Hmb Hmain.
  unfold fromDeckFile. rewrite Hopts, Hparse, Herr. unfold decksOf.
  rewrite (bind_step _ _ _ _ _ Hmain). rewrite Hside, Hmb.
  unfold zoneBlock at 1. unfold ret at 1. unfold bind at 1.
  unfold zoneBlock, cardNamesToDeck, panic, bind. done.
Qed.

End ResolverFacts.

(** ** The theorems of the resolver at the sample service *)

Lemma maybeboard_deck_from_sideboard_witness :
  parseDeckFile (text Sample.threeZones)
    = Ret {| pMain := Some (Sample.zone [("Forest", 1)]);
             pSide := Some (Sample.zone [("Negate", 2)]);
             pMaybe := Some (Sample.zone [("Island", 3)]);
             pErr := None |}
  ∧ Sample.convert (text Sample.threeZones) "deck" ∅ Sample.start
    = (Ret ([Sample.deckOf "deck" [Sample.resolved "Forest" 1];
             Sample.deckOf "deck - Sideboard" [Sample.resolved "Negate" 2];
             Sample.deckOf "deck - Maybeboard" [Sample.resolved "Negate" 2]],
            None),
       Sample.after 3 [])
  ∧ ∃ front d w2,
      [Sample.deckOf "deck" [Sample.resolved "Forest" 1];
       Sample.deckOf "deck - Sideboard" [Sample.resolved "Negate" 2];
       Sample.deckOf "deck - Maybeboard" [Sample.resolved "Negate" 2]]
        = front ++ [d]
      ∧ plugins.DeckName d = "deck - Maybeboard"
      ∧ Sample.resolve (Some (Sample.zone [("Negate", 2)])) "deck - Maybeboard"
          Sample.noOptions w2
        = (Ret (d, None), Sample.after 3 []).
Proof.
  assert (Hparse : parseDeckFile (text Sample.threeZones)
    = Ret {| pMain := Some (Sample.zone [("Forest", 1)]);
             pSide := Some (Sample.zone [("Negate", 2)]);
             pMaybe := Some (Sample.zone [("Island", 3)]);
             pErr := None |}) by (vm_compute; reflexivity).
  assert (Hrun : Sample.convert (text Sample.threeZones) "deck" ∅ Sample.start
    = (Ret ([Sample.deckOf "deck" [Sample.resolved "Forest" 1];
             Sample.deckOf "deck - Sideboard" [Sample.resolved "Negate" 2];
             Sample.deckOf "deck - Maybeboard" [Sample.resolved "Negate" 2]],
            None),
       Sample.after 3 [])) by (vm_compute; reflexivity).
  split; [exact Hparse|]. split; [exact Hrun|].
  exact (proj1 (maybeboard_deck_from_sideboard
                  Sample.describe Sample.describeFaces Sample.describeFace
                  "back" normal Sample.validate Sample.cardService
                  (text Sample.threeZones) "deck" ∅ Sample.noOptions _
                  (Sample.zone [("Negate", 2)]) (Sample.zone [("Island", 3)])
                  Sample.start _ _ eq_refl Hparse eq_refl eq_refl Hrun)).
Defined.


Lemma meld_without_result_is_skipped_witness :
  (∃ rec,
      level rec = ErrorLevel
      ∧ Sample.resolve (Some (Sample.zone [("Bruna", 1); ("Forest", 2)]))
          "deck" Sample.noOptions Sample.start
        = (Ret (Sample.deckOf "deck" [Sample.resolved "Forest" 2], None),
           Sample.after 2 [rec]))
  ∧ (∃ rec,
      level rec = ErrorLevel
      ∧ Sample.resolve (Some (Sample.zone [("Gisela", 1); ("Forest", 2)]))
          "deck" Sample.noOptions Sample.start
        = (Ret (Sample.deckOf "deck" [Sample.resolved "Forest" 2], None),
           Sample.after 3 [rec])).
Proof.
  split.
  - destruct (meld_without_result_is_skipped
                Sample.describe Sample.describeFaces Sample.describeFace
                Sample.cardService
                (Sample.zone [("Bruna", 1); ("Forest", 2)]) Sample.noOptions
                normal (Sample.deckOf "deck" []) (Sample.card "Bruna")
                Sample.start (Sample.meld "Bruna" []) [] (Sample.after 1 [])
                eq_refl eq_refl
                (or_introl (λ part H, False_ind _ (proj1 (elem_of_nil part) H))))
      as (w2 & rec & Hlog & Hlevel & Hone & _ & Hnext).
    exists rec. split; [exact Hlevel|].
    vm_compute in Hone. injection Hone as Hw2. subst w2.
    injection Hlog as Hrec. subst rec.
    exact (proj1 (Hnext (Sample.card "Forest") (Sample.resolved "Forest" 2) _ eq_refl)).
  - destruct (meld_without_result_is_skipped
                Sample.describe Sample.describeFaces Sample.describeFace
                Sample.cardService
                (Sample.zone [("Gisela", 1); ("Forest", 2)]) Sample.noOptions
                normal (Sample.deckOf "deck" []) (Sample.card "Gisela")
                Sample.start _ [] (Sample.after 1 [])
                eq_refl eq_refl
                (or_intror (ex_intro _ "no card with id brisela"
                   (ex_intro _ 2%nat (conj (λ H, eq_ind "https://api/cards/brisela"
                        (λ s, match s with EmptyString => False | _ => True end)
                        I _ H) eq_refl)))))
      as (w2 & rec & Hlog & Hlevel & Hone & _ & Hnext).
    exists rec. split; [exact Hlevel|].
    vm_compute in Hone. injection Hone as Hw2. subst w2.
    injection Hlog as Hrec. subst rec.
    exact (proj1 (Hnext (Sample.card "Forest") (Sample.resolved "Forest" 2) _ eq_refl)).
Defined.

Lemma maybeboard_without_sideboard_panics_witness :
  Sample.convert (text Sample.maybeOnly) "deck" ∅ Sample.start
  = (Panic nilDeref, Sample.after 1 []).
Proof.
  destruct (maybeboard_without_sideboard_panics
              Sample.describe Sample.describeFaces Sample.describeFace
              "back" normal Sample.validate Sample.cardService)
    as (Hparse & _ & Hpanic).
  exact (Hpanic (text Sample.maybeOnly) _ (Sample.zone [("Negate", 1)])
           "deck" ∅ Sample.noOptions Sample.start
           [Sample.deckOf "deck" [Sample.resolved "Forest" 1]]
           (Sample.after 1 []) eq_refl Hparse eq_refl eq_refl eq_refl eq_refl).
Defined.

(** * Further properties *)

(** ** Insertion *)

Lemma InsertCount_keyed c name set count :
  keyed c → keyed (InsertCount c name set count).
Proof.
  intros Hk n. unfold InsertCount.
  destruct (Counts c !! name) as [old|] eqn:E; simpl.
  - rewrite (Hk n). destruct (decide (name = n)) as [->|Hne].
    + rewrite lookup_insert_eq, E. split; eauto.
    + by rewrite lookup_insert_ne.
  - rewrite fmap_app, elem_of_app, (Hk n). simpl.
    rewrite list_elem_of_singleton.
    destruct (decide (name = n)) as [->|Hne].
    + rewrite lookup_insert_eq. split; eauto.
    + rewrite lookup_insert_ne by done.
      split; [intros [?|?]; [done|congruence]|by left].
Qed.

Lemma InsertCount_names c name set count :
  keyed c →
  Name <$> Names (InsertCount c name set count)
  = (Name <$> Names c)
    ++ (if bool_decide (name ∈ (Name <$> Names c)) then [] else [name]).
Proof.
  intros Hk. unfold InsertCount.
  destruct (Counts c !! name) as [old|] eqn:E; simpl.
  - rewrite bool_decide_eq_true_2; [by rewrite app_nil_r|].
    apply (Hk name). by rewrite E.
  - rewrite bool_decide_eq_false_2; [by rewrite fmap_app|].
    intros Hin. apply (Hk name) in Hin. rewrite E in Hin. by destruct Hin.
Qed.

Lemma insertAll_keyed l : ∀ c, keyed c → keyed (insertAll c l).
Proof.
  induction l as [|[[n s] k] l IH]; intros c Hk; simpl; [done|].
  apply IH. by apply InsertCount_keyed.
Qed.

Lemma firstOccurrences_seen seen seen' l :
  (∀ x, x ∈ seen ↔ x ∈ seen') →
  firstOccurrences seen l = firstOccurrences seen' l.
Proof.
  revert seen seen'. induction l as [|x l IH]; intros seen seen' Hs; simpl; [done|].
  rewrite (bool_decide_ext (x ∈ seen) (x ∈ seen')) by apply Hs.
  destruct (bool_decide (x ∈ seen')); [by apply IH|].
  f_equal. apply IH. intros y. rewrite !elem_of_cons, (Hs y). done.
Qed.

Lemma insertAll_names l : ∀ c,
  keyed c →
  Name <$> Names (insertAll c l)
  = (Name <$> Names c) ++ firstOccurrences (Name <$> Names c) (l.*1.*1).
Proof.
  induction l as [|[[n s] k] l IH]; intros c Hk; simpl.
  - by rewrite app_nil_r.
  - rewrite (IH _ (InsertCount_keyed c n s k Hk)).
    rewrite (InsertCount_names c n s k Hk).
    destruct (bool_decide (n ∈ (Name <$> Names c))) eqn:E.
    + by rewrite app_nil_r.
    + rewrite <- app_assoc. simpl. f_equal. f_equal.
      apply firstOccurrences_seen. intros x.
      rewrite elem_of_app, list_elem_of_singleton, elem_of_cons. tauto.
Qed.

Lemma firstOccurrences_NoDup l : ∀ seen,
  NoDup (firstOccurrences seen l)
  ∧ ∀ x, x ∈ firstOccurrences seen l → (x ∉ seen) ∧ (x ∈ l).
Proof.
  induction l as [|y l IH]; intros seen; simpl.
  - split; [constructor|]. intros x H. by apply elem_of_nil in H.
  - destruct (bool_decide (y ∈ seen)) eqn:E.
    + destruct (IH seen) as [Hnd Hin]. split; [done|].
      intros x Hx. destruct (Hin x Hx). split; [done|by right].
    + apply bool_decide_eq_false in E.
      destruct (IH (y :: seen)) as [Hnd Hin]. split.
      * constructor; [|done]. intros Hy. destruct (Hin y Hy) as [Hno _].
        apply Hno. by left.
      * intros x Hx. apply elem_of_cons in Hx as [->|Hx]; [split; [done|by left]|].
        destruct (Hin x Hx) as [Hno Hl]. split; [|by right].
        intros Hs. apply Hno. by right.
Qed.

(** X1: cards inserted one after the other into a fresh collection are
    listed once each, in the order of their first occurrence, whatever
    their sets and counts; every listed name has a count. *)
Theorem insertAll_lists_first_occurrences (l : list (string * option string * Z)) :
  Name <$> Names (insertAll NewCardNames l) = firstOccurrences [] (l.*1.*1)
  ∧ distinctNames (insertAll NewCardNames l)
  ∧ keyed (insertAll NewCardNames l).
Proof.
  pose proof (insertAll_names l NewCardNames (proj1 NewCardNames_keyed)) as Hn.
  simpl in Hn. split; [exact Hn|]. split.
  - unfold distinctNames. rewrite Hn. apply firstOccurrences_NoDup.
  - apply insertAll_keyed, NewCardNames_keyed.
Qed.

Lemma sumFor_nonneg n l :
  (∀ e, e ∈ l → 0 ≤ e.2) → 0 ≤ sumFor n l.
Proof.
  induction l as [|[[m s] k] l IH]; intros Hpos; simpl; [lia|].
  assert (0 ≤ sumFor n l) by (apply IH; intros e He; apply Hpos; by right).
  specialize (Hpos (m, s, k) ltac:(by left)). simpl in Hpos.
  destruct (bool_decide (m = n)); lia.
Qed.

Lemma InsertCount_adds c name set count n :
  0 ≤ count_of c name → 0 ≤ count → count_of c name + count ≤ max_int →
  count_of (InsertCount c name set count) n
  = count_of c n + (if bool_decide (name = n) then count else 0).
Proof.
  intros H0 Hc Hmax. unfold InsertCount.
  destruct (Counts c !! name) as [old|] eqn:E; unfold count_of at 1; simpl.
  - destruct (bool_decide_reflect (name = n)) as [->|Hne].
    + rewrite lookup_insert_eq. simpl. apply wrap_int_small. unfold min_int. lia.
    + rewrite lookup_insert_ne by done. unfold count_of. lia.
  - destruct (bool_decide_reflect (name = n)) as [->|Hne].
    + rewrite lookup_insert_eq. simpl. unfold count_of. rewrite E. simpl. lia.
    + rewrite lookup_insert_ne by done. unfold count_of. lia.
Qed.

Lemma insertAll_adds l : ∀ c,
  (∀ e, e ∈ l → 0 ≤ e.2) →
  (∀ n, 0 ≤ count_of c n) →
  (∀ n, count_of c n + sumFor n l ≤ max_int) →
  ∀ n, count_of (insertAll c l) n = count_of c n + sumFor n l.
Proof.
  induction l as [|[[m s] k] l IH]; intros c Hpos H0 Hmax n; simpl; [lia|].
  assert (Hk : 0 ≤ k) by (apply (Hpos (m, s, k)); by left).
  assert (Hl : ∀ e, e ∈ l → 0 ≤ e.2) by (intros e He; apply Hpos; by right).
  assert (Hstep : ∀ x, count_of (InsertCount c m s k) x
                       = count_of c x + (if bool_decide (m = x) then k else 0)).
  { intros x. apply InsertCount_adds; [apply H0|done|].
    specialize (Hmax m). simpl in Hmax. rewrite bool_decide_eq_true_2 in Hmax by done.
    pose proof (sumFor_nonneg m l Hl). lia. }
  rewrite IH; [|done| |].
  - rewrite Hstep. destruct (bool_decide (m = n)); lia.
  - intros x. rewrite Hstep. specialize (H0 x). destruct (bool_decide (m = x)); lia.
  - intros x. rewrite Hstep. specialize (Hmax x). simpl in Hmax.
    destruct (bool_decide (m = x)); lia.
Qed.

(** X2: when the counts are not negative and those of any one name add
    up to [max_int] at most, the count of a name after the insertions is
    the sum of the counts inserted under it (0 for a name never inserted). *)
Theorem insertAll_sums_counts (l : list (string * option string * Z)) :
  (∀ e, e ∈ l → 0 ≤ e.2) →
  (∀ n, sumFor n l ≤ max_int) →
  ∀ n, count_of (insertAll NewCardNames l) n = sumFor n l.
Proof.
  intros Hpos Hmax n.
  rewrite (insertAll_adds l NewCardNames Hpos); [done| |].
  - intros x. by rewrite count_of_None.
  - intros x. rewrite count_of_None by done. apply Hmax.
Qed.

Lemma insertAll_sums_counts_witness :
  count_of (insertAll NewCardNames
              [("Forest", None, 4); ("Island", Some "M10", 2); ("Forest", Some "M11", 3)])
    "Forest" = 7.
Proof.
  rewrite (insertAll_sums_counts
             [("Forest", None, 4); ("Island", Some "M10", 2); ("Forest", Some "M11", 3)]).
  - reflexivity.
  - intros e He.
    repeat (apply elem_of_cons in He as [->|He]; [simpl; lia|]).
    by apply elem_of_nil in He.
  - intros n. simpl. unfold max_int. repeat case_bool_decide; lia.
Defined.

(** ** The merge *)

Lemma mergeInto_keyed a b : keyed a → keyed b → keyed (mergeInto a b).
Proof.
  intros Ha Hb n. simpl. rewrite fmap_app, elem_of_app, (Ha n), (Hb n).
  rewrite mergeCounts_lookup. unfold merged.
  destruct (Counts b !! n), (Counts a !! n); split;
    intros; try (by eauto); try (by left); try (by right).
  destruct H as [[? ?]|[? ?]]; done.
Qed.

(** X3: the merge of a sideboard into main lists every name once exactly
    when main and the sideboard, each listing its names once, have no name
    in common; a common name is listed twice. *)
Theorem mergeInto_distinct_iff_disjoint (a b : CardNames) :
  distinctNames a → distinctNames b →
  (distinctNames (mergeInto a b)
   ↔ ∀ n, n ∈ (Name <$> Names a) → n ∉ (Name <$> Names b)).
Proof.
  intros Ha Hb. unfold distinctNames. simpl. rewrite fmap_app, NoDup_app.
  split.
  - intros (_ & Hdisj & _). exact Hdisj.
  - intros Hdisj. done.
Qed.

Lemma mergeInto_distinct_iff_disjoint_witness :
  distinctNames (mergeInto (Sample.zone [("Forest", 4)]) (Sample.zone [("Island", 4)]))
  ∧ ¬ distinctNames (mergeInto (Sample.zone [("Forest", 4)]) (Sample.zone [("Forest", 2)])).
Proof.
  assert (H1 : ∀ n k, distinctNames (Sample.zone [(n, k)])).
  { intros n k. unfold distinctNames. simpl. apply NoDup_singleton. }
  split.
  - apply (proj2 (mergeInto_distinct_iff_disjoint _ _ (H1 _ _) (H1 _ _))).
    intros n Hn Hn'. simpl in *.
    apply list_elem_of_singleton in Hn. apply list_elem_of_singleton in Hn'.
    subst n. discriminate.
  - intros H.
    apply (proj1 (mergeInto_distinct_iff_disjoint _ _ (H1 _ _) (H1 _ _)) H "Forest");
      simpl; by apply list_elem_of_singleton.
Defined.

(** X4: the counts that the merge leaves do not depend on the order in
    which the loop visits the keys of the sideboard's map: every order
    gives the collection that [mergeInto] computes. *)
Theorem mergeInto_any_order (a b : CardNames) (l : list (string * Z)) :
  l ≡ₚ map_to_list (Counts b) →
  {| Names := Names a ++ Names b;
     Counts := foldr (λ kv acc, mergeStep kv.1 kv.2 acc) (Counts a) l |}
  = mergeInto a b.
Proof.
  intros Hperm. unfold mergeInto. f_equal.
  apply map_eq. intros n. rewrite mergeCounts_lookup.
  assert (Hnodup : NoDup l.*1).
  { rewrite Hperm. apply NoDup_fst_map_to_list. }
  assert (Hb : Counts b = list_to_map l).
  { rewrite <- (list_to_map_to_list (Counts b)) at 1.
    apply list_to_map_proper; [apply NoDup_fst_map_to_list|by symmetry]. }
  rewrite Hb. clear Hb Hperm. revert n.
  induction l as [|[i x] l IH]; intros n; simpl.
  - unfold merged. by rewrite lookup_empty.
  - apply NoDup_cons in Hnodup as [Hi Hnodup]. specialize (IH Hnodup).
    rewrite mergeStep_lookup. simpl. unfold merged in *.
    destruct (decide (i = n)) as [->|Hne].
    + rewrite lookup_insert_eq. rewrite IH.
      by rewrite (not_elem_of_list_to_map_1 _ _ Hi).
    + rewrite lookup_insert_ne by done. apply IH.
Qed.

Lemma mergeInto_any_order_witness :
  {| Names := [Sample.card "Forest"; Sample.card "Island"; Sample.card "Forest"];
     Counts := foldr (λ kv acc, mergeStep kv.1 kv.2 acc) {[ "Forest" := 4 ]}
                 (reverse (map_to_list
                    (Counts (Sample.zone [("Island", 1); ("Forest", 2)])))) |}
  = mergeInto (Sample.zone [("Forest", 4)]) (Sample.zone [("Island", 1); ("Forest", 2)]).
Proof.
  apply (mergeInto_any_order (Sample.zone [("Forest", 4)])
           (Sample.zone [("Island", 1); ("Forest", 2)])).
  apply reverse_Permutation.
Defined.

(** ** Invariants of the zones through a parse *)

Section ZoneInvariant.

(** A property [Q] of collections that insertion and the merge keep, for
    the sets [A] that the grammars can yield. *)
Variable Q : CardNames → Prop.
Variable A : option string → Prop.
Hypothesis A_setOf : ∀ groupNames matches, A (setOf groupNames matches).
Hypothesis Q_first : ∀ n s k, A s → Q (InsertCount NewCardNames n s k).
Hypothesis Q_insert : ∀ c n s k, Q c → A s → Q (InsertCount c n s k).
Hypothesis Q_merge : ∀ a b, Q a → Q b → Q (mergeInto a b).

Let good (st : LineState) : Prop :=
  (∀ c, main st = Some c → Q c) ∧ (∀ c, side st = Some c → Q c)
  ∧ (∀ c, maybe st = Some c → Q c).

Lemma good_insertOrNew z n s k c :
  (∀ c, z = Some c → Q c) → A s → insertOrNew z n s k = Some c → Q c.
Proof.
  intros Hz HA. unfold insertOrNew. intros [= <-].
  destruct z as [c0|]; simpl; [apply Q_insert; auto|by apply Q_first].
Qed.

Lemma good_fileCard st n s k : good st → A s → good (fileCard st n s k).
Proof.
  intros (Hm & Hs & Hmb) HA. unfold fileCard, good.
  destruct (step st); cbn [main side maybe]; split_and!; try done;
    intros c; by apply good_insertOrNew.
Qed.

Lemma good_sbTransition st st' : good st → sbTransition st = Ret st' → good st'.
Proof.
  intros Hg. pose proof Hg as (Hm & Hs & Hmb). unfold sbTransition.
  destruct (nonEmpty (side st)).
  - destruct (main st) as [mainC|] eqn:Em; [|done].
    destruct (side st) as [sideC|] eqn:Es; [|done].
    intros [= <-]. unfold good. simpl. split_and!; [|done|done].
    intros c [= <-]. apply Q_merge; auto.
  - intros [= <-]. exact Hg.
Qed.

Lemma good_tryRegexps regexps : ∀ line st st',
  good st → tryRegexps regexps line st = Ret st' → good st'.
Proof.
  induction regexps as [|regex rest IH]; intros line st st' Hg; simpl.
  - by intros [= <-].
  - unfold tryRegexp.
    destruct (FindStringSubmatch regex line) as [matches|]; [|by apply IH].
    destruct (IndexOf "Count" (SubexpNames regex) =? -1); [by apply IH|].
    destruct (IndexOf "Name" (SubexpNames regex) =? -1); [by apply IH|].
    set (cond := negb _ && _ && _).
    assert (Hsw : ∀ st1, (if cond then sbTransition st else Ret st) = Ret st1 → good st1).
    { destruct cond; [intros st1; by apply good_sbTransition|by intros st1 [= <-]]. }
    destruct (if cond then sbTransition st else Ret st) as [st1|msg]; [|done].
    specialize (Hsw st1 eq_refl).
    destruct (Atoi _) as [count|]; [|by apply IH].
    intros [= <-]. by apply good_fileCard.
Qed.

Lemma good_scanLine line st st' : good st → scanLine line st = Ret st' → good st'.
Proof.
  intros Hg. unfold scanLine.
  repeat case_match; try (intros [= <-]; exact Hg).
  by apply good_tryRegexps.
Qed.

Lemma good_scanLoop lines : ∀ st st',
  good st → scanLoop lines st = Ret st' → good st'.
Proof.
  induction lines as [|line rest IH]; intros st st' Hg; simpl.
  - by intros [= <-].
  - destruct (scanLine line st) as [st1|msg] eqn:E; [|done].
    apply IH. by apply (good_scanLine line st).
Qed.

Lemma good_endOfInput st st' : good st → endOfInput st = Ret st' → good st'.
Proof.
  intros Hg. pose proof Hg as (Hm & Hs & Hmb). unfold endOfInput.
  destruct (side st) as [sideC|] eqn:Es; [|by intros [= <-]].
  destruct (negb (sbLineFound st) && (1 <? emptyLineCount st)); [|by intros [= <-]].
  destruct (main st) as [mainC|] eqn:Em; [|done].
  intros [= <-]. unfold good. simpl. split_and!; [|done|done].
  intros c [= <-]. apply Q_merge; auto.
Qed.

Lemma zones_keep file p c :
  parseDeckFile file = Ret p → c ∈ zones p → Q c.
Proof.
  unfold parseDeckFile, parseLines. destruct (scan file) as [lines err].
  destruct (scanLoop lines initialState) as [st|msg] eqn:Eloop; [|done].
  destruct (endOfInput st) as [st'|msg] eqn:Eend; [|done].
  intros [= <-]. unfold zones. cbn [pMain pSide pMaybe].
  assert (Hg : good st').
  { apply (good_endOfInput st); [|done].
    apply (good_scanLoop lines initialState); [|done]. by split_and!. }
  destruct Hg as (Hm & Hs & Hmb).
  intros Hc. apply list_elem_of_omap in Hc as (z & Hz & Hid). simpl in Hid. subst z.
  repeat (apply elem_of_cons in Hz as [Hz|Hz]; [by auto|]).
  by apply elem_of_nil in Hz.
Qed.

End ZoneInvariant.

Lemma populated_InsertCount c n s k :
  keyed c → populated (InsertCount c n s k).
Proof.
  intros Hk. split; [|by apply InsertCount_keyed].
  unfold InsertCount. destruct (Counts c !! n) as [old|] eqn:E; simpl.
  - intros Hnil. assert (Hin : n ∈ (Name <$> Names c)) by (apply (Hk n); by rewrite E).
    rewrite Hnil in Hin. by apply elem_of_nil in Hin.
  - by destruct (Names c).
Qed.

(** X5: every zone that a parse returns lists one card at least, and the
    keys of its counts are the names it lists: no listed name lacks a
    count, no count lacks a listed name.  (This holds through the merges,
    which may list a name twice.) *)
Theorem zones_populated_and_keyed (file : Reader) (p : Parsed) (c : CardNames) :
  parseDeckFile file = Ret p → c ∈ zones p →
  Names c ≠ []
  ∧ (∀ n, n ∈ (Name <$> Names c) ↔ is_Some (Counts c !! n)).
Proof.
  apply (zones_keep populated (λ _, True)).
  - done.
  - intros n s k _. apply populated_InsertCount, NewCardNames_keyed.
  - intros c0 n s k [_ Hk] _. by apply populated_InsertCount.
  - intros a b [Ha Hka] [Hb Hkb]. split; [|by apply mergeInto_keyed].
    simpl. by destruct (Names a).
Qed.

Lemma zones_populated_and_keyed_witness :
  Names (Sample.zone [("Forest", 4); ("Island", 4)]) ≠ []
  ∧ (∀ n, n ∈ (Name <$> Names (Sample.zone [("Forest", 4); ("Island", 4)]))
          ↔ is_Some (Counts (Sample.zone [("Forest", 4); ("Island", 4)]) !! n)).
Proof.
  apply (zones_populated_and_keyed (text Sample.retraction)
           {| pMain := Some (Sample.zone [("Forest", 4); ("Island", 4)]);
              pSide := Some (Sample.zone [("Negate", 2)]);
              pMaybe := None; pErr := None |}).
  - vm_compute. reflexivity.
  - unfold zones. simpl. by left.
Defined.

(** X6: no card of a zone that a parse returns carries the set "000",
    which some exports use as a placeholder, nor an empty set: such a set
    is read as no set. *)
Theorem zones_sets_erased (file : Reader) (p : Parsed) (c : CardNames) (ci : CardInfo) :
  parseDeckFile file = Ret p → c ∈ zones p → ci ∈ Names c →
  Set_ ci ≠ Some "000" ∧ Set_ ci ≠ Some EmptyString.
Proof.
  intros Hp Hc. revert ci.
  apply (zones_keep setsErased (λ s, s ≠ Some "000" ∧ s ≠ Some EmptyString)
           ) with (file := file) (p := p); [| | | |done|done].
  - intros g m. unfold setOf.
    destruct (negb (IndexOf "Set" g =? -1) && _) eqn:E; [|done].
    apply andb_true_iff in E as [_ Hlen].
    destruct (String.eqb_spec (at_index m (IndexOf "Set" g)) "000") as [|Hne]; [done|].
    split; [congruence|]. intros [= Hempty]. rewrite Hempty in Hlen. done.
  - intros n s k HA ci. unfold InsertCount. simpl.
    intros Hci. apply list_elem_of_singleton in Hci. by subst ci.
  - intros c0 n s k Hc0 HA ci. unfold InsertCount.
    destruct (Counts c0 !! n); simpl; [apply Hc0|].
    intros Hci. apply elem_of_app in Hci as [Hci|Hci]; [by apply Hc0|].
    apply list_elem_of_singleton in Hci. by subst ci.
  - intros a b Ha Hb ci. simpl. intros Hci.
    apply elem_of_app in Hci as [Hci|Hci]; [by apply Ha|by apply Hb].
Qed.

Lemma zones_sets_erased_witness :
  parseDeckFile (text ("2 [000] Forest" +:+ Str.nl +:+ "1 Island (M10)"))
  = Ret {| pMain := Some {| Names := [{| Name := "Forest"; Set_ := None |};
                                      {| Name := "Island"; Set_ := Some "M10" |}];
                            Counts := {[ "Forest" := 2; "Island" := 1 ]} |};
           pSide := None; pMaybe := None; pErr := None |}
  ∧ (None ≠ Some "000" ∧ None ≠ Some EmptyString).
Proof.
  assert (Hp : parseDeckFile (text ("2 [000] Forest" +:+ Str.nl +:+ "1 Island (M10)"))
  = Ret {| pMain := Some {| Names := [{| Name := "Forest"; Set_ := None |};
                                      {| Name := "Island"; Set_ := Some "M10" |}];
                            Counts := {[ "Forest" := 2; "Island" := 1 ]} |};
           pSide := None; pMaybe := None; pErr := None |})
    by (vm_compute; reflexivity).
  split; [exact Hp|].
  apply (zones_sets_erased _ _
           {| Names := [{| Name := "Forest"; Set_ := None |};
                        {| Name := "Island"; Set_ := Some "M10" |}];
              Counts := {[ "Forest" := 2; "Island" := 1 ]} |}
           {| Name := "Forest"; Set_ := None |} Hp).
  - unfold zones. simpl. by left.
  - simpl. by left.
Defined.

(** X7: for each of the three grammars, a match has as many strings as
    the grammar has group names, so that [matches[i]] is in range for
    every index that [IndexOf] finds among the names: the line parser
    cannot index out of range. *)
Theorem submatch_indices_in_range (r : Regexp) (line : string) (matches : list string) :
  r ∈ cardLineRegexps → FindStringSubmatch r line = Some matches →
  length matches = length (SubexpNames r)
  ∧ ∀ x, IndexOf x (SubexpNames r) ≠ -1 →
         is_Some (matches !! Z.to_nat (IndexOf x (SubexpNames r))).
Proof.
  intros Hr Hm. split.
  - rewrite (cardLineRegexps_names r Hr). by eapply FindStringSubmatch_length.
  - intros x Hx. apply lookup_lt_is_Some_2.
    destruct (IndexOf_range x (SubexpNames r)) as [?|Hrange]; [done|].
    rewrite (cardLineRegexps_names r Hr), <- (FindStringSubmatch_length _ _ _ Hm) in Hrange.
    lia.
Qed.

Lemma submatch_indices_in_range_witness :
  length ["SB: 2 [ABC] Counterspell"; "SB:"; "2"; "ABC"; "Counterspell"]
  = length (SubexpNames workstationRegexp).
Proof.
  apply (submatch_indices_in_range workstationRegexp "SB: 2 [ABC] Counterspell").
  - right. by left.
  - vm_compute. reflexivity.
Defined.

(** ** When the parser returns *)

(** The state in which neither merge can meet a nil main: as long as no
    line starting with "SB:" was found, a sideboard that is open or holds
    cards comes with a main zone, and so do counted blank lines. *)
Lemma scanLoop_app l1 : ∀ l2 st,
  scanLoop (l1 ++ l2) st
  = match scanLoop l1 st with
    | Ret st1 => scanLoop l2 st1
    | Panic msg => Panic msg
    end.
Proof.
  induction l1 as [|line l1 IH]; intros l2 st; simpl; [done|].
  destruct (scanLine line st) as [st1|msg]; [apply IH|done].
Qed.

Section PanicFree.

(** [headers = true]: lines starting with "Sideboard" may occur, and the
    main zone is there already. *)
Variable headers : bool.

Let safe (st : LineState) : Prop :=
  (if headers then is_Some (main st)
   else sbLineFound st = false →
        step st = Sideboard ∨ is_Some (side st) → is_Some (main st))
  ∧ (emptyLineCount st ≠ 0 → is_Some (main st)).

Let allowed (line : string) : Prop :=
  headers = false → Str.HasPrefix line "Sideboard" = false.

Lemma safe_main st : safe st → is_Some (side st) → sbLineFound st = false →
  is_Some (main st).
Proof.
  intros [H1 _] Hs Hsb. destruct headers; [done|]. apply H1; [done|by right].
Qed.

Lemma safe_sbTransition st : safe st → sbLineFound st = false →
  ∃ st', sbTransition st = Ret st' ∧ safe st' ∧ sbLineFound st' = true.
Proof.
  intros Hsafe Hsb. unfold sbTransition.
  destruct (nonEmpty (side st)) eqn:Ene.
  - destruct (side st) as [sideC|] eqn:Es; [|done].
    destruct (safe_main st Hsafe ltac:(by rewrite Es) Hsb) as [mainC Hm].
    rewrite Hm. eexists. split; [done|]. split; [|done].
    unfold safe. simpl. destruct headers; split; eauto.
  - eexists. split; [done|]. split; [|done].
    destruct Hsafe as [H1 H2]. unfold safe. simpl.
    destruct headers; split; eauto.
Qed.

Lemma safe_fileCard st n s k : safe st → safe (fileCard st n s k).
Proof.
  intros [H1 H2]. unfold fileCard, safe, insertOrNew.
  destruct (step st) eqn:Estep; cbn [main side maybe step sbLineFound emptyLineCount].
  - destruct headers; split; eauto.
  - split; [|done]. destruct headers; [done|].
    intros Hsb _. apply H1; [done|by left].
  - split; [|done]. destruct headers; [done|]. exact H1.
Qed.

Lemma safe_tryRegexps regexps : ∀ line st,
  safe st → ∃ st', tryRegexps regexps line st = Ret st' ∧ safe st'.
Proof.
  induction regexps as [|regex rest IH]; intros line st Hsafe; simpl; [eauto|].
  unfold tryRegexp.
  destruct (FindStringSubmatch regex line) as [matches|]; [|by apply IH].
  destruct (IndexOf "Count" (SubexpNames regex) =? -1); [by apply IH|].
  destruct (IndexOf "Name" (SubexpNames regex) =? -1); [by apply IH|].
  set (cond := negb _ && _ && _).
  assert (Hsw : ∃ st1, (if cond then sbTransition st else Ret st) = Ret st1 ∧ safe st1).
  { destruct cond eqn:Econd; [|eauto]. subst cond.
    apply andb_true_iff in Econd as [_ Hsb]. apply negb_true_iff in Hsb.
    destruct (safe_sbTransition st Hsafe Hsb) as (st1 & -> & Hs1 & _). eauto. }
  destruct Hsw as (st1 & -> & Hs1).
  destruct (Atoi _) as [count|]; [|by apply IH].
  eexists. split; [done|]. by apply safe_fileCard.
Qed.

Lemma safe_scanLine line st :
  allowed line → safe st → ∃ st', scanLine line st = Ret st' ∧ safe st'.
Proof.
  intros Hallowed Hsafe. pose proof Hsafe as [H1 H2]. unfold scanLine.
  destruct (Str.len line =? 0).
  { destruct (nonEmpty (main st)) eqn:Ene; [|eauto].
    assert (Hm : is_Some (main st)) by (destruct (main st); [eauto|done]).
    eexists. split; [done|]. unfold safe. simpl. destruct headers; split; eauto. }
  destruct (Str.HasPrefix line "Sideboard") eqn:Ehdr.
  { eexists. split; [done|]. unfold safe, allowed in *. simpl.
    destruct headers; [split; eauto|]. by rewrite Hallowed in Ehdr. }
  destruct (Str.HasPrefix line "Maybeboard").
  { eexists. split; [done|]. unfold safe. simpl.
    destruct headers; [split; eauto|]. split; [|done].
    intros Hsb [?|Hs]; [done|]. apply H1; [done|by right]. }
  destruct (Str.HasPrefix line "//"); [eauto|].
  by apply safe_tryRegexps.
Qed.

Lemma safe_scanLoop lines : ∀ st,
  (∀ line, line ∈ lines → allowed line) → safe st →
  ∃ st', scanLoop lines st = Ret st' ∧ safe st'.
Proof.
  induction lines as [|line rest IH]; intros st Hall Hsafe; simpl; [eauto|].
  destruct (safe_scanLine line st) as (st1 & -> & Hs1); [apply Hall; by left|done|].
  apply IH; [|done]. intros l Hl. apply Hall. by right.
Qed.

Lemma safe_endOfInput st : safe st → ∃ st', endOfInput st = Ret st'.
Proof.
  intros [H1 H2]. unfold endOfInput.
  destruct (side st) as [sideC|]; [|eauto].
  destruct (negb (sbLineFound st) && (1 <? emptyLineCount st)) eqn:E; [|eauto].
  apply andb_true_iff in E as [_ Hcount]. apply Z.ltb_lt in Hcount.
  destruct (H2 ltac:(lia)) as [mainC ->]. eauto.
Qed.

End PanicFree.

(** X8: the parser returns, without a nil dereference in either merge,
    on every input none of whose lines starts with "Sideboard", and on
    every input some first lines of which have put a card in main.  A
    header line before any main card can make it panic: the text
    "Sideboard\n1 Negate\nSB: 1 Duress" does. *)
Theorem parser_returns :
  (∀ lines err,
     (∀ line, line ∈ lines → Str.HasPrefix line "Sideboard" = false) →
     ∃ p, parseLines lines err = Ret p)
  ∧ (∀ first rest st err,
       scanLoop first initialState = Ret st → is_Some (main st) →
       ∃ p, parseLines (first ++ rest) err = Ret p)
  ∧ parseDeckFile
      (text ("Sideboard" +:+ Str.nl +:+ "1 Negate" +:+ Str.nl +:+ "SB: 1 Duress"))
    = Panic nilDeref.
Proof.
  split; [|split].
  - intros lines err Hall. unfold parseLines.
    destruct (safe_scanLoop false lines initialState) as (st & -> & Hsafe).
    + intros line Hl _. by apply Hall.
    + split; simpl; [|done]. intros _ [?|[? ?]]; done.
    + destruct (safe_endOfInput false st Hsafe) as (st' & ->). eauto.
  - intros first rest st err Hfirst Hmain. unfold parseLines.
    rewrite scanLoop_app, Hfirst.
    destruct (safe_scanLoop true rest st) as (st1 & -> & Hsafe).
    + intros line _ ?. done.
    + split; simpl; done.
    + destruct (safe_endOfInput true st1 Hsafe) as (st' & ->). eauto.
  - vm_compute. reflexivity.
Qed.

(** ** Lines that leave no trace *)

Lemma comment_not_header line :
  Str.HasPrefix line "//" = true →
  (Str.len line =? 0) = false
  ∧ Str.HasPrefix line "Sideboard" = false
  ∧ Str.HasPrefix line "Maybeboard" = false.
Proof.
  destruct line as [|c line]; [done|]. cbn [Str.HasPrefix].
  destruct (Ascii.eqb_spec "/" c) as [<-|]; [|done]. intros _.
  split_and!; [|reflexivity|reflexivity].
  apply Z.eqb_neq. unfold Str.len. cbn [String.length]. lia.
Qed.

Lemma tryRegexps_no_match regexps : ∀ line st,
  forallb (λ regex, bool_decide (FindStringSubmatch regex line = None)) regexps = true →
  tryRegexps regexps line st = Ret st.
Proof.
  induction regexps as [|regex rest IH]; intros line st; simpl; [done|].
  intros H. apply andb_true_iff in H as [Hr Hrest].
  apply bool_decide_eq_true in Hr. unfold tryRegexp. rewrite Hr. by apply IH.
Qed.

Lemma passedOver_scanLine line st :
  passedOver line = true → scanLine line st = Ret st.
Proof.
  unfold passedOver. intros H. apply orb_true_iff in H as [Hc|Hn].
  - destruct (comment_not_header line Hc) as (H1 & H2 & H3).
    unfold scanLine. by rewrite H1, H2, H3, Hc.
  - apply andb_true_iff in Hn as [Hcard Hnone]. unfold isCardLine in Hcard.
    repeat (apply andb_true_iff in Hcard as [Hcard ?]).
    unfold scanLine.
    repeat match goal with H : negb _ = true |- _ => apply negb_true_iff in H; rewrite H end.
    by apply tryRegexps_no_match.
Qed.

(** X9: comments (lines starting with "//") and lines that reach the
    grammars without matching any are passed over: removing them from the
    input changes nothing in what the parser returns. *)
Theorem passed_over_lines_removed (lines : list string) (err : option error) :
  parseLines (filter (λ line, passedOver line = false) lines) err
  = parseLines lines err.
Proof.
  unfold parseLines.
  assert (Hloop : ∀ st, scanLoop (filter (λ line, passedOver line = false) lines) st
                        = scanLoop lines st).
  { induction lines as [|line rest IH]; intros st; [done|].
    destruct (passedOver line) eqn:E.
    - rewrite filter_cons_False by (by rewrite E). simpl.
      rewrite (passedOver_scanLine line st E). apply IH.
    - rewrite filter_cons_True by done. simpl.
      destruct (scanLine line st); [apply IH|done]. }
  by rewrite Hloop.
Qed.

(** ** The scanner *)

Lemma splitLF_not_nil s : splitLF s ≠ [].
Proof.
  destruct s as [|c s]; simpl; [done|].
  destruct (Ascii.eqb c Str.LF); [done|]. by destruct (splitLF s).
Qed.

Lemma splitLF_snoc s : splitLF (s +:+ Str.nl) = splitLF s ++ [EmptyString].
Proof.
  induction s as [|c s IH]; simpl; [done|].
  destruct (Ascii.eqb c Str.LF); [by rewrite IH|].
  change (String.append s Str.nl) with (s +:+ Str.nl). rewrite IH.
  pose proof (splitLF_not_nil s). by destruct (splitLF s).
Qed.

Lemma splitLF_last s :
  s ≠ EmptyString → endsWithLF s = false →
  ∃ front lastPiece, splitLF s = front ++ [lastPiece] ∧ lastPiece ≠ EmptyString.
Proof.
  induction s as [|c s IH]; [done|]. intros _ Hends.
  destruct s as [|d s].
  - simpl in *. rewrite Hends. exists [], (String c EmptyString). done.
  - assert (Hs : endsWithLF (String d s) = false) by exact Hends.
    destruct (IH ltac:(done) Hs) as (front & lastPiece & Hsplit & Hne).
    change (splitLF (String c (String d s)))
      with (if Ascii.eqb c Str.LF then EmptyString :: splitLF (String d s)
            else match splitLF (String d s) with
                 | p :: ps => String c p :: ps
                 | [] => [String c EmptyString]
                 end).
    rewrite Hsplit. destruct (Ascii.eqb c Str.LF).
    + exists (EmptyString :: front), lastPiece. done.
    + destruct front as [|p front]; simpl.
      * exists [], (String c lastPiece). done.
      * exists (String c p :: front), lastPiece. done.
Qed.

Lemma scanTokens_final_newline front : ∀ lastPiece,
  lastPiece ≠ EmptyString →
  scanTokens (front ++ [lastPiece] ++ [EmptyString])
  = scanTokens (front ++ [lastPiece]).
Proof.
  induction front as [|p front IH]; intros lastPiece Hne.
  - simpl. destruct (String.eqb_spec lastPiece EmptyString); [done|].
    by destruct (_ <? _)%N.
  - specialize (IH lastPiece Hne).
    change ((p :: front) ++ [lastPiece] ++ [EmptyString])
      with (p :: (front ++ [lastPiece] ++ [EmptyString])).
    change ((p :: front) ++ [lastPiece]) with (p :: (front ++ [lastPiece])).
    destruct (front ++ [lastPiece] ++ [EmptyString]) as [|q1 r1] eqn:E1;
      [by destruct front|].
    destruct (front ++ [lastPiece]) as [|q2 r2] eqn:E2; [by destruct front|].
    simpl. simpl in IH. by rewrite IH.
Qed.

(** X10: a line feed after the last line of a text that does not end
    with one changes nothing: the scanner yields the same lines and the
    parser returns the same zones. *)
Theorem final_newline_is_optional (s : string) (e : option error) :
  s ≠ EmptyString → endsWithLF s = false →
  scan {| content := s +:+ Str.nl; failure := e |} = scan {| content := s; failure := e |}
  ∧ parseDeckFile {| content := s +:+ Str.nl; failure := e |}
    = parseDeckFile {| content := s; failure := e |}.
Proof.
  intros Hne Hends.
  assert (Hscan : scan {| content := s +:+ Str.nl; failure := e |}
                  = scan {| content := s; failure := e |}).
  { unfold scan. simpl. rewrite splitLF_snoc.
    destruct (splitLF_last s Hne Hends) as (front & lastPiece & -> & Hlast).
    rewrite <- app_assoc. by rewrite scanTokens_final_newline. }
  split; [exact Hscan|]. unfold parseDeckFile. by rewrite Hscan.
Qed.

Lemma final_newline_is_optional_witness :
  parseDeckFile (text (Sample.retraction +:+ Str.nl))
  = parseDeckFile (text Sample.retraction).
Proof.
  exact (proj2 (final_newline_is_optional Sample.retraction None
                  ltac:(discriminate) eq_refl)).
Defined.


(** ** Further properties of the resolver *)

Section ResolverMore.

Context {St Ruling : Type}.
Variable buildCardDescription : scryfall.Card → list Ruling → string.
Variable buildCardFacesDescription : list scryfall.CardFace → list Ruling → string.
Variable buildCardFaceDescription : scryfall.CardFace → list Ruling → string.
Variable defaultBackURL : string.
Variable defaultQuality : string.
Variable ValidateNormalize : gmap string string → Options + error.
Variable client : scryfall.Client St Ruling.

Abbreviation fetch := (fetchCard client).
Abbreviation build :=
  (buildCard buildCardDescription buildCardFacesDescription
     buildCardFaceDescription client).
Abbreviation resolveOne :=
  (resolveCard buildCardDescription buildCardFacesDescription
     buildCardFaceDescription client).
Abbreviation resolveAll :=
  (resolveCards buildCardDescription buildCardFacesDescription
     buildCardFaceDescription client).
Abbreviation toDeck :=
  (cardNamesToDeck buildCardDescription buildCardFacesDescription
     buildCardFaceDescription defaultBackURL defaultQuality client).
Abbreviation block :=
  (zoneBlock buildCardDescription buildCardFacesDescription
     buildCardFaceDescription defaultBackURL defaultQuality client).
Abbreviation decks :=
  (decksOf buildCardDescription buildCardFacesDescription
     buildCardFaceDescription defaultBackURL defaultQuality client).
Abbreviation convert :=
  (fromDeckFile buildCardDescription buildCardFacesDescription
     buildCardFaceDescription defaultBackURL defaultQuality
     ValidateNormalize client).


(** *** What a round leaves of the deck *)





Lemma block_names zone cards nm opts ds (w : @World St) ds' w' :
  block zone cards nm opts ds w = (Ret (inl ds'), w') →
  plugins.DeckName <$> ds'
  = (plugins.DeckName <$> ds) ++ (match zone with Some _ => [nm] | None => [] end).
Proof.
  intros H.
  apply block_Ret in H as [(-> & ? & ?)|[([z ->] & d & Hd & ?)|(_ & ? & ? & _ & ?)]];
    simplify_eq.
  - by rewrite app_nil_r.
  - apply toDeck_name in Hd. rewrite fmap_app. simpl. by rewrite Hd.
Qed.

(** X13: when [fromDeckFile] succeeds, the decks it returns are those of
    the zones that the parse holds, in the order main, sideboard,
    maybeboard, named by the file name and the suffixes " - Sideboard"
    and " - Maybeboard": three decks at most, none for an absent zone. *)
Theorem decks_named_by_zone p name opts (w : @World St) ds w' :
  decks p name opts w = (Ret (ds, None), w') →
  plugins.DeckName <$> ds
  = (match pMain p with Some _ => [name] | None => [] end)
    ++ (match pSide p with Some _ => [name +:+ " - Sideboard"] | None => [] end)
    ++ (match pMaybe p with Some _ => [name +:+ " - Maybeboard"] | None => [] end).
Proof.
  unfold decksOf. intros H.
  apply bind_Ret in H as ([ds1|e1] & w1 & Hb1 & H); [|unfold ret in H; by simplify_eq].
  apply bind_Ret in H as ([ds2|e2] & w2 & Hb2 & H); [|unfold ret in H; by simplify_eq].
  apply bind_Ret in H as ([ds3|e3] & w3 & Hb3 & H); unfold ret in H; simplify_eq.
  apply block_names in Hb1, Hb2, Hb3.
  rewrite Hb3, Hb2, Hb1. simpl. by rewrite <- app_assoc.
Qed.

(** *** Failures that end a zone *)

Lemma resolveAll_abort cards opts q cardInfo post deck1 deck2 err w1 w2 :
  resolveOne cards opts q deck1 cardInfo w1 = (Ret (Return deck2 err), w2) →
  ∀ names deck w0,
    resolveAll cards opts q names deck w0 = (Ret (deck1, None), w1) →
    resolveAll cards opts q (names ++ cardInfo :: post) deck w0
    = (Ret (deck2, Some err), w2).
Proof.
  intros Hone. induction names as [|ci rest IH]; intros deck w0 H; simpl in *.
  - unfold ret in H. simplify_eq. by rewrite (bind_step _ _ _ _ _ Hone).
  - apply bind_Ret in H as (r & w3 & Hr & H).
    rewrite (bind_step _ _ _ _ _ Hr).
    destruct r as [deck'|deck' e]; [by apply IH|].
    unfold ret in H. by simplify_eq.
Qed.

Lemma resolveAll_panic cards opts q cardInfo post deck1 msg w1 w2 :
  resolveOne cards opts q deck1 cardInfo w1 = (Panic msg, w2) →
  ∀ names deck w0,
    resolveAll cards opts q names deck w0 = (Ret (deck1, None), w1) →
    resolveAll cards opts q (names ++ cardInfo :: post) deck w0 = (Panic msg, w2).
Proof.
  intros Hone. induction names as [|ci rest IH]; intros deck w0 H; simpl in *.
  - unfold ret in H. simplify_eq. by rewrite (bind_panic _ _ _ _ _ Hone).
  - apply bind_Ret in H as (r & w3 & Hr & H).
    rewrite (bind_step _ _ _ _ _ Hr).
    destruct r as [deck'|deck' e]; [by apply IH|].
    unfold ret in H. by simplify_eq.
Qed.

Lemma main_error_no_deck p c name opts (w : @World St) d err w' :
  pMain p = Some c →
  toDeck (Some c) name opts w = (Ret (d, Some err), w') →
  decks p name opts w = (Ret ([], Some err), w').
Proof.
  intros Hmain Hdeck. unfold decksOf. rewrite Hmain.
  pose proof (block_error _ _ _ _ _ _ c c name opts [] w _ _ _ Hdeck) as Hb.
  by rewrite (bind_step _ _ _ _ _ Hb).
Qed.

(** X14: when the options ask for the rulings and the call for the
    rulings of a card fails, the zone ends there with that error, as for
    a failed lookup: one error record is logged, no further call is made,
    and [fromDeckFile] returns the error and no deck. *)
Theorem rulings_failure_aborts_zone c name opts pre cardInfo post
    (w : @World St) deck1 w1 card s2 err s3 :
  Names c = pre ++ cardInfo :: post →
  wantRulings opts = true →
  resolveAll c opts (default defaultQuality (quality opts)) pre (newDeck defaultBackURL name) w
    = (Ret (deck1, None), w1) →
  scryfall.GetCardByName client (Name cardInfo) false (optsOf cardInfo) (service w1)
    = (inl card, s2) →
  scryfall.GetRulings client (scryfall.ID card) s2 = (inr err, s3) →
  let w3 := {| service := s3;
               logged := logged w1 ++
                 [clientError err "name" (Name cardInfo)
                    [("options", scryfall.OptSet (optsOf cardInfo))]] |} in
  toDeck (Some c) name opts w = (Ret (deck1, Some err), w3)
  ∧ ∀ p, pMain p = Some c → decks p name opts w = (Ret ([], Some err), w3).
Proof.
  intros Hnames Hwant Hpre Hcall Hrul w3.
  assert (Hone : resolveOne c opts (default defaultQuality (quality opts))
                   deck1 cardInfo w1 = (Ret (Return deck1 err), w3)).
  { unfold resolveCard, fetchCard, bind, call, emit, ret.
    rewrite Hcall, Hwant. simpl. by rewrite Hrul. }
  assert (Hdeck : toDeck (Some c) name opts w = (Ret (deck1, Some err), w3)).
  { unfold cardNamesToDeck. rewrite Hnames.
    by apply (resolveAll_abort _ _ _ _ _ _ _ _ _ _ Hone). }
  split; [exact Hdeck|]. intros p Hmain. by eapply main_error_no_deck.
Qed.

(** X15: unless the options ask for the rulings, the resolver never
    calls for them: a service that differs in its rulings only gives the
    same deck, the same log and the same state. *)
Theorem rulings_not_consulted (client' : scryfall.Client St Ruling) cards name opts
    (w : @World St) :
  scryfall.GetCardByName client' = scryfall.GetCardByName client →
  scryfall.GetCard client' = scryfall.GetCard client →
  wantRulings opts = false →
  cardNamesToDeck buildCardDescription buildCardFacesDescription
    buildCardFaceDescription defaultBackURL defaultQuality client' cards name opts w
  = toDeck cards name opts w.
Proof.
  intros Hname Hcard Hwant. unfold cardNamesToDeck.
  destruct cards as [c|]; [|done].
  generalize (newDeck defaultBackURL name). revert w.
  induction (Names c) as [|ci rest IH]; intros w deck; simpl; [done|].
  assert (Hone : ∀ w0,
    resolveCard buildCardDescription buildCardFacesDescription
      buildCardFaceDescription client' c opts
      (default defaultQuality (quality opts)) deck ci w0
    = resolveOne c opts (default defaultQuality (quality opts)) deck ci w0).
  { intros w0. unfold resolveCard, fetchCard, buildCard, meldCard.
    by rewrite Hwant, Hname, Hcard. }
  unfold bind. rewrite Hone.
  destruct (resolveOne _ _ _ _ _ _) as [[[deck'|deck' err]|msg] w1]; [apply IH|done|done].
Qed.

(** X16: a card that is shown as a single face (it has no faces, or its
    layout is flip, split or adventure) and has no image ends the zone
    with the error "no image found for card" and its name; nothing is
    logged and [fromDeckFile] returns no deck. *)
Theorem missing_image_aborts_zone c name opts pre cardInfo post
    (w : @World St) deck1 w1 card rulings w2 :
  Names c = pre ++ cardInfo :: post →
  resolveAll c opts (default defaultQuality (quality opts)) pre (newDeck defaultBackURL name) w
    = (Ret (deck1, None), w1) →
  fetch opts cardInfo w1 = (Ret (inl (card, rulings)), w2) →
  scryfall.Layout card ≠ scryfall.LayoutMeld →
  scryfall.CardFaces card = []
  ∨ scryfall.Layout card ∈ [scryfall.LayoutFlip; scryfall.LayoutSplit;
                            scryfall.LayoutAdventure] →
  scryfall.CardImageURIs card = None →
  let err := "no image found for card " +:+ scryfall.CardName card in
  toDeck (Some c) name opts w = (Ret (deck1, Some err), w2)
  ∧ ∀ p, pMain p = Some c → decks p name opts w = (Ret ([], Some err), w2).
Proof.
  intros Hnames Hpre Hfetch Hmeld Hsingle Himg err.
  assert (Hone : resolveOne c opts (default defaultQuality (quality opts))
                   deck1 cardInfo w1 = (Ret (Return deck1 err), w2)).
  { unfold resolveCard. rewrite (bind_step _ _ _ _ _ Hfetch).
    unfold buildCard.
    destruct (String.eqb_spec (scryfall.Layout card) scryfall.LayoutMeld); [done|].
    assert (Hcond : (Z.of_nat (length (scryfall.CardFaces card)) =? 0)
                    || String.eqb (scryfall.Layout card) scryfall.LayoutFlip
                    || String.eqb (scryfall.Layout card) scryfall.LayoutSplit
                    || String.eqb (scryfall.Layout card) scryfall.LayoutAdventure = true).
    { destruct Hsingle as [->|Hin]; [done|].
      repeat (apply elem_of_cons in Hin as [->|Hin];
              [rewrite String.eqb_refl; by rewrite ?orb_true_r|]).
      by apply elem_of_nil in Hin. }
    rewrite Hcond. unfold singleFaceCard. by rewrite Himg. }
  assert (Hdeck : toDeck (Some c) name opts w = (Ret (deck1, Some err), w2)).
  { unfold cardNamesToDeck. rewrite Hnames.
    by apply (resolveAll_abort _ _ _ _ _ _ _ _ _ _ Hone). }
  split; [exact Hdeck|]. intros p Hmain. by eapply main_error_no_deck.
Qed.

(** X17: a card with one face only whose layout is none of meld, flip,
    split and adventure is taken for a transform card; reading its
    second face is out of range and the resolver panics, whatever the
    cards before and after it. *)
Theorem single_face_transform_panics c name opts pre cardInfo post
    (w : @World St) deck1 w1 card rulings w2 face :
  Names c = pre ++ cardInfo :: post →
  resolveAll c opts (default defaultQuality (quality opts)) pre (newDeck defaultBackURL name) w
    = (Ret (deck1, None), w1) →
  fetch opts cardInfo w1 = (Ret (inl (card, rulings)), w2) →
  scryfall.Layout card ∉ [scryfall.LayoutMeld; scryfall.LayoutFlip;
                          scryfall.LayoutSplit; scryfall.LayoutAdventure] →
  scryfall.CardFaces card = [face] →
  toDeck (Some c) name opts w = (Panic "index out of range", w2).
Proof.
  intros Hnames Hpre Hfetch Hlayout Hfaces.
  assert (Hne : ∀ l, l ∈ [scryfall.LayoutMeld; scryfall.LayoutFlip;
                          scryfall.LayoutSplit; scryfall.LayoutAdventure] →
                     String.eqb (scryfall.Layout card) l = false).
  { intros l Hl. destruct (String.eqb_spec (scryfall.Layout card) l) as [Heq|]; [|done].
    exfalso. apply Hlayout. by rewrite Heq. }
  assert (Hone : resolveOne c opts (default defaultQuality (quality opts))
                   deck1 cardInfo w1 = (Panic "index out of range", w2)).
  { unfold resolveCard. rewrite (bind_step _ _ _ _ _ Hfetch).
    unfold buildCard, transformCard. rewrite Hfaces.
    rewrite !Hne by (repeat first [by left | right]). done. }
  unfold cardNamesToDeck. rewrite Hnames.
  by apply (resolveAll_panic _ _ _ _ _ _ _ _ _ Hone).
Qed.

(** X18: a meld card whose parts hold a meld result is resolved with one
    more call, for the card whose id is the last segment of the URI of
    that part; the card added to the deck has the meld card's name and
    count and, as its alternative state, the oversized meld result. *)
Theorem meld_card_resolved cards opts q deck cardInfo (w : @World St) card rulings
    w1 meldResult s2 uris uris' :
  fetch opts cardInfo w = (Ret (inl (card, rulings)), w1) →
  scryfall.Layout card = scryfall.LayoutMeld →
  findMeldResultURI (scryfall.AllParts card) ≠ EmptyString →
  scryfall.GetCard client
    (lastPart (splitSlash (findMeldResultURI (scryfall.AllParts card))))
    (service w1) = (inl meldResult, s2) →
  scryfall.CardImageURIs card = Some uris →
  scryfall.CardImageURIs meldResult = Some uris' →
  ∃ x alt w2,
    resolveOne cards opts q deck cardInfo w = (Ret (NextCard (addCard deck x)), w2)
    ∧ service w2 = s2
    ∧ plugins.Name x = scryfall.CardName card
    ∧ plugins.Count x = count_of cards (Name cardInfo)
    ∧ plugins.Oversized x = false
    ∧ plugins.AlternativeState x = Some alt
    ∧ plugins.Name alt = scryfall.CardName meldResult
    ∧ plugins.Oversized alt = true
    ∧ plugins.AlternativeState alt = None.
Proof.
  intros Hfetch Hlayout Huri Hget Himg Himg'.
  unfold resolveCard. rewrite (bind_step _ _ _ _ _ Hfetch).
  unfold buildCard. rewrite Hlayout. simpl. unfold meldCard.
  destruct (Z.of_nat (length (scryfall.AllParts card)) =? 0) eqn:Elen.
  { exfalso. apply Z.eqb_eq in Elen.
    destruct (scryfall.AllParts card); [by apply Huri|simpl in Elen; lia]. }
  destruct (Str.len (findMeldResultURI (scryfall.AllParts card)) =? 0) eqn:Euri.
  { exfalso. apply Z.eqb_eq in Euri. unfold Str.len in Euri.
    destruct (findMeldResultURI (scryfall.AllParts card)); [by apply Huri|].
    simpl in Euri. lia. }
  unfold bind at 1. unfold call at 1. rewrite Hget. rewrite Himg, Himg'.
  destruct (getImageURL (Some uris) (scryfall.HighresImage card) q
              {| service := s2; logged := logged w1 |}) as [[url|msg] w2] eqn:E1.
  2:{ exfalso. revert E1. unfold getImageURL, bind, emit, ret, panic.
      repeat case_match; intros; simplify_eq. }
  pose proof (getImageURL_Ret _ _ _ _ _ _ E1) as Hs1.
  unfold bind at 1. rewrite E1.
  destruct (getImageURL (Some uris') (scryfall.HighresImage meldResult) q w2)
    as [[url'|msg] w3] eqn:E2.
  2:{ exfalso. revert E2. unfold getImageURL, bind, emit, ret, panic.
      repeat case_match; intros; simplify_eq. }
  pose proof (getImageURL_Ret _ _ _ _ _ _ E2) as Hs2.
  unfold bind, ret. rewrite E2.
  eexists _, _, w3. split; [reflexivity|]. simpl in *. split_and!; try done.
  congruence.
Qed.

End ResolverMore.

(** ** The further properties of the resolver at the sample services *)



Lemma decks_named_by_zone_witness :
  plugins.DeckName <$>
    [Sample.deckOf "deck" [Sample.resolved "Forest" 1];
     Sample.deckOf "deck - Sideboard" [Sample.resolved "Negate" 2];
     Sample.deckOf "deck - Maybeboard" [Sample.resolved "Negate" 2]]
  = ["deck"; "deck - Sideboard"; "deck - Maybeboard"].
Proof.
  apply (decks_named_by_zone
           Sample.describe Sample.describeFaces Sample.describeFace
           "back" normal Sample.cardService
           {| pMain := Some (Sample.zone [("Forest", 1)]);
              pSide := Some (Sample.zone [("Negate", 2)]);
              pMaybe := Some (Sample.zone [("Island", 3)]);
              pErr := None |}
           "deck" Sample.noOptions Sample.start _ (Sample.after 3 [])).
  vm_compute. reflexivity.
Defined.

Lemma rulings_failure_aborts_zone_witness :
  Cases.resolve (Some (Sample.zone [("Forest", 1); ("Island", 2)])) "deck"
    Cases.withRulings Sample.start
  = (Ret (Sample.deckOf "deck" [], Some "rulings unavailable"),
     Sample.after 2
       [clientError "rulings unavailable" "name" "Forest" [("options", "")]]).
Proof.
  exact (proj1 (rulings_failure_aborts_zone
                  Sample.describe Sample.describeFaces Sample.describeFace
                  "back" normal Cases.oddService
                  (Sample.zone [("Forest", 1); ("Island", 2)]) "deck"
                  Cases.withRulings [] (Sample.card "Forest") [Sample.card "Island"]
                  Sample.start (Sample.deckOf "deck" []) Sample.start
                  (Sample.plain "Forest") 1%nat "rulings unavailable" 2%nat
                  eq_refl eq_refl eq_refl eq_refl eq_refl)).
Defined.

Lemma rulings_not_consulted_witness :
  Cases.resolve (Some (Sample.zone [("Forest", 1); ("Gisela", 1)])) "deck"
    Sample.noOptions Sample.start
  = cardNamesToDeck Sample.describe Sample.describeFaces Sample.describeFace
      "back" normal Cases.calmService
      (Some (Sample.zone [("Forest", 1); ("Gisela", 1)])) "deck"
      Sample.noOptions Sample.start.
Proof.
  exact (rulings_not_consulted
           Sample.describe Sample.describeFaces Sample.describeFace
           "back" normal Cases.calmService Cases.oddService
           (Some (Sample.zone [("Forest", 1); ("Gisela", 1)])) "deck"
           Sample.noOptions Sample.start eq_refl eq_refl eq_refl).
Defined.

Lemma missing_image_aborts_zone_witness :
  Cases.resolve (Some (Sample.zone [("Forest", 1); ("Blank", 1); ("Island", 2)]))
    "deck" Sample.noOptions Sample.start
  = (Ret (Sample.deckOf "deck" [Sample.resolved "Forest" 1],
          Some "no image found for card Blank"),
     Sample.after 2 []).
Proof.
  exact (proj1 (missing_image_aborts_zone
                  Sample.describe Sample.describeFaces Sample.describeFace
                  "back" normal Cases.oddService
                  (Sample.zone [("Forest", 1); ("Blank", 1); ("Island", 2)]) "deck"
                  Sample.noOptions [Sample.card "Forest"] (Sample.card "Blank")
                  [Sample.card "Island"] Sample.start
                  (Sample.deckOf "deck" [Sample.resolved "Forest" 1])
                  (Sample.after 1 []) Cases.blank [] (Sample.after 2 [])
                  eq_refl eq_refl eq_refl ltac:(discriminate) (or_introl eq_refl)
                  eq_refl)).
Defined.

Lemma single_face_transform_panics_witness :
  Cases.resolve (Some (Sample.zone [("Forest", 1); ("Lonely", 1); ("Island", 2)]))
    "deck" Sample.noOptions Sample.start
  = (Panic "index out of range", Sample.after 2 []).
Proof.
  apply (single_face_transform_panics
           Sample.describe Sample.describeFaces Sample.describeFace
           "back" normal Cases.oddService
           (Sample.zone [("Forest", 1); ("Lonely", 1); ("Island", 2)]) "deck"
           Sample.noOptions [Sample.card "Forest"] (Sample.card "Lonely")
           [Sample.card "Island"] Sample.start
           (Sample.deckOf "deck" [Sample.resolved "Forest" 1])
           (Sample.after 1 []) Cases.lonely [] (Sample.after 2 [])
           {| scryfall.FaceName := "Front";
              scryfall.FaceImageURIs := Sample.uris "Front" |}
           eq_refl eq_refl eq_refl).
  - intros H. repeat (apply elem_of_cons in H as [H|H]; [discriminate|]).
    by apply elem_of_nil in H.
  - reflexivity.
Defined.

Lemma meld_card_resolved_witness :
  ∃ x alt w2,
    resolveCard Sample.describe Sample.describeFaces Sample.describeFace
      Cases.oddService (Sample.zone [("Gisela", 1)]) Sample.noOptions normal
      (Sample.deckOf "deck" []) (Sample.card "Gisela") Sample.start
    = (Ret (NextCard (addCard (Sample.deckOf "deck" []) x)), w2)
    ∧ service w2 = 2%nat
    ∧ plugins.Name x = "Gisela"
    ∧ plugins.Count x = 1
    ∧ plugins.Oversized x = false
    ∧ plugins.AlternativeState x = Some alt
    ∧ plugins.Name alt = "Brisela"
    ∧ plugins.Oversized alt = true
    ∧ plugins.AlternativeState alt = None.
Proof.
  apply (meld_card_resolved
           Sample.describe Sample.describeFaces Sample.describeFace
           Cases.oddService (Sample.zone [("Gisela", 1)]) Sample.noOptions normal
           (Sample.deckOf "deck" []) (Sample.card "Gisela") Sample.start
           Cases.gisela [] (Sample.after 1 []) (Sample.plain "Brisela") 2%nat
           (Sample.uris "Gisela") (Sample.uris "Brisela")
           eq_refl eq_refl ltac:(discriminate) eq_refl eq_refl eq_refl).
Defined.

(** ** Strings *)

Lemma append_cons c s t : String c s +:+ t = String c (s +:+ t).
Proof. reflexivity. Qed.

Lemma append_nil_l t : EmptyString +:+ t = t.
Proof. reflexivity. Qed.

Lemma append_nil_r s : s +:+ EmptyString = s.
Proof. induction s as [|c s IH]; [done|]. by rewrite append_cons, IH. Qed.

Lemma append_assoc a b c : (a +:+ b) +:+ c = a +:+ (b +:+ c).
Proof. induction a as [|x a IH]; [done|]. by rewrite !append_cons, IH. Qed.

Lemma length_append a b :
  String.length (a +:+ b) = (String.length a + String.length b)%nat.
Proof.
  induction a as [|x a IH]; [done|]. rewrite append_cons. cbn [String.length].
  by rewrite IH.
Qed.

Lemma take_append a b : Str.take (String.length a) (a +:+ b) = a.
Proof.
  unfold Str.take. induction a as [|x a IH].
  - rewrite append_nil_l. by destruct b.
  - rewrite append_cons. cbn [String.length String.substring]. by rewrite IH.
Qed.

Lemma take_all a : Str.take (String.length a) a = a.
Proof. rewrite <- (append_nil_r a) at 2. apply take_append. Qed.

Lemma allChars_append p a b :
  allChars p (a +:+ b) = allChars p a && allChars p b.
Proof.
  induction a as [|x a IH]; [done|]. rewrite append_cons. cbn [allChars].
  by rewrite IH, andb_assoc.
Qed.

Lemma allChars_impl (p q : ascii → bool) s :
  (∀ c, p c = true → q c = true) → allChars p s = true → allChars q s = true.
Proof.
  intros Hpq. induction s as [|c s IH]; [done|]. cbn [allChars].
  intros H. apply andb_true_iff in H as [Hc Hs]. by rewrite (Hpq c Hc), IH.
Qed.

(** ** Matching a run of bytes of a class *)

Lemma iterate_S body k fuel s pos cs :
  iterate body k (S fuel) s pos cs
  = match body s pos cs
            (λ s' pos' cs', if (pos <? pos')%nat then iterate body k fuel s' pos' cs'
                            else None) with
    | Some res => Some res
    | None => k s pos cs
    end.
Proof. reflexivity. Qed.

Lemma m_class_cons neg ranges c s pos cs k :
  m (Class neg ranges) (String c s) pos cs k
  = if in_class neg ranges c then k s (S pos) cs else None.
Proof. reflexivity. Qed.

Lemma m_class_nil neg ranges pos cs k :
  m (Class neg ranges) EmptyString pos cs k = None.
Proof. reflexivity. Qed.

Lemma iterate_class_run neg ranges k : ∀ run rest pos cs fuel res,
  allChars (in_class neg ranges) run = true →
  match rest with
  | String d _ => in_class neg ranges d = false
  | EmptyString => True
  end →
  (String.length run ≤ fuel)%nat →
  k rest (pos + String.length run)%nat cs = Some res →
  iterate (m (Class neg ranges)) k fuel (run +:+ rest) pos cs = Some res.
Proof.
  induction run as [|c run IH]; intros rest pos cs fuel res Hrun Hrest Hfuel Hk.
  - cbn [String.length] in Hk. rewrite Nat.add_0_r in Hk. rewrite append_nil_l.
    destruct fuel as [|fuel]; [done|]. rewrite iterate_S.
    destruct rest as [|d rest]; [by rewrite m_class_nil|].
    by rewrite m_class_cons, Hrest.
  - cbn [allChars] in Hrun. apply andb_true_iff in Hrun as [Hc Hrun].
    cbn [String.length] in Hfuel, Hk.
    destruct fuel as [|fuel]; [lia|].
    rewrite append_cons, iterate_S, m_class_cons, Hc.
    assert (Hlt : (pos <? S pos)%nat = true) by (apply Nat.ltb_lt; lia).
    rewrite Hlt.
    rewrite (IH rest (S pos) cs fuel res); [done|done|done|lia|].
    by replace (S pos + String.length run)%nat
         with (pos + S (String.length run))%nat by lia.
Qed.

Lemma m_star_run neg ranges k run rest pos cs res :
  allChars (in_class neg ranges) run = true →
  match rest with
  | String d _ => in_class neg ranges d = false
  | EmptyString => True
  end →
  k rest (pos + String.length run)%nat cs = Some res →
  m (Star (Class neg ranges)) (run +:+ rest) pos cs k = Some res.
Proof.
  intros Hrun Hrest Hk. cbn [m].
  apply iterate_class_run; [done|done| |done]. rewrite length_append. lia.
Qed.

Lemma m_plus_run neg ranges k c run rest pos cs res :
  in_class neg ranges c = true →
  allChars (in_class neg ranges) run = true →
  match rest with
  | String d _ => in_class neg ranges d = false
  | EmptyString => True
  end →
  k rest (pos + S (String.length run))%nat cs = Some res →
  m (Plus (Class neg ranges)) (String c (run +:+ rest)) pos cs k = Some res.
Proof.
  intros Hc Hrun Hrest Hk. cbn [m]. rewrite Hc.
  apply iterate_class_run; [done|done| |].
  - rewrite length_append. lia.
  - by replace (S pos + String.length run)%nat
      with (pos + S (String.length run))%nat by lia.
Qed.

Lemma search_first r fuel s pos cs :
  m (Cap 0 (re r)) s pos (replicate (S (NumSubexp r)) None) (λ _ _ cs, Some cs) = Some cs →
  search r fuel s pos = Some cs.
Proof. intros H. destruct fuel; cbn [search]; by rewrite H. Qed.

(** Facts on single bytes, by cases on the byte. *)
Lemma digit_not_S d : isDigit d = true → Ascii.eqb "S" d = false.
Proof. destruct d as [[] [] [] [] [] [] [] []]; vm_compute; congruence. Qed.

Lemma digit_not_space d : isDigit d = true → isSpace d = false.
Proof. destruct d as [[] [] [] [] [] [] [] []]; vm_compute; congruence. Qed.

Lemma plain_not_hash c : plainChar c = true → in_class true [(35, 35)]%N c = true.
Proof. destruct c as [[] [] [] [] [] [] [] []]; vm_compute; congruence. Qed.

Lemma m_cat r1 r2 s pos cs k :
  m (Cat r1 r2) s pos cs k = m r1 s pos cs (λ s' pos' cs', m r2 s' pos' cs' k).
Proof. reflexivity. Qed.

Lemma m_cap i r s pos cs k :
  m (Cap i r) s pos cs k
  = m r s pos cs (λ s' pos' cs', k s' pos' (set_cap i (Str.take (pos' - pos) s) cs')).
Proof. reflexivity. Qed.

Lemma m_begin s cs k : m BeginText s 0 cs k = k s 0%nat cs.
Proof. reflexivity. Qed.

Lemma m_end pos cs k : m EndText EmptyString pos cs k = k EmptyString pos cs.
Proof. reflexivity. Qed.

Lemma m_eps s pos cs k : m Eps s pos cs k = k s pos cs.
Proof. reflexivity. Qed.

Lemma m_quest_skip r s pos cs k :
  m r s pos cs k = None → m (Quest r) s pos cs k = k s pos cs.
Proof. intros H. cbn [m]. by rewrite H. Qed.

Lemma lit_absent x d s pos cs k :
  Ascii.eqb x d = false → m (Lit x) (String d s) pos cs k = None.
Proof. intros H. cbn [m]. by rewrite H. Qed.

Lemma comment_absent pos cs k :
  m (Cap 4 (Cat (Plus space) (Cat (Lit "#") (Cat (Cap 5 (Star dot)) Eps))))
    EmptyString pos cs k = None.
Proof. reflexivity. Qed.

Lemma sb_absent d s pos cs k :
  Ascii.eqb "S" d = false → m (Cap 1 (lits "SB:")) (String d s) pos cs k = None.
Proof.
  intros H. rewrite m_cap. unfold lits, seq.
  cbn [list_ascii_of_string map fold_right]. rewrite m_cat.
  cbn [m]. by rewrite H.
Qed.

(** The generic grammar on a line "digits name". *)
Lemma standard_attempt d ds c name :
  isDigit d = true → allChars isDigit ds = true →
  isSpace c = false → allChars plainChar (String c name) = true →
  m (Cap 0 (re standardRegexp)) (String d ds +:+ " " +:+ String c name) 0
    (replicate 6 None) (λ _ _ cs, Some cs)
  = Some [Some (String d ds +:+ " " +:+ String c name); None; Some (String d ds);
          Some (String c name); None; None].
Proof.
  intros Hd Hds Hc Hname.
  set (line := String d ds +:+ " " +:+ String c name).
  unfold standardRegexp, seq. cbn [re fold_right].
  rewrite m_cap, m_cat, m_begin.
  (* (SB:)? *)
  rewrite m_cat. unfold line at 1. rewrite append_cons.
  rewrite (m_quest_skip _ _ _ _ _ (sb_absent d _ 0 _ _ (digit_not_S d Hd))).
  (* \s* *)
  rewrite m_cat.
  change (String d (ds +:+ " " +:+ String c name))
    with (EmptyString +:+ String d (ds +:+ " " +:+ String c name)) at 1.
  apply m_star_run; [reflexivity|exact (digit_not_space d Hd)|].
  (* (\d+) *)
  rewrite m_cat, m_cap.
  apply m_plus_run; [exact Hd|exact Hds|reflexivity|].
  replace (0 + String.length EmptyString + S (String.length ds)
           - (0 + String.length EmptyString))%nat
    with (String.length (String d ds)) by (cbn [String.length]; lia).
  rewrite <- append_cons, take_append.
  (* x? *)
  change (" " +:+ String c name) with (String " " (String c name)).
  rewrite m_cat, (m_quest_skip _ _ _ _ _ (lit_absent "x" " " _ _ _ _ eq_refl)).
  (* \s+ *)
  rewrite m_cat.
  change (String " " (String c name))
    with (String " " (EmptyString +:+ String c name)) at 1.
  apply m_plus_run; [reflexivity|reflexivity|exact Hc|].
  (* ([^#]+) *)
  rewrite m_cat, m_cap.
  cbn [allChars] in Hname. apply andb_true_iff in Hname as [Hc' Hname'].
  rewrite <- (append_nil_r name) at 1.
  apply m_plus_run;
    [exact (plain_not_hash c Hc')
    |exact (allChars_impl _ _ _ plain_not_hash Hname')|exact I|].
  match goal with
  | |- context [Str.take (?a - ?b) (String c name)] =>
      replace (a - b)%nat with (String.length (String c name))
        by (cbn [String.length]; lia)
  end.
  rewrite take_all.
  (* the comment, absent, and the end of the text *)
  rewrite m_cat, (m_quest_skip _ _ _ _ _ (comment_absent _ _ _)).
  rewrite m_cat, m_end, m_eps.
  match goal with
  | |- context [Str.take (?a - 0) line] =>
      replace (a - 0)%nat with (String.length line)
        by (unfold line; rewrite !length_append; cbn [String.length]; lia)
  end.
  by rewrite take_all.
Qed.

(** ** Lines that a grammar cannot read *)

Lemma lacks_tail c d s : lacks c (String d s) = true → lacks c s = true.
Proof. unfold lacks. cbn [allChars]. intros H. by apply andb_true_iff in H as [_ H]. Qed.

Lemma iterate_starved c body k :
  (∀ k', starved c k' → starved c (λ s pos cs, body s pos cs k')) →
  starved c k → ∀ fuel, starved c (iterate body k fuel).
Proof.
  intros Hbody Hk. induction fuel as [|fuel IH]; intros s pos cs Hs.
  - by apply Hk.
  - rewrite iterate_S. rewrite Hbody; [by apply Hk| |done].
    intros s' pos' cs' Hs'. case_match; [by apply IH|done].
Qed.

Lemma m_starved c r : ∀ k, starved c k → starved c (λ s pos cs, m r s pos cs k).
Proof.
  induction r as [x|neg ranges|r1 IH1 r2 IH2|r IH|r IH|r IH|i r IH| | |];
    intros k Hk s pos cs Hs; cbn [m].
  - destruct s as [|d s]; [done|]. case_match; [|done].
    apply Hk. by eapply lacks_tail.
  - destruct s as [|d s]; [done|]. case_match; [|done].
    apply Hk. by eapply lacks_tail.
  - apply (IH1 _ (IH2 k Hk)); done.
  - exact (iterate_starved c (m r) k IH Hk _ s pos cs Hs).
  - apply (IH (λ s1 pos1 cs1, iterate (m r) k (String.length s1) s1 pos1 cs1));
      [|done].
    intros s1 pos1 cs1 Hs1.
    exact (iterate_starved c (m r) k IH Hk _ s1 pos1 cs1 Hs1).
  - rewrite (IH k Hk s pos cs Hs). by apply Hk.
  - apply (IH (λ s' pos' cs', k s' pos' (set_cap i (Str.take (pos' - pos) s) cs')));
      [|done].
    intros s' pos' cs' Hs'. by apply Hk.
  - case_match; [by apply Hk|done].
  - destruct s; [by apply Hk|done].
  - by apply Hk.
Qed.

Lemma lit_starved c k : starved c (λ s pos cs, m (Lit c) s pos cs k).
Proof.
  intros s pos cs Hs. cbn [m]. destruct s as [|d s]; [done|].
  unfold lacks in Hs. cbn [allChars] in Hs.
  apply andb_true_iff in Hs as [Hd _]. apply negb_true_iff in Hd. by rewrite Hd.
Qed.

(** A sequence with the literal [c] among its parts reads no input
    without [c]. *)
Lemma seq_starved c l k :
  Lit c ∈ l → starved c (λ s pos cs, m (seq l) s pos cs k).
Proof.
  induction l as [|r l IH]; intros Hin.
  - by apply elem_of_nil in Hin.
  - apply elem_of_cons in Hin as [<-|Hin].
    + intros s pos cs Hs. unfold seq. cbn [fold_right]. rewrite m_cat.
      by apply lit_starved.
    + intros s pos cs Hs. unfold seq. cbn [fold_right]. rewrite m_cat.
      by apply (m_starved c r _ (IH Hin)).
Qed.

Lemma search_starved c r l :
  re r = seq l → Lit c ∈ l →
  ∀ fuel s pos, lacks c s = true → search r fuel s pos = None.
Proof.
  intros Hre Hin. induction fuel as [|fuel IH]; intros s pos Hs; cbn [search].
  - rewrite m_cap, Hre. rewrite (seq_starved c l _ Hin s pos _ Hs).
    by destruct s.
  - rewrite m_cap, Hre. rewrite (seq_starved c l _ Hin s pos _ Hs).
    destruct s as [|d s]; [done|]. apply IH. by eapply lacks_tail.
Qed.

Lemma arena_needs_paren line :
  lacks "(" line = true → FindStringSubmatch arenaRegexp line = None.
Proof.
  intros H. unfold FindStringSubmatch.
  rewrite (search_starved "(" arenaRegexp _ eq_refl); [done| |done].
  set_solver.
Qed.

Lemma workstation_needs_bracket line :
  lacks "[" line = true → FindStringSubmatch workstationRegexp line = None.
Proof.
  intros H. unfold FindStringSubmatch.
  rewrite (search_starved "[" workstationRegexp _ eq_refl); [done| |done].
  set_solver.
Qed.

(** ** A line "count name" *)

Lemma digit_differs d x : isDigit d = true → isDigit x = false → Ascii.eqb x d = false.
Proof. intros Hd Hx. destruct (Ascii.eqb_spec x d); [congruence|done]. Qed.

Lemma digit_lacks c d : isDigit c = false → isDigit d = true → negb (Ascii.eqb c d) = true.
Proof. intros Hc Hd. by rewrite (digit_differs d c Hd Hc). Qed.

Lemma plain_lacks_paren c : plainChar c = true → negb (Ascii.eqb "(" c) = true.
Proof. destruct c as [[] [] [] [] [] [] [] []]; vm_compute; congruence. Qed.

Lemma plain_lacks_bracket c : plainChar c = true → negb (Ascii.eqb "[" c) = true.
Proof. destruct c as [[] [] [] [] [] [] [] []]; vm_compute; congruence. Qed.

Lemma card_line_lacks x digits name :
  isDigit x = false → Ascii.eqb x " " = false →
  (∀ c, plainChar c = true → negb (Ascii.eqb x c) = true) →
  allChars isDigit digits = true → allChars plainChar name = true →
  lacks x (digits +:+ " " +:+ name) = true.
Proof.
  intros Hx Hsp Hplain Hd Hn. unfold lacks.
  rewrite !allChars_append. cbn [allChars]. rewrite Hsp.
  rewrite (allChars_impl _ _ _ (λ d, digit_lacks x d Hx) Hd).
  by rewrite (allChars_impl _ _ _ Hplain Hn).
Qed.

Lemma standard_reads d ds c name :
  isDigit d = true → allChars isDigit ds = true →
  isSpace c = false → allChars plainChar (String c name) = true →
  FindStringSubmatch standardRegexp (String d ds +:+ " " +:+ String c name)
  = Some [String d ds +:+ " " +:+ String c name; EmptyString; String d ds;
          String c name; EmptyString; EmptyString].
Proof.
  intros Hd Hds Hc Hname. unfold FindStringSubmatch.
  by rewrite (search_first _ _ _ _ _ (standard_attempt d ds c name Hd Hds Hc Hname)).
Qed.

Lemma card_line_read d ds c name st :
  isDigit d = true → allChars isDigit ds = true →
  isSpace c = false → allChars plainChar (String c name) = true →
  parseDeckLine (String d ds +:+ " " +:+ String c name) st
  = Ret (match Atoi (String d ds) with
         | Some count => fileCard st (nameOf (String c name)) None count
         | None => st
         end).
Proof.
  intros Hd Hds Hc Hname.
  assert (Hdigits : allChars isDigit (String d ds) = true)
    by (cbn [allChars]; by rewrite Hd, Hds).
  unfold parseDeckLine, cardLineRegexps. cbn [tryRegexps].
  unfold tryRegexp at 1.
  rewrite arena_needs_paren
    by (apply card_line_lacks; [done|done|exact plain_lacks_paren|done|done]).
  unfold tryRegexp at 1.
  rewrite workstation_needs_bracket
    by (apply card_line_lacks; [done|done|exact plain_lacks_bracket|done|done]).
  unfold tryRegexp. rewrite (standard_reads d ds c name Hd Hds Hc Hname).
  change (SubexpNames standardRegexp)
    with [EmptyString; "Sideboard"; "Count"; "Name"; EmptyString; "Comment"].
  change (IndexOf "Count" _) with 2.
  change (IndexOf "Name" _) with 3.
  change (IndexOf "Sideboard" _) with 1.
  unfold setOf.
  change (IndexOf "Set" _) with (-1).
  change (at_index _ 1) with EmptyString.
  change (at_index _ 2) with (String d ds).
  change (at_index _ 3) with (String c name).
  change (0 <? Str.len EmptyString) with false.
  cbn [negb andb Z.eqb].
  by destruct (Atoi (String d ds)).
Qed.

(** X19 (parseDeckLine, the grammars): a line made of decimal digits, one
    space and a name that does not start with white space and holds no
    line feed, carriage return, "#", "(" or "[" is read by the generic
    grammar alone: the card is filed under the current zone with no set
    and the count read by strconv.Atoi, and when the digits exceed the
    range of an int the line changes nothing. *)
Theorem count_name_line_filed d ds c name st :
  isDigit d = true → allChars isDigit ds = true →
  isSpace c = false → allChars plainChar (String c name) = true →
  parseDeckLine (String d ds +:+ " " +:+ String c name) st
  = Ret (match Atoi (String d ds) with
         | Some count => fileCard st (nameOf (String c name)) None count
         | None => st
         end).
Proof. exact (card_line_read d ds c name st). Qed.

(** ** [strconv.Itoa] and [strconv.Atoi] *)

Lemma digitChar_digit k : isDigit (digitChar k) = true.
Proof.
  unfold digitChar.
  destruct k as [|p|p]; [reflexivity| |reflexivity].
  do 4 (destruct p as [p|p|]; try reflexivity).
Qed.

Lemma digitChar_val k : 0 ≤ k < 10 → digit_val (digitChar k) = Some k.
Proof.
  intros Hk.
  assert (k = 0 ∨ k = 1 ∨ k = 2 ∨ k = 3 ∨ k = 4 ∨ k = 5 ∨ k = 6 ∨ k = 7
          ∨ k = 8 ∨ k = 9) as Hcases by lia.
  repeat (destruct Hcases as [->|Hcases]; [reflexivity|]). by subst.
Qed.

Lemma digitsOf_shape fuel : ∀ n acc,
  allChars isDigit acc = true →
  ∃ d ds, digitsOf (S fuel) n acc = String d ds
          ∧ isDigit d = true ∧ allChars isDigit ds = true.
Proof.
  induction fuel as [|fuel IH]; intros n acc Hacc.
  - cbn [digitsOf]. exists (digitChar (n mod 10)), acc.
    split; [by destruct (n <? 10)|]. split; [apply digitChar_digit|done].
  - change (digitsOf (S (S fuel)) n acc)
      with (if n <? 10 then String (digitChar (n mod 10)) acc
            else digitsOf (S fuel) (n / 10) (String (digitChar (n mod 10)) acc)).
    destruct (n <? 10).
    + exists (digitChar (n mod 10)), acc. split; [done|].
      split; [apply digitChar_digit|done].
    + apply IH. cbn [allChars]. by rewrite digitChar_digit.
Qed.

Lemma digitsOf_val fuel : ∀ n acc,
  0 ≤ n < 10 ^ Z.of_nat fuel →
  digits_val 0 (digitsOf fuel n acc) = digits_val n acc.
Proof.
  induction fuel as [|fuel IH]; intros n acc Hn.
  - cbn [digitsOf]. f_equal. change (10 ^ Z.of_nat 0) with 1 in Hn. lia.
  - cbn [digitsOf].
    assert (Hmod : 0 ≤ n mod 10 < 10) by (apply Z.mod_pos_bound; lia).
    destruct (Z.ltb_spec n 10) as [Hlt|Hge].
    + cbn [digits_val]. rewrite (digitChar_val _ Hmod).
      rewrite Z.mod_small by lia. f_equal.
    + rewrite IH.
      * cbn [digits_val]. rewrite (digitChar_val _ Hmod). f_equal.
        pose proof (Z.div_mod n 10 ltac:(lia)). lia.
      * rewrite Nat2Z.inj_succ, Z.pow_succ_r in Hn by lia.
        split; [apply Z.div_pos; lia|]. apply Z.div_lt_upper_bound; lia.
Qed.

(** [Atoi] on a string that starts with a digit reads no sign. *)
Lemma Atoi_unsigned d ds :
  isDigit d = true →
  Atoi (String d ds)
  = match digits_val 0 (String d ds) with
    | Some v => if (min_int <=? v) && (v <=? max_int) then Some v else None
    | None => None
    end.
Proof.
  intros Hd.
  destruct d as [[] [] [] [] [] [] [] []];
    try (vm_compute in Hd; discriminate Hd); reflexivity.
Qed.

Lemma Itoa_shape n :
  0 ≤ n → ∃ d ds, Itoa n = String d ds ∧ isDigit d = true ∧ allChars isDigit ds = true.
Proof.
  intros Hn. unfold Itoa. destruct (Z.ltb_spec n 0); [lia|].
  by apply digitsOf_shape.
Qed.

(** What [Itoa] prints for a count that is not negative, [Atoi] reads
    back. *)
Lemma Atoi_Itoa n : 0 ≤ n ≤ max_int → Atoi (Itoa n) = Some n.
Proof.
  intros Hn. destruct (Itoa_shape n) as (d & ds & HI & Hd & Hds); [lia|].
  rewrite HI, (Atoi_unsigned d ds Hd), <- HI.
  unfold Itoa. destruct (Z.ltb_spec n 0); [lia|].
  rewrite digitsOf_val by (unfold max_int in Hn; change (Z.of_nat 20) with 20; lia).
  cbn [digits_val].
  destruct (Z.leb_spec min_int n); [|unfold min_int in *; lia].
  destruct (Z.leb_spec n max_int); [done|lia].
Qed.

(** ** Texts made of lines *)

Lemma splitLF_line line rest :
  lacks Str.LF line = true →
  splitLF (line +:+ Str.nl +:+ rest) = line :: splitLF rest.
Proof.
  induction line as [|c line IH]; intros Hl.
  - reflexivity.
  - rewrite append_cons. cbn [splitLF].
    unfold lacks in Hl. cbn [allChars] in Hl.
    apply andb_true_iff in Hl as [Hc Hl]. apply negb_true_iff in Hc.
    rewrite Ascii.eqb_sym, Hc. by rewrite (IH Hl).
Qed.

Lemma scan_linesText lines :
  forallb scannable lines = true →
  scanTokens (splitLF (linesText lines)) = (lines, None).
Proof.
  induction lines as [|line lines IH]; intros Hall; [reflexivity|].
  cbn [forallb] in Hall. apply andb_true_iff in Hall as [Hline Hall].
  unfold scannable in Hline.
  apply andb_true_iff in Hline as [Hline Hcr].
  apply andb_true_iff in Hline as [Hlf Hlen].
  apply negb_true_iff in Hcr.
  cbn [linesText foldr]. rewrite (splitLF_line _ _ Hlf).
  pose proof (splitLF_not_nil (linesText lines)) as Hne.
  specialize (IH Hall). unfold linesText in IH, Hne.
  destruct (splitLF _) as [|p ps]; [done|].
  change (scanTokens (line :: p :: ps))
    with (if (N.of_nat (String.length line) <? MaxScanTokenSize)%N
          then let '(ls, e) := scanTokens (p :: ps) in (dropCR line :: ls, e)
          else ([], Some ErrTooLong)).
  rewrite Hlen, IH. unfold dropCR. by rewrite Hcr.
Qed.

Lemma linesText_app a b : linesText (a ++ b) = linesText a +:+ linesText b.
Proof.
  induction a as [|line a IH]; [done|].
  cbn [app linesText foldr]. unfold linesText in IH. rewrite IH.
  by rewrite !append_assoc.
Qed.

Lemma lacks_CR_suffix s :
  lacks Str.CR s = true → Str.HasSuffix s (String Str.CR EmptyString) = false.
Proof.
  intros Hs. unfold Str.HasSuffix. cbn [String.length].
  destruct (Nat.leb_spec 1 (String.length s)) as [Hlen|]; [|done].
  induction s as [|c s IH]; [cbn [String.length] in Hlen; lia|].
  unfold lacks in Hs. cbn [allChars] in Hs.
  apply andb_true_iff in Hs as [Hc Hs]. apply negb_true_iff in Hc.
  destruct s as [|e s].
  - cbn [String.length Nat.sub String.substring String.eqb].
    rewrite Ascii.eqb_sym. by rewrite Hc.
  - specialize (IH Hs ltac:(cbn [String.length]; lia)).
    cbn [String.length] in *.
    replace (S (S (String.length s)) - 1)%nat with (S (String.length s)) by lia.
    replace (S (String.length s) - 1)%nat with (String.length s) in IH by lia.
    cbn [String.substring]. destruct (String.length s); exact IH.
Qed.

Lemma plain_lacks_LF c : plainChar c = true → negb (Ascii.eqb Str.LF c) = true.
Proof. destruct c as [[] [] [] [] [] [] [] []]; vm_compute; congruence. Qed.

Lemma plain_lacks_CR c : plainChar c = true → negb (Ascii.eqb Str.CR c) = true.
Proof. destruct c as [[] [] [] [] [] [] [] []]; vm_compute; congruence. Qed.

Lemma plainName_inv name :
  plainName name = true →
  ∃ c rest, name = String c rest ∧ isSpace c = false
            ∧ allChars plainChar (String c rest) = true.
Proof.
  destruct name as [|c rest]; [done|]. unfold plainName.
  intros H. apply andb_true_iff in H as [Hc Hall]. apply negb_true_iff in Hc.
  by exists c, rest.
Qed.

(** The line of a good card goes through the scanner unchanged. *)
Lemma goodCard_scannable card :
  goodCard card = true → scannable (cardLine card.1 card.2) = true.
Proof.
  unfold goodCard. intros H.
  apply andb_true_iff in H as [H Hlen]. apply andb_true_iff in H as [H Hname].
  apply andb_true_iff in H as [H0 Hmax].
  apply Z.leb_le in H0. apply Z.leb_le in Hmax.
  destruct (Itoa_shape card.1 H0) as (d & ds & HI & Hd & Hds).
  destruct (plainName_inv _ Hname) as (c & rest & Hn & Hc & Hall).
  assert (Hdigits : allChars isDigit (Itoa card.1) = true)
    by (rewrite HI; cbn [allChars]; by rewrite Hd, Hds).
  assert (Hplain : allChars plainChar card.2 = true) by (by rewrite Hn).
  unfold scannable. rewrite Hlen. unfold cardLine.
  rewrite (card_line_lacks Str.LF _ _ eq_refl eq_refl plain_lacks_LF Hdigits Hplain).
  by rewrite (lacks_CR_suffix _
       (card_line_lacks Str.CR _ _ eq_refl eq_refl plain_lacks_CR Hdigits Hplain)).
Qed.

(** The loop body on the line of a good card. *)
Lemma scanLine_card card st :
  goodCard card = true →
  scanLine (cardLine card.1 card.2) st
  = Ret (fileCard st (nameOf card.2) None card.1).
Proof.
  unfold goodCard. intros H.
  apply andb_true_iff in H as [H Hlen]. apply andb_true_iff in H as [H Hname].
  apply andb_true_iff in H as [H0 Hmax].
  apply Z.leb_le in H0. apply Z.leb_le in Hmax.
  destruct (Itoa_shape card.1 H0) as (d & ds & HI & Hd & Hds).
  destruct (plainName_inv _ Hname) as (c & rest & Hn & Hc & Hall).
  pose proof (Atoi_Itoa card.1 (conj H0 Hmax)) as Hback.
  unfold cardLine. rewrite HI in *. rewrite Hn. clear HI Hn Hlen Hname.
  unfold scanLine. rewrite append_cons.
  replace (Str.len _ =? 0) with false
    by (symmetry; apply Z.eqb_neq; unfold Str.len; cbn [String.length]; lia).
  cbn [Str.HasPrefix].
  rewrite !(digit_differs d) by done.
  rewrite <- append_cons.
  rewrite (card_line_read d ds c rest st Hd Hds Hc Hall).
  by rewrite Hback.
Qed.

(** ** Texts made of card lines *)

Lemma fileEntries_cons st e es :
  fileEntries (fileCard st e.1.1 e.1.2 e.2) es = fileEntries st (e :: es).
Proof. unfold fileEntries, fileCard. by destruct (step st). Qed.

Lemma fileEntries_nil st : fileEntries st [] = st.
Proof. unfold fileEntries. by destruct st as [? ? ? [] ? ?]. Qed.

Lemma scanLoop_entries lines es :
  Forall2 files lines es → ∀ st, scanLoop lines st = Ret (fileEntries st es).
Proof.
  induction 1 as [|line e lines es [_ Hline] _ IH]; intros st.
  - by rewrite fileEntries_nil.
  - cbn [scanLoop]. rewrite (Hline st), IH. by rewrite fileEntries_cons.
Qed.

Lemma files_scannable lines es :
  Forall2 files lines es → forallb scannable lines = true.
Proof.
  induction 1 as [|line e lines es [Hscan _] _ IH]; [done|].
  cbn [forallb]. by rewrite Hscan, IH.
Qed.

Lemma forallb_app_true {A} (p : A → bool) l1 l2 :
  forallb p l1 = true → forallb p l2 = true → forallb p (l1 ++ l2) = true.
Proof. intros H1 H2. by rewrite forallb_app, H1, H2. Qed.

Lemma header_scannable present title :
  scannable title = true → forallb scannable (header present title) = true.
Proof. intros H. destruct present; cbn [header forallb]; [by rewrite H|done]. Qed.

(** The loop over the lines of a deck in three zones. *)
Lemma scanLoop_zoned hs hm la ea lb eb lc ec :
  Forall2 files la ea → Forall2 files lb eb → Forall2 files lc ec →
  (hs = false → lb = []) → (hm = false → lc = []) →
  ∃ st, scanLoop (zoned hs hm la lb lc) initialState = Ret st
        ∧ main st = addEntries None ea ∧ side st = addEntries None eb
        ∧ maybe st = addEntries None ec
        ∧ sbLineFound st = false ∧ emptyLineCount st = 0.
Proof.
  intros Ha Hb Hc Hhs Hhm. unfold zoned.
  rewrite scanLoop_app, (scanLoop_entries la ea Ha).
  rewrite scanLoop_app.
  destruct hs.
  - cbn [header scanLoop].
    change (scanLine "Sideboard" (fileEntries initialState ea))
      with (Ret {| main := addEntries None ea; side := None; maybe := None;
                   step := Sideboard; sbLineFound := false;
                   emptyLineCount := 0 |}).
    cbv beta iota.
    rewrite scanLoop_app, (scanLoop_entries lb eb Hb).
    rewrite scanLoop_app.
    destruct hm.
    + cbn [header scanLoop].
      match goal with
      | |- context [scanLine "Maybeboard" ?st] =>
          change (scanLine "Maybeboard" st)
            with (Ret {| main := addEntries None ea; side := addEntries None eb;
                         maybe := None; step := Maybeboard; sbLineFound := false;
                         emptyLineCount := 0 |})
      end.
      cbv beta iota.
      rewrite (scanLoop_entries lc ec Hc). eexists. split; [done|]. done.
    + specialize (Hhm eq_refl). subst lc. inversion Hc; subst.
      cbn [header scanLoop app]. eexists. split; [done|]. done.
  - specialize (Hhs eq_refl). subst lb. inversion Hb; subst.
    cbn [header scanLoop app]. rewrite scanLoop_app.
    destruct hm.
    + cbn [header scanLoop].
      change (scanLine "Maybeboard" (fileEntries initialState ea))
        with (Ret {| main := addEntries None ea; side := None; maybe := None;
                     step := Maybeboard; sbLineFound := false;
                     emptyLineCount := 0 |}).
      cbv beta iota.
      rewrite (scanLoop_entries lc ec Hc). eexists. split; [done|]. done.
    + specialize (Hhm eq_refl). subst lc. inversion Hc; subst.
      cbn [header scanLoop app]. eexists. split; [done|]. done.
Qed.

(** The parse of the text of a deck in three zones. *)
Lemma parse_zoned_entries hs hm la ea lb eb lc ec :
  Forall2 files la ea → Forall2 files lb eb → Forall2 files lc ec →
  (hs = false → lb = []) → (hm = false → lc = []) →
  parseDeckFile (text (linesText (zoned hs hm la lb lc)))
  = Ret {| pMain := addEntries None ea; pSide := addEntries None eb;
           pMaybe := addEntries None ec; pErr := None |}.
Proof.
  intros Ha Hb Hc Hhs Hhm.
  destruct (scanLoop_zoned hs hm la ea lb eb lc ec Ha Hb Hc Hhs Hhm)
    as (st & Hloop & Hm & Hs & Hmb & Hsb & Hempty).
  unfold parseDeckFile, scan, text. cbn [content failure].
  rewrite scan_linesText.
  - unfold parseLines. rewrite Hloop.
    destruct st as [stMain stSide stMaybe stStep stSb stEmpty].
    cbn [main side maybe sbLineFound emptyLineCount] in *. subst.
    unfold endOfInput. cbn [main side maybe sbLineFound emptyLineCount].
    by destruct (addEntries None eb).
  - unfold zoned.
    repeat apply forallb_app_true;
      try (by eapply files_scannable); by apply header_scannable.
Qed.

(** The lines "count name". *)
Lemma addTo_entries cards : ∀ z, addTo z cards = addEntries z (entries cards).
Proof.
  induction cards as [|card cards IH]; intros z; [done|].
  cbn [addTo addEntries foldl entries map]. apply IH.
Qed.

Lemma cardLines_files cards :
  forallb goodCard cards = true → Forall2 files (cardLines cards) (entries cards).
Proof.
  induction cards as [|card cards IH]; [constructor|].
  cbn [forallb]. intros H. apply andb_true_iff in H as [Hcard Hall].
  constructor; [|by apply IH].
  split; [by apply goodCard_scannable|].
  intros st. exact (scanLine_card card st Hcard).
Qed.

Lemma parse_zoned hs hm a b c :
  forallb goodCard a = true → forallb goodCard b = true →
  forallb goodCard c = true →
  (hs = false → b = []) → (hm = false → c = []) →
  parseDeckFile (text (linesText (zonedLines hs hm a b c)))
  = Ret {| pMain := zoneOf a; pSide := zoneOf b; pMaybe := zoneOf c;
           pErr := None |}.
Proof.
  intros Ha Hb Hc Hhs Hhm. unfold zonedLines, zoneOf.
  rewrite !addTo_entries.
  apply parse_zoned_entries; try (by apply cardLines_files).
  - intros H. by rewrite (Hhs H).
  - intros H. by rewrite (Hhm H).
Qed.

(** ** Printing a collection and parsing it again *)

Lemma String_lines c : CardNames_String c = linesText (cardLines (listed c)).
Proof.
  unfold CardNames_String, listed.
  induction (Names c) as [|ci l IH]; [done|].
  cbn [foldr map cardLines linesText]. unfold cardLine at 1.
  rewrite !append_assoc. do 4 f_equal. exact IH.
Qed.

Lemma addTo_Some cards : ∀ x,
  addTo (Some x) cards = Some (insertAll x (entries cards)).
Proof.
  induction cards as [|card cards IH]; intros x; [done|].
  cbn [addTo foldl entries map insertAll]. unfold insertOrNew at 1.
  cbn [default]. apply IH.
Qed.

Lemma zoneOf_cons card cards :
  zoneOf (card :: cards) = Some (insertAll NewCardNames (entries (card :: cards))).
Proof.
  change (zoneOf (card :: cards))
    with (addTo (Some (InsertCount NewCardNames (nameOf card.2) None card.1)) cards).
  by rewrite addTo_Some.
Qed.

Lemma insertAll_fresh l : ∀ c,
  NoDup (l.*1.*1) → (∀ n, n ∈ l.*1.*1 → Counts c !! n = None) →
  insertAll c l
  = {| Names := Names c ++ map (λ e, {| Name := e.1.1; Set_ := e.1.2 |}) l;
       Counts := list_to_map (map (λ e, (e.1.1, e.2)) l) ∪ Counts c |}.
Proof.
  induction l as [|[[n s] k] l IH]; intros c Hnd Hfresh.
  - cbn [insertAll foldl map]. rewrite list_to_map_nil, app_nil_r, (left_id_L ∅ (∪)).
    by destruct c.
  - cbn [fmap list_fmap fst] in Hnd, Hfresh.
    apply NoDup_cons in Hnd as [Hn Hnd].
    cbn [insertAll foldl]. fold (insertAll (InsertCount c n s k) l).
    assert (Hc : InsertCount c n s k
                 = {| Names := Names c ++ [{| Name := n; Set_ := s |}];
                      Counts := <[n := k]> (Counts c) |}).
    { unfold InsertCount. by rewrite (Hfresh n (list_elem_of_here _ _)). }
    rewrite Hc, IH; [|done|].
    + cbn [Names Counts map fst snd]. rewrite list_to_map_cons. f_equal.
      * by rewrite <- app_assoc.
      * rewrite <- insert_union_l. symmetry. apply insert_union_r.
        apply not_elem_of_list_to_map_1.
        rewrite <- list_fmap_compose. intros Hin. apply Hn.
        by rewrite <- list_fmap_compose.
    + intros m Hm. cbn [Counts]. rewrite lookup_insert_ne.
      * apply Hfresh. by apply list_elem_of_further.
      * intros ->. done.
Qed.

Lemma listed_entries c :
  (∀ ci, ci ∈ Names c → Set_ ci = None ∧ nameOf (Name ci) = Name ci) →
  entries (listed c) = map (λ ci, (Name ci, None, count_of c (Name ci))) (Names c).
Proof.
  intros Hclean. unfold entries, listed. rewrite map_map.
  apply map_ext_in. intros ci Hin. apply list_elem_of_In in Hin.
  cbn [fst snd]. by rewrite (proj2 (Hclean ci Hin)).
Qed.

Lemma listed_Counts c :
  keyed c → distinctNames c →
  list_to_map (map (λ ci, (Name ci, count_of c (Name ci))) (Names c)) = Counts c.
Proof.
  intros Hk Hd. apply map_eq. intros n.
  assert (Hfst : (map (λ ci, (Name ci, count_of c (Name ci))) (Names c)).*1
                 = Name <$> Names c).
  { rewrite <- list_fmap_compose. done. }
  destruct (Counts c !! n) as [z|] eqn:E.
  - apply elem_of_list_to_map_1; [by rewrite Hfst|].
    assert (Hin : n ∈ Name <$> Names c) by (apply Hk; eauto).
    apply list_elem_of_fmap in Hin as (ci & -> & Hci).
    apply list_elem_of_fmap. exists ci. split; [|done].
    unfold count_of. by rewrite E.
  - apply not_elem_of_list_to_map_1. rewrite Hfst. intros Hin.
    apply Hk in Hin as [z Hz]. congruence.
Qed.

(** X20 (CardNames.String, parseDeckFile): the text that String prints
    for a collection is read back by the file parser as one main zone
    holding the listed cards in order, with no error, when every count is
    in the range 0 .. 2^63-1, every name is plain and every line fits the
    scanner's buffer.  The sets are not printed, so they are lost; when the
    collection carries no set, lists each name once, has a count for
    exactly the names it lists and names that the parser keeps as they
    are, the parse gives the collection back. *)
Theorem string_then_parse (c : CardNames) :
  forallb goodCard (listed c) = true →
  parseDeckFile (text (CardNames_String c))
  = Ret {| pMain := zoneOf (listed c); pSide := None; pMaybe := None;
           pErr := None |}
  ∧ (Names c ≠ [] → keyed c → distinctNames c →
     (∀ ci, ci ∈ Names c → Set_ ci = None ∧ nameOf (Name ci) = Name ci) →
     zoneOf (listed c) = Some c).
Proof.
  intros Hgood. split.
  - rewrite String_lines.
    pose proof (parse_zoned false false (listed c) [] [] Hgood eq_refl eq_refl
                  (λ _, eq_refl) (λ _, eq_refl)) as H.
    unfold zonedLines, zoned, header in H.
    change (cardLines []) with (@nil string) in H.
    cbn [app] in H. by rewrite app_nil_r in H.
  - intros Hne Hk Hd Hclean.
    assert (Hz : zoneOf (listed c)
                 = Some (insertAll NewCardNames (entries (listed c)))).
    { unfold listed. destruct (Names c) as [|ci l]; [done|]. apply zoneOf_cons. }
    rewrite Hz, (listed_entries c Hclean). f_equal.
    assert (Hnames : (map (λ ci, (Name ci, None (A:=string), count_of c (Name ci)))
                        (Names c)).*1.*1 = Name <$> Names c).
    { rewrite <- !list_fmap_compose. done. }
    rewrite insertAll_fresh.
    + cbn [NewCardNames Names Counts app]. rewrite (right_id_L ∅ (∪)).
      rewrite !map_map. cbn [fst snd].
      rewrite (listed_Counts c Hk Hd).
      destruct c as [names counts]. cbn [Names Counts] in *. f_equal.
      rewrite <- (map_id names) at 2. apply map_ext_in.
      intros [n s] Hin. apply list_elem_of_In in Hin.
      destruct (Hclean _ Hin) as [Hs _]. cbn [Name Set_] in *. by subst.
    + by rewrite Hnames.
    + intros n _. apply lookup_empty.
Qed.

(** ** The text of a ManaStack deck *)

Lemma printCards_lines cards :
  manastack.printCards cards = linesText (cardLines (ones cards)).
Proof.
  induction cards as [|card cards IH]; [done|].
  unfold manastack.printCards in *.
  cbn [foldr ones map cardLines linesText fst snd]. rewrite IH.
  unfold cardLine at 1. change (Itoa 1) with "1".
  by rewrite !append_assoc.
Qed.

Lemma sortCards_filter cards : ∀ s,
  foldl manastack.sortCard s cards
  = {| manastack.commanders :=
         manastack.commanders s ++ manastack.names manastack.isCommander cards;
       manastack.main :=
         manastack.main s ++ manastack.names manastack.isMain cards;
       manastack.sideboard :=
         manastack.sideboard s ++ manastack.names manastack.isSide cards;
       manastack.maybeboard :=
         manastack.maybeboard s ++ manastack.names manastack.isMaybe cards |}.
Proof.
  induction cards as [|card cards IH]; intros s.
  - cbn [foldl]. unfold manastack.names. cbn [List.filter map].
    rewrite !app_nil_r. by destruct s.
  - cbn [foldl]. rewrite IH. unfold manastack.names, manastack.sortCard.
    cbn [List.filter].
    unfold manastack.isCommander, manastack.isMain, manastack.isSide,
      manastack.isMaybe.
    destruct (manastack.Commander card), (manastack.Sideboard card),
      (manastack.Maybeboard card);
      cbn [negb andb map manastack.commanders manastack.main
             manastack.sideboard manastack.maybeboard];
      by rewrite <- ?app_assoc.
Qed.

Lemma ones_good {A} (nameOfCard : A → string) (p : A → bool) cards :
  forallb (λ card, goodCard (1, nameOfCard card)) cards = true →
  forallb goodCard (ones (map nameOfCard (List.filter p cards))) = true.
Proof.
  induction cards as [|card cards IH]; [done|].
  cbn [forallb]. intros Hall. apply andb_true_iff in Hall as [Hcard Hall].
  cbn [List.filter]. destruct (p card); [|by apply IH].
  cbn [map ones forallb]. rewrite Hcard. by apply IH.
Qed.

Lemma no_header {A} (l : list A) : (0 <? Z.of_nat (length l)) = false → l = [].
Proof. destruct l; [done|]. cbn [length]. intros H. apply Z.ltb_ge in H. lia. Qed.

Lemma manastack_lines data :
  manastack.deckText data
  = linesText
      (zonedLines
         (0 <? Z.of_nat (length (manastack.names manastack.isSide (manastack.Cards data))))
         (0 <? Z.of_nat (length (manastack.names manastack.isMaybe (manastack.Cards data))))
         (ones (manastack.names manastack.isCommander (manastack.Cards data)
                ++ manastack.names manastack.isMain (manastack.Cards data)))
         (ones (manastack.names manastack.isSide (manastack.Cards data)))
         (ones (manastack.names manastack.isMaybe (manastack.Cards data)))).
Proof.
  unfold manastack.deckText, manastack.sortCards. rewrite sortCards_filter.
  cbn [manastack.commanders manastack.main manastack.sideboard
         manastack.maybeboard app].
  unfold zonedLines, zoned. rewrite !linesText_app, !printCards_lines.
  unfold ones. rewrite map_app. unfold cardLines. rewrite map_app.
  rewrite linesText_app, !append_assoc.
  do 2 f_equal.
  destruct (0 <? _); destruct (0 <? _); reflexivity.
Qed.

Lemma manastack_parse data :
  forallb (λ card, goodCard (1, manastack.Name (manastack.Card card)))
    (manastack.Cards data) = true →
  parseDeckFile (text (manastack.deckText data))
  = Ret {| pMain := zoneOf (ones (manastack.names manastack.isCommander
                                    (manastack.Cards data)
                                  ++ manastack.names manastack.isMain
                                       (manastack.Cards data)));
           pSide := zoneOf (ones (manastack.names manastack.isSide
                                    (manastack.Cards data)));
           pMaybe := zoneOf (ones (manastack.names manastack.isMaybe
                                     (manastack.Cards data)));
           pErr := None |}.
Proof.
  intros Hgood. rewrite manastack_lines. apply parse_zoned.
  - unfold ones. rewrite map_app, forallb_app.
    unfold manastack.names.
    by rewrite !(ones_good (λ card, manastack.Name (manastack.Card card)) _ _ Hgood).
  - by apply (ones_good (λ card, manastack.Name (manastack.Card card))).
  - by apply (ones_good (λ card, manastack.Name (manastack.Card card))).
  - intros H. by rewrite (no_header _ H).
  - intros H. by rewrite (no_header _ H).
Qed.

(** X21 (handleManaStackLink, parseDeckFile): the text that the ManaStack
    adapter writes for a deck whose card names are plain is parsed into
    the three zones of the flags of the cards, each name counted once per
    occurrence: the commanders followed by the cards with no flag make the
    main zone, the cards with the sideboard flag (and no commander flag)
    the sideboard, the cards with only the maybeboard flag the
    maybeboard; a zone without cards is nil. *)
Theorem manastack_text_parses (data : manastack.manaStackDeck) :
  forallb (λ card, goodCard (1, manastack.Name (manastack.Card card)))
    (manastack.Cards data) = true →
  parseDeckFile (text (manastack.deckText data))
  = Ret {| pMain := zoneOf (ones (manastack.names manastack.isCommander
                                    (manastack.Cards data)
                                  ++ manastack.names manastack.isMain
                                       (manastack.Cards data)));
           pSide := zoneOf (ones (manastack.names manastack.isSide
                                    (manastack.Cards data)));
           pMaybe := zoneOf (ones (manastack.names manastack.isMaybe
                                     (manastack.Cards data)));
           pErr := None |}.
Proof. exact (manastack_parse data). Qed.

(** ** The text of a Frogtown deck *)

Lemma frogtown_printCards data cards :
  frogtown.printCards data cards
  = linesText (cardLines (ones (frogtown.namesOf data cards))).
Proof.
  induction cards as [|card cards IH]; [done|].
  unfold frogtown.printCards, frogtown.namesOf in *. cbn [foldr omap list_omap].
  rewrite IH.
  destruct (frogtown.IDToNameSubset data !! card) as [name|]; [|done].
  cbn [ones map cardLines linesText foldr fst snd].
  unfold cardLine at 1. change (Itoa 1) with "1".
  by rewrite !append_assoc.
Qed.

Lemma namesOf_app data a b :
  frogtown.namesOf data (a ++ b) = frogtown.namesOf data a ++ frogtown.namesOf data b.
Proof. unfold frogtown.namesOf. apply omap_app. Qed.

(** X22 (handleFrogtownLink, parseDeckFile): the text that the Frogtown
    adapter writes is parsed into a main zone and a sideboard that hold,
    once per occurrence, the names that IDToNameSubset gives for the ids
    of Mainboard and of Sideboard; an id that is no key of the table is
    left out, a slice none of whose ids is known gives no zone, and there
    is never a maybeboard. *)
Theorem frogtown_text_parses (data : frogtown.frogtownDeckDetails) :
  forallb goodCard
    (ones (frogtown.namesOf data (frogtown.Mainboard data ++ frogtown.Sideboard data)))
  = true →
  parseDeckFile (text (frogtown.deckText data))
  = Ret {| pMain := zoneOf (ones (frogtown.namesOf data (frogtown.Mainboard data)));
           pSide := zoneOf (ones (frogtown.namesOf data (frogtown.Sideboard data)));
           pMaybe := None; pErr := None |}.
Proof.
  rewrite namesOf_app. unfold ones at 1. rewrite map_app, forallb_app.
  intros Hgood. apply andb_true_iff in Hgood as [Hmain Hside].
  assert (Htext : frogtown.deckText data
                  = linesText
                      (zonedLines (0 <? Z.of_nat (length (frogtown.Sideboard data))) false
                         (ones (frogtown.namesOf data (frogtown.Mainboard data)))
                         (ones (frogtown.namesOf data (frogtown.Sideboard data))) [])).
  { unfold frogtown.deckText, zonedLines, zoned.
    rewrite !linesText_app, !frogtown_printCards.
    change (linesText (header false "Maybeboard")) with EmptyString.
    change (linesText (cardLines [])) with EmptyString.
    rewrite !append_nil_r. do 2 f_equal. by destruct (0 <? _). }
  rewrite Htext. apply parse_zoned; try done.
  intros H. by rewrite (no_header _ H).
Qed.

(** ** The adapters and the resolver *)

Section ResolverSites.

Context {St Ruling : Type}.
Variable buildCardDescription : scryfall.Card → list Ruling → string.
Variable buildCardFacesDescription : list scryfall.CardFace → list Ruling → string.
Variable buildCardFaceDescription : scryfall.CardFace → list Ruling → string.
Variable defaultBackURL : string.
Variable defaultQuality : string.
Variable ValidateNormalize : gmap string string → Options + error.
Variable client : scryfall.Client St Ruling.

(** X23 (handleManaStackLink, fromDeckFile): a ManaStack deck with a card
    in the maybeboard and none in the sideboard makes the conversion
    panic: the text of the adapter parses to a maybeboard and no
    sideboard, and once the main zone is through without error the
    third block of [fromDeckFile] hands the nil sideboard to
    [cardNamesToDeck]. *)
Theorem manastack_maybeboard_panics (data : manastack.manaStackDeck) name options opts
    (w : @World St) ds1 w1 :
  forallb (λ card, goodCard (1, manastack.Name (manastack.Card card)))
    (manastack.Cards data) = true →
  manastack.names manastack.isSide (manastack.Cards data) = [] →
  manastack.names manastack.isMaybe (manastack.Cards data) ≠ [] →
  ValidateNormalize options = inl opts →
  (let mainZone :=
     zoneOf (ones (manastack.names manastack.isCommander (manastack.Cards data)
                   ++ manastack.names manastack.isMain (manastack.Cards data))) in
   zoneBlock buildCardDescription buildCardFacesDescription
     buildCardFaceDescription defaultBackURL defaultQuality client
     mainZone mainZone name opts [] w = (Ret (inl ds1), w1)) →
  fromDeckFile buildCardDescription buildCardFacesDescription
    buildCardFaceDescription defaultBackURL defaultQuality
    ValidateNormalize client (text (manastack.deckText data)) name options w
  = (Panic nilDeref, w1).
Proof.
  intros Hgood Hside Hmaybe Hopts Hmain. cbv zeta in Hmain.
  unfold fromDeckFile. rewrite Hopts, (manastack_parse data Hgood).
  cbn [pErr]. unfold decksOf. cbn [pMain pSide pMaybe].
  rewrite (bind_step _ _ _ _ _ Hmain). rewrite Hside.
  destruct (manastack.names manastack.isMaybe (manastack.Cards data))
    as [|n l]; [done|].
  change (ones (n :: l)) with ((1, n) :: ones l). rewrite zoneOf_cons.
  change (zoneOf (ones [])) with (@None CardNames).
  unfold zoneBlock at 1. unfold ret at 1. unfold bind at 1.
  unfold zoneBlock, cardNamesToDeck, panic, bind. done.
Qed.

End ResolverSites.

(** ** Lines without brackets *)

(** X24 (parseDeckLine, cardLineRegexps): the Arena grammar needs a "("
    and the Workstation grammar a "[": a line with neither is left to the
    generic grammar, whatever else it holds. *)
Theorem bracketless_line_generic_grammar (line : string) (st : LineState) :
  lacks "(" line = true → lacks "[" line = true →
  FindStringSubmatch arenaRegexp line = None
  ∧ FindStringSubmatch workstationRegexp line = None
  ∧ parseDeckLine line st = tryRegexps [standardRegexp] line st.
Proof.
  intros Hparen Hbracket.
  pose proof (arena_needs_paren line Hparen) as Ha.
  pose proof (workstation_needs_bracket line Hbracket) as Hw.
  split; [done|]. split; [done|].
  unfold parseDeckLine, cardLineRegexps.
  change (tryRegexps [arenaRegexp; workstationRegexp; standardRegexp] line st)
    with (match tryRegexp arenaRegexp line st with
          | Continue st' =>
              match tryRegexp workstationRegexp line st' with
              | Continue st'' => tryRegexps [standardRegexp] line st''
              | Break st'' => Ret st''
              | Crash msg => Panic msg
              end
          | Break st' => Ret st'
          | Crash msg => Panic msg
          end).
  unfold tryRegexp at 1. rewrite Ha. unfold tryRegexp at 1. by rewrite Hw.
Qed.

(** ** The options of the command line *)

Lemma splitEq_length s : length (cli.splitEq s) = S (cli.countEq s).
Proof.
  induction s as [|c s IH]; [done|]. cbn [cli.splitEq cli.countEq].
  destruct (Ascii.eqb c "="); cbn [length]; [by rewrite IH|].
  destruct (cli.splitEq s); cbn [length] in *; [done|lia].
Qed.

Lemma splitEq_plain s : lacks "=" s = true → cli.splitEq s = [s].
Proof.
  induction s as [|c s IH]; [done|]. unfold lacks. cbn [allChars cli.splitEq].
  intros H. apply andb_true_iff in H as [Hc Hs]. apply negb_true_iff in Hc.
  rewrite Ascii.eqb_sym, Hc. by rewrite (IH Hs).
Qed.

Lemma splitEq_pair k v :
  lacks "=" k = true → lacks "=" v = true → cli.splitEq (k +:+ "=" +:+ v) = [k; v].
Proof.
  intros Hk Hv. induction k as [|c k IH].
  - rewrite append_nil_l, append_cons, append_nil_l. cbn [cli.splitEq].
    change (Ascii.eqb "=" "=") with true. cbv iota. by rewrite (splitEq_plain v Hv).
  - rewrite append_cons. cbn [cli.splitEq].
    unfold lacks in Hk. cbn [allChars] in Hk.
    apply andb_true_iff in Hk as [Hc Hk]. apply negb_true_iff in Hc.
    rewrite Ascii.eqb_sym, Hc. by rewrite (IH Hk).
Qed.

(** X25 (options.Set): the call succeeds exactly when the value holds
    one "=": the map then gets what stands after the "=" under what stands
    before it, replacing an earlier entry of that key; with no "=" or with
    several the map is left as it was and the error names the value. *)
Theorem option_set_needs_one_equals (o : gmap string string) (value : string) :
  ((cli.Set_ o value).2 = None ↔ cli.countEq value = 1%nat)
  ∧ (cli.countEq value ≠ 1%nat →
     cli.Set_ o value = (o, Some ("invalid option value: " +:+ value)))
  ∧ (∀ k v, lacks "=" k = true → lacks "=" v = true →
            cli.Set_ o (k +:+ "=" +:+ v) = (<[k := v]> o, None)).
Proof.
  pose proof (splitEq_length value) as Hlen.
  split_and!.
  - unfold cli.Set_.
    destruct (cli.splitEq value) as [|a [|b [|c l]]]; cbn [length snd] in *;
      split; intros H; try done; lia.
  - intros Hne. unfold cli.Set_.
    destruct (cli.splitEq value) as [|a [|b [|c l]]]; cbn [length] in *;
      try done; lia.
  - intros k v Hk Hv. unfold cli.Set_. by rewrite (splitEq_pair k v Hk Hv).
Qed.

(** ** The text of an HTML deck *)

(** Induction on a tree with the property at hand for every child. *)
Lemma Node_induction (P : html.Node → Prop) :
  (∀ t data kids, Forall P kids → P (html.mkNode t data kids)) → ∀ n, P n.
Proof.
  intros H. fix IH 1. intros [t data kids]. apply H.
  induction kids as [|kid kids IHkids]; constructor; [apply IH|exact IHkids].
Qed.

(** X26 (handleHTMLLink, the closure output): comments, what hangs below
    a text node and what hangs below a line break never reach the text
    handed to the parser: the tree without them gives the same text. *)
Theorem output_ignores_comments (n : html.Node) :
  html.output (html.prune n) = html.output n.
Proof.
  induction n as [t data kids IH] using Node_induction.
  assert (Hkids :
    (fix each (l : list html.Node) : string :=
       match l with
       | [] => EmptyString
       | child :: rest => html.output child +:+ each rest
       end)
      ((fix each (l : list html.Node) : list html.Node :=
          match l with
          | [] => []
          | child :: rest =>
              match html.Type_ child with
              | html.CommentNode => each rest
              | _ => html.prune child :: each rest
              end
          end) kids)
    = (fix each (l : list html.Node) : string :=
         match l with
         | [] => EmptyString
         | child :: rest => html.output child +:+ each rest
         end) kids).
  { induction IH as [|kid kids Hkid _ IHkids]; [done|].
    destruct kid as [kt kdata kkids] eqn:Ekid.
    destruct kt; cbn [html.Type_]; rewrite <- ?Ekid in *;
      try (by rewrite Hkid, IHkids).
    rewrite IHkids. subst kid. by cbn [html.output]. }
  destruct t; cbn [html.prune html.output]; try done.
  destruct (String.eqb data "br") eqn:Ebr.
  - cbn [html.output]. by rewrite Ebr.
  - cbn [html.output]. rewrite Ebr. by rewrite Hkids.
Qed.

(** X27 (handleHTMLLink, the closure output): a body made of text nodes,
    each followed by a line break, gives one line for each text node,
    without the white space around it. *)
Theorem output_of_broken_lines (lines : list string) :
  html.output
    (html.mkNode html.ElementNode "body"
       (flat_map (λ line, [html.text line; html.br]) lines))
  = linesText (map Str.TrimSpace lines).
Proof.
  cbn [html.output]. change (String.eqb "body" "br") with false.
  change (String.eqb "body" "p") with false. cbv iota.
  unfold linesText.
  induction lines as [|line lines IH]; [done|].
  cbn [flat_map app map foldr]. rewrite <- IH.
  change (html.output (html.text line)) with (Str.TrimSpace line).
  change (html.output html.br) with Str.nl.
  done.
Qed.

(** ** The properties of the texts at sample inputs *)

Lemma zone_keyed l : keyed (Sample.zone l).
Proof.
  intros n. unfold Sample.zone. cbn [Names Counts].
  rewrite <- list_fmap_compose.
  rewrite (list_fmap_ext (Name ∘ Sample.card) id l.*1 (λ _ _ _, eq_refl)).
  rewrite list_fmap_id.
  destruct (list_to_map l !! n) as [k|] eqn:E.
  - split; [eauto|]. intros _. apply elem_of_list_to_map_2 in E.
    apply list_elem_of_fmap. by exists (n, k).
  - split; [|by intros [? ?]]. intros Hin.
    by apply not_elem_of_list_to_map_2 in E.
Qed.

Lemma count_name_line_filed_witness :
  parseDeckLine "12 Llanowar Elves" initialState
  = Ret (fileCard initialState "Llanowar Elves" None 12)
  ∧ parseDeckLine "99999999999999999999 Forest" initialState = Ret initialState.
Proof.
  split.
  - exact (count_name_line_filed "1" "2" "L" "lanowar Elves" initialState
             eq_refl eq_refl eq_refl eq_refl).
  - exact (count_name_line_filed "9" "9999999999999999999" "F" "orest" initialState
             eq_refl eq_refl eq_refl eq_refl).
Defined.

Lemma string_then_parse_witness :
  parseDeckFile (text (CardNames_String (Sample.zone [("Forest", 4); ("Island", 2)])))
  = Ret {| pMain := Some (Sample.zone [("Forest", 4); ("Island", 2)]);
           pSide := None; pMaybe := None; pErr := None |}.
Proof.
  destruct (string_then_parse (Sample.zone [("Forest", 4); ("Island", 2)]) eq_refl)
    as [Hparse Hback].
  rewrite Hparse, Hback; [done|done|apply zone_keyed| |].
  - unfold distinctNames. cbn. apply NoDup_cons. split; [|apply NoDup_singleton].
    by intros Hin%list_elem_of_singleton.
  - intros ci Hin. cbn in Hin.
    apply elem_of_cons in Hin as [->|Hin]; [done|].
    apply list_elem_of_singleton in Hin as ->. done.
Defined.

Lemma manastack_text_parses_witness :
  parseDeckFile (text (manastack.deckText Decks.stack))
  = Ret {| pMain := Some (Sample.zone [("Atraxa", 1); ("Forest", 2)]);
           pSide := Some (Sample.zone [("Negate", 1)]);
           pMaybe := Some (Sample.zone [("Island", 1)]); pErr := None |}.
Proof.
  rewrite (manastack_text_parses Decks.stack eq_refl). vm_compute. reflexivity.
Defined.

Lemma frogtown_text_parses_witness :
  parseDeckFile (text (frogtown.deckText Decks.frog))
  = Ret {| pMain := Some (Sample.zone [("Forest", 2); ("Island", 1)]);
           pSide := None; pMaybe := None; pErr := None |}.
Proof.
  rewrite (frogtown_text_parses Decks.frog eq_refl). vm_compute. reflexivity.
Defined.

Lemma manastack_maybeboard_panics_witness :
  Sample.convert (text (manastack.deckText Decks.stackMaybe)) "deck" ∅ Sample.start
  = (Panic nilDeref, Sample.after 1 []).
Proof.
  apply (manastack_maybeboard_panics
           Sample.describe Sample.describeFaces Sample.describeFace
           "back" normal Sample.validate Sample.cardService
           Decks.stackMaybe "deck" ∅ Sample.noOptions Sample.start
           [Sample.deckOf "deck" [Sample.resolved "Forest" 1]]
           (Sample.after 1 [])); [reflexivity|reflexivity|discriminate|reflexivity|].
  vm_compute. reflexivity.
Defined.

Lemma bracketless_line_generic_grammar_witness :
  FindStringSubmatch arenaRegexp "2x Lightning Bolt # burn" = None
  ∧ FindStringSubmatch workstationRegexp "2x Lightning Bolt # burn" = None
  ∧ parseDeckLine "2x Lightning Bolt # burn" initialState
    = tryRegexps [standardRegexp] "2x Lightning Bolt # burn" initialState.
Proof.
  exact (bracketless_line_generic_grammar "2x Lightning Bolt # burn" initialState
           eq_refl eq_refl).
Defined.

(** ** The Arena grammar on a line "count name (SET)" *)

Lemma m_seq_cons r l s pos cs k :
  m (seq (r :: l)) s pos cs k
  = m r s pos cs (λ s' pos' cs', m (seq l) s' pos' cs' k).
Proof. reflexivity. Qed.

Lemma m_seq_nil s pos cs k : m (seq []) s pos cs k = k s pos cs.
Proof. reflexivity. Qed.

Lemma m_lit_cons x s pos cs k : m (Lit x) (String x s) pos cs k = k s (S pos) cs.
Proof. cbn [m]. by rewrite Ascii.eqb_refl. Qed.

Lemma m_plus_class_fail neg ranges c s pos cs k :
  in_class neg ranges c = false → m (Plus (Class neg ranges)) (String c s) pos cs k = None.
Proof. intros H. cbn [m]. by rewrite H. Qed.

(** The greedy loop gives up what it took, byte by byte, as long as the
    rest of the pattern fails. *)
Lemma iterate_class_fail neg ranges k cs : ∀ rest pos fuel,
  allChars (in_class neg ranges) rest = true →
  (∀ u t pos', rest = u +:+ t → u ≠ EmptyString → k t pos' cs = None) →
  iterate (m (Class neg ranges)) k fuel rest pos cs = k rest pos cs.
Proof.
  induction rest as [|c rest IH]; intros pos fuel Hall Hfail.
  - destruct fuel; [done|]. by rewrite iterate_S, m_class_nil.
  - destruct fuel; [done|]. rewrite iterate_S, m_class_cons.
    cbn [allChars] in Hall. apply andb_true_iff in Hall as [Hc Hall].
    rewrite Hc. replace (pos <? S pos)%nat with true
      by (symmetry; apply Nat.ltb_lt; lia).
    rewrite IH; [|done|].
    + by rewrite (Hfail (String c EmptyString) rest (S pos) eq_refl).
    + intros u t pos' -> Hu. apply (Hfail (String c u) t pos'); [|done].
      by rewrite append_cons.
Qed.

Lemma iterate_class_back neg ranges k cs res rest :
  (∀ u t pos', rest = u +:+ t → u ≠ EmptyString → k t pos' cs = None) →
  ∀ run pos fuel,
  allChars (in_class neg ranges) (run +:+ rest) = true →
  (String.length (run +:+ rest) ≤ fuel)%nat →
  k rest (pos + String.length run)%nat cs = Some res →
  iterate (m (Class neg ranges)) k fuel (run +:+ rest) pos cs = Some res.
Proof.
  intros Hfail. induction run as [|c run IH]; intros pos fuel Hall Hfuel Hk.
  - rewrite append_nil_l in *. rewrite iterate_class_fail by done.
    cbn [String.length] in Hk. by rewrite Nat.add_0_r in Hk.
  - rewrite append_cons in *. cbn [String.length] in Hfuel, Hk.
    destruct fuel as [|fuel]; [lia|]. rewrite iterate_S, m_class_cons.
    cbn [allChars] in Hall. apply andb_true_iff in Hall as [Hc Hall].
    rewrite Hc. replace (pos <? S pos)%nat with true
      by (symmetry; apply Nat.ltb_lt; lia).
    rewrite (IH (S pos) fuel Hall); [done|lia|].
    by replace (S pos + String.length run)%nat
      with (pos + S (String.length run))%nat by lia.
Qed.

Lemma m_plus_back neg ranges k c run rest pos cs res :
  in_class neg ranges c = true →
  allChars (in_class neg ranges) (run +:+ rest) = true →
  (∀ u t pos', rest = u +:+ t → u ≠ EmptyString → k t pos' cs = None) →
  k rest (pos + S (String.length run))%nat cs = Some res →
  m (Plus (Class neg ranges)) (String c (run +:+ rest)) pos cs k = Some res.
Proof.
  intros Hc Hall Hfail Hk. cbn [m]. rewrite Hc.
  apply iterate_class_back; [done|done|done|].
  by replace (S pos + String.length run)%nat
    with (pos + S (String.length run))%nat by lia.
Qed.

Lemma setCode_dot c : isSetCode c = true → in_class true [(10, 10)]%N c = true.
Proof. destruct c as [[] [] [] [] [] [] [] []]; vm_compute; congruence. Qed.

Lemma setCode_lacks_paren c : isSetCode c = true → negb (Ascii.eqb "(" c) = true.
Proof. destruct c as [[] [] [] [] [] [] [] []]; vm_compute; congruence. Qed.

(** What is left of " (SET)" after one byte or more holds no "(" or
    starts with it. *)
Lemma set_group_suffix code u t :
  allChars isSetCode code = true →
  " (" +:+ code +:+ ")" = u +:+ t → u ≠ EmptyString →
  t = String "(" (code +:+ ")") ∨ lacks "(" t = true.
Proof.
  intros Hcode Hsplit Hu.
  destruct u as [|a u]; [done|]. rewrite !append_cons in Hsplit.
  injection Hsplit as _ Hsplit. rewrite append_nil_l in Hsplit.
  destruct u as [|b u].
  - left. by rewrite append_nil_l in Hsplit.
  - right. rewrite append_cons in Hsplit. injection Hsplit as _ Hsplit.
    assert (Hl : lacks "(" (code +:+ ")") = true).
    { unfold lacks. rewrite allChars_append.
      by rewrite (allChars_impl _ _ _ setCode_lacks_paren Hcode). }
    rewrite Hsplit in Hl. unfold lacks in Hl. rewrite allChars_append in Hl.
    by apply andb_true_iff in Hl as [_ Hl].
Qed.

Lemma number_absent pos cs k :
  m (Cap 4 (seq [Plus space; Cap 5 (seq [Plus digit; Star ab])]))
    EmptyString pos cs k = None.
Proof. reflexivity. Qed.

Lemma arena_attempt d ds c name e es :
  isDigit d = true → allChars isDigit ds = true →
  isSpace c = false → allChars notLF (String c name) = true →
  allChars isSetCode (String e es) = true →
  let line := String d ds +:+ " " +:+ String c name
              +:+ " (" +:+ String e es +:+ ")" in
  m (Cap 0 (re arenaRegexp)) line 0 (replicate 6 None) (λ _ _ cs, Some cs)
  = Some [Some line; Some (String d ds); Some (String c name);
          Some (String e es); None; None].
Proof.
  intros Hd Hds Hc Hname Hcode line.
  cbn [allChars] in Hname. apply andb_true_iff in Hname as [Hc' Hname'].
  pose proof Hcode as Hcode0.
  cbn [allChars] in Hcode. apply andb_true_iff in Hcode as [He Hes].
  change (re arenaRegexp)
    with (seq [ BeginText; Star space; Cap 1 (Plus digit); Plus space;
                Cap 2 (Plus dot); Plus space; Lit "(";
                Cap 3 (Plus set_code); Lit ")";
                Quest (Cap 4 (seq [Plus space;
                                   Cap 5 (seq [Plus digit; Star ab])]));
                EndText ]).
  rewrite m_cap, m_seq_cons, m_begin.
  (* \s* *)
  rewrite m_seq_cons. unfold line at 1. rewrite append_cons.
  change (String d (ds +:+ " " +:+ String c name +:+ " (" +:+ String e es +:+ ")"))
    with (EmptyString
          +:+ String d (ds +:+ " " +:+ String c name +:+ " (" +:+ String e es +:+ ")"))
    at 1.
  apply m_star_run; [reflexivity|exact (digit_not_space d Hd)|].
  (* (\d+) *)
  rewrite m_seq_cons, m_cap.
  apply m_plus_run; [exact Hd|exact Hds|reflexivity|].
  replace (0 + String.length EmptyString + S (String.length ds)
           - (0 + String.length EmptyString))%nat
    with (String.length (String d ds)) by (cbn [String.length]; lia).
  rewrite <- append_cons, take_append.
  (* \s+ *)
  rewrite m_seq_cons.
  change (" " +:+ String c name +:+ " (" +:+ String e es +:+ ")")
    with (String " " (EmptyString
                      +:+ String c (name +:+ " (" +:+ String e es +:+ ")"))).
  apply m_plus_run; [reflexivity|reflexivity|exact Hc|].
  (* (.+): as much as the rest of the pattern allows *)
  rewrite m_seq_cons, m_cap.
  apply m_plus_back.
  - exact Hc'.
  - rewrite allChars_append. apply andb_true_iff. split; [exact Hname'|].
    change (" (" +:+ String e es +:+ ")")
      with (String " " (String "(" (String e es +:+ ")"))).
    change (allChars ?p (String " " (String "(" ?s))) with (allChars p s).
    rewrite allChars_append.
    by rewrite (allChars_impl _ _ _ setCode_dot Hcode0).
  - intros u t pos' Hsplit Hu.
    destruct (set_group_suffix (String e es) u t Hcode0 Hsplit Hu) as [->|Hl].
    + rewrite m_seq_cons. by apply m_plus_class_fail.
    + cbv beta.
      apply (seq_starved "("
               [Plus space; Lit "("; Cap 3 (Plus set_code); Lit ")";
                Quest (Cap 4 (seq [Plus space;
                                   Cap 5 (seq [Plus digit; Star ab])]));
                EndText]); [|exact Hl].
      apply list_elem_of_further, list_elem_of_here.
  - (* the rest of the pattern on " (SET)" *)
    match goal with
    | |- context [Str.take (?a - ?b) (String c (name +:+ ?r))] =>
        replace (a - b)%nat with (String.length (String c name))
          by (cbn [String.length]; lia)
    end.
    rewrite <- append_cons, take_append.
    rewrite m_seq_cons.
    change (" (" +:+ String e es +:+ ")")
      with (String " " (EmptyString +:+ String "(" (String e es +:+ ")"))).
    apply m_plus_run; [reflexivity|reflexivity|reflexivity|].
    rewrite m_seq_cons, m_lit_cons.
    rewrite m_seq_cons, m_cap. rewrite append_cons.
    apply m_plus_run; [exact He|exact Hes|reflexivity|].
    match goal with
    | |- context [Str.take (?a - ?b) (String e (es +:+ ")"))] =>
        replace (a - b)%nat with (String.length (String e es))
          by (cbn [String.length]; lia)
    end.
    rewrite <- append_cons, take_append.
    rewrite m_seq_cons, m_lit_cons.
    rewrite m_seq_cons.
    rewrite (m_quest_skip _ _ _ _ _ (number_absent _ _ _)).
    rewrite m_seq_cons, m_end, m_seq_nil.
    match goal with
    | |- context [Str.take (?a - 0) line] =>
        replace (a - 0)%nat with (String.length line)
          by (unfold line; rewrite !length_append; cbn [String.length]; lia)
    end.
    by rewrite take_all.
Qed.

Lemma arena_reads d ds c name e es :
  isDigit d = true → allChars isDigit ds = true →
  isSpace c = false → allChars notLF (String c name) = true →
  allChars isSetCode (String e es) = true →
  FindStringSubmatch arenaRegexp
    (String d ds +:+ " " +:+ String c name +:+ " (" +:+ String e es +:+ ")")
  = Some [String d ds +:+ " " +:+ String c name +:+ " (" +:+ String e es +:+ ")";
          String d ds; String c name; String e es; EmptyString; EmptyString].
Proof.
  intros Hd Hds Hc Hname Hcode. unfold FindStringSubmatch.
  by rewrite (search_first _ _ _ _ _ (arena_attempt d ds c name e es Hd Hds Hc Hname Hcode)).
Qed.

Lemma nonempty_len c s : (0 <? Str.len (String c s)) = true.
Proof. apply Z.ltb_lt. unfold Str.len. cbn [String.length]. lia. Qed.

Lemma arena_line_read d ds c name e es st count :
  isDigit d = true → allChars isDigit ds = true →
  isSpace c = false → allChars notLF (String c name) = true →
  allChars isSetCode (String e es) = true →
  Atoi (String d ds) = Some count →
  parseDeckLine
    (String d ds +:+ " " +:+ String c name +:+ " (" +:+ String e es +:+ ")") st
  = Ret (fileCard st (nameOf (String c name)) (keptSet (String e es)) count).
Proof.
  intros Hd Hds Hc Hname Hcode Hcount.
  unfold parseDeckLine, cardLineRegexps. cbn [tryRegexps].
  unfold tryRegexp at 1.
  rewrite (arena_reads d ds c name e es Hd Hds Hc Hname Hcode).
  change (SubexpNames arenaRegexp)
    with [EmptyString; "Count"; "Name"; "Set"; EmptyString; "NumberInSet"].
  change (IndexOf "Count" _) with 1.
  change (IndexOf "Name" _) with 2.
  change (IndexOf "Sideboard" _) with (-1).
  unfold setOf.
  change (IndexOf "Set" _) with 3.
  change (at_index _ 1) with (String d ds).
  change (at_index _ 2) with (String c name).
  change (at_index _ 3) with (String e es).
  rewrite nonempty_len, Hcount.
  cbn [negb andb Z.eqb]. done.
Qed.

(** X28 (parseDeckLine, the Arena grammar): a line "count name (SET)",
    with a count that strconv.Atoi reads, a name that does not start with
    white space and a set code made of capital letters, digits and "_", is
    read by the Arena grammar: the card is filed under the current zone
    with the trimmed name and the set, or with no set when the code is
    "000".  The name may hold any byte but a line feed, brackets included:
    the last group in parentheses is the set.  The grammar has no
    sideboard marker, so the zone and the other fields of the state stay
    as they are. *)
Theorem arena_line_filed d ds c name e es st count :
  isDigit d = true → allChars isDigit ds = true →
  isSpace c = false → allChars notLF (String c name) = true →
  allChars isSetCode (String e es) = true →
  Atoi (String d ds) = Some count →
  parseDeckLine
    (String d ds +:+ " " +:+ String c name +:+ " (" +:+ String e es +:+ ")") st
  = Ret (fileCard st (nameOf (String c name)) (keptSet (String e es)) count).
Proof. exact (arena_line_read d ds c name e es st count). Qed.

(** ** The Workstation grammar on a line "count [SET] name" *)

Lemma m_quest_take r s pos cs k res :
  m r s pos cs k = Some res → m (Quest r) s pos cs k = Some res.
Proof. intros H. cbn [m]. by rewrite H. Qed.

Lemma workstation_tail d ds e es c name pos cs k res :
  isDigit d = true → allChars isDigit ds = true →
  allChars isSetCode (String e es) = true →
  isSpace c = false → allChars notLF (String c name) = true →
  let tail := String d ds +:+ " [" +:+ String e es +:+ "] " +:+ String c name in
  k EmptyString (pos + String.length tail)%nat
    (set_cap 4 (String c name)
       (set_cap 3 (String e es) (set_cap 2 (String d ds) cs))) = Some res →
  m (seq [Cap 2 (Plus digit); Plus space; Lit "["; Cap 3 (Plus set_code);
          Lit "]"; Plus space; Cap 4 (Plus dot); EndText]) tail pos cs k
  = Some res.
Proof.
  intros Hd Hds Hcode Hc Hname tail Hk.
  cbn [allChars] in Hname. apply andb_true_iff in Hname as [Hc' Hname'].
  cbn [allChars] in Hcode. apply andb_true_iff in Hcode as [He Hes].
  unfold tail at 1.
  (* (\d+) *)
  rewrite m_seq_cons, m_cap. rewrite append_cons.
  apply m_plus_run; [exact Hd|exact Hds|reflexivity|].
  match goal with
  | |- context [Str.take (?a - ?b) (String d (ds +:+ ?r))] =>
      replace (a - b)%nat with (String.length (String d ds))
        by (cbn [String.length]; lia)
  end.
  rewrite <- append_cons, take_append.
  (* \s+\[ *)
  rewrite m_seq_cons.
  change (" [" +:+ String e es +:+ "] " +:+ String c name)
    with (String " " (EmptyString
                      +:+ String "[" (String e es +:+ "] " +:+ String c name))).
  apply m_plus_run; [reflexivity|reflexivity|reflexivity|].
  rewrite m_seq_cons, m_lit_cons.
  (* ([A-Z0-9_]+)\] *)
  rewrite m_seq_cons, m_cap. rewrite append_cons.
  apply m_plus_run; [exact He|exact Hes|reflexivity|].
  match goal with
  | |- context [Str.take (?a - ?b) (String e (es +:+ ?r))] =>
      replace (a - b)%nat with (String.length (String e es))
        by (cbn [String.length]; lia)
  end.
  rewrite <- append_cons, take_append.
  change ("] " +:+ String c name)
    with (String "]" (String " " (EmptyString +:+ String c name))).
  rewrite m_seq_cons, m_lit_cons.
  (* \s+ *)
  rewrite m_seq_cons.
  apply m_plus_run; [reflexivity|reflexivity|exact Hc|].
  (* (.+)$ *)
  rewrite m_seq_cons, m_cap.
  rewrite <- (append_nil_r name) at 1.
  apply m_plus_back.
  - exact Hc'.
  - rewrite append_nil_r. exact Hname'.
  - intros u t pos' Hsplit Hu. destruct u as [|a u]; [done|].
    rewrite append_cons in Hsplit. discriminate Hsplit.
  - match goal with
    | |- context [Str.take (?a - ?b) (String c name)] =>
        replace (a - b)%nat with (String.length (String c name))
          by (cbn [String.length]; lia)
    end.
    rewrite take_all, m_seq_cons, m_end, m_seq_nil.
    match goal with
    | |- k EmptyString ?p _ = _ =>
        replace p with (pos + String.length tail)%nat
          by (unfold tail; rewrite !length_append; cbn [String.length]; lia)
    end.
    exact Hk.
Qed.

Lemma workstation_attempt sb d ds e es c name :
  isDigit d = true → allChars isDigit ds = true →
  allChars isSetCode (String e es) = true →
  isSpace c = false → allChars notLF (String c name) = true →
  let line := sbPrefix sb +:+ String d ds +:+ " [" +:+ String e es +:+ "] "
              +:+ String c name in
  m (Cap 0 (re workstationRegexp)) line 0 (replicate 5 None) (λ _ _ cs, Some cs)
  = Some [Some line; if sb then Some "SB:" else None; Some (String d ds);
          Some (String e es); Some (String c name)].
Proof.
  intros Hd Hds Hcode Hc Hname line.
  change (re workstationRegexp)
    with (seq [ BeginText; Quest (Cap 1 (seq [Lit "S"; Lit "B"; Lit ":"]));
                Star space; Cap 2 (Plus digit); Plus space; Lit "[";
                Cap 3 (Plus set_code); Lit "]"; Plus space;
                Cap 4 (Plus dot); EndText ]).
  rewrite m_cap, m_seq_cons, m_begin, m_seq_cons.
  assert (Hlen : ∀ tail, String.length (sbPrefix sb +:+ tail)
                         = (String.length (sbPrefix sb) + String.length tail)%nat)
    by (intros; apply length_append).
  destruct sb; unfold line at 1; unfold sbPrefix at 1.
  - change ("SB: " +:+ ?t) with (String "S" (String "B" (String ":" (" " +:+ t)))).
    apply m_quest_take. rewrite m_cap.
    rewrite m_seq_cons, m_lit_cons, m_seq_cons, m_lit_cons, m_seq_cons, m_lit_cons.
    rewrite m_seq_nil, m_seq_cons.
    apply m_star_run; [reflexivity|exact (digit_not_space d Hd)|].
    apply (workstation_tail d ds e es c name _ _ _ _ Hd Hds Hcode Hc Hname).
    match goal with
    | |- context [Str.take (?a - 0) line] =>
        replace (a - 0)%nat with (String.length line)
          by (unfold line; rewrite Hlen; cbn [sbPrefix String.length]; lia)
    end.
    rewrite take_all. reflexivity.
  - rewrite append_nil_l, append_cons.
    rewrite (m_quest_skip _ _ _ _ _
               (sb_absent d _ 0 _ _ (digit_not_S d Hd))).
    rewrite m_seq_cons.
    change (String d (ds +:+ ?t)) with (EmptyString +:+ String d (ds +:+ t)) at 1.
    apply m_star_run; [reflexivity|exact (digit_not_space d Hd)|].
    rewrite <- append_cons.
    apply (workstation_tail d ds e es c name _ _ _ _ Hd Hds Hcode Hc Hname).
    match goal with
    | |- context [Str.take (?a - 0) line] =>
        replace (a - 0)%nat with (String.length line)
          by (unfold line; rewrite Hlen; cbn [sbPrefix String.length]; lia)
    end.
    rewrite take_all. reflexivity.
Qed.

Lemma workstation_reads sb d ds e es c name :
  isDigit d = true → allChars isDigit ds = true →
  allChars isSetCode (String e es) = true →
  isSpace c = false → allChars notLF (String c name) = true →
  FindStringSubmatch workstationRegexp
    (sbPrefix sb +:+ String d ds +:+ " [" +:+ String e es +:+ "] " +:+ String c name)
  = Some [sbPrefix sb +:+ String d ds +:+ " [" +:+ String e es +:+ "] "
          +:+ String c name;
          if sb then "SB:" else EmptyString; String d ds; String e es;
          String c name].
Proof.
  intros Hd Hds Hcode Hc Hname. unfold FindStringSubmatch.
  rewrite (search_first _ _ _ _ _
             (workstation_attempt sb d ds e es c name Hd Hds Hcode Hc Hname)).
  by destruct sb.
Qed.

Lemma workstation_line_lacks_paren sb d ds e es c name :
  isDigit d = true → allChars isDigit ds = true →
  allChars isSetCode (String e es) = true →
  lacks "(" (String c name) = true →
  lacks "(" (sbPrefix sb +:+ String d ds +:+ " [" +:+ String e es +:+ "] "
             +:+ String c name) = true.
Proof.
  intros Hd Hds Hcode Hname. unfold lacks in *.
  assert (Hdigits : allChars isDigit (String d ds) = true)
    by (cbn [allChars]; by rewrite Hd, Hds).
  rewrite !allChars_append.
  rewrite (allChars_impl _ _ _ (λ x, digit_lacks "(" x eq_refl) Hdigits).
  rewrite (allChars_impl _ _ _ setCode_lacks_paren Hcode), Hname.
  by destruct sb.
Qed.

(** X29 (parseDeckLine, the Workstation grammar): a line
    "count [SET] name", with or without "SB: " in front, whose name holds
    no "(", is read by the Workstation grammar: the card is filed with the
    trimmed name and the set (no set for the code "000").  Without the
    marker it goes to the current zone.  With the marker, on the first
    such line the parser first switches to the sideboard, merging a
    sideboard that already holds cards into main (and panicking when that
    sideboard exists without a main zone); on later ones the marker has
    no effect. *)
Theorem workstation_line_filed sb d ds e es c name st count :
  isDigit d = true → allChars isDigit ds = true →
  allChars isSetCode (String e es) = true →
  isSpace c = false → allChars notLF (String c name) = true →
  lacks "(" (String c name) = true →
  Atoi (String d ds) = Some count →
  parseDeckLine
    (sbPrefix sb +:+ String d ds +:+ " [" +:+ String e es +:+ "] " +:+ String c name)
    st
  = match (if sb && negb (sbLineFound st) then sbTransition st else Ret st) with
    | Ret st1 =>
        Ret (fileCard st1 (nameOf (String c name)) (keptSet (String e es)) count)
    | Panic msg => Panic msg
    end.
Proof.
  intros Hd Hds Hcode Hc Hname Hparen Hcount.
  unfold parseDeckLine, cardLineRegexps. cbn [tryRegexps].
  unfold tryRegexp at 1.
  rewrite (arena_needs_paren _
             (workstation_line_lacks_paren sb d ds e es c name Hd Hds Hcode Hparen)).
  unfold tryRegexp at 1.
  rewrite (workstation_reads sb d ds e es c name Hd Hds Hcode Hc Hname).
  change (SubexpNames workstationRegexp)
    with [EmptyString; "Sideboard"; "Count"; "Set"; "Name"].
  change (IndexOf "Count" _) with 2.
  change (IndexOf "Name" _) with 4.
  change (IndexOf "Sideboard" _) with 1.
  unfold setOf.
  change (IndexOf "Set" _) with 3.
  change (at_index _ 1) with (if sb then "SB:" else EmptyString).
  change (at_index _ 2) with (String d ds).
  change (at_index _ 3) with (String e es).
  change (at_index _ 4) with (String c name).
  rewrite nonempty_len, Hcount. cbn [negb andb Z.eqb].
  fold (keptSet (String e es)).
  destruct sb; cbn [andb].
  - change (0 <? Str.len "SB:") with true. cbn [andb].
    by destruct (if negb (sbLineFound st) then sbTransition st else Ret st).
  - change (0 <? Str.len EmptyString) with false. cbn [andb]. done.
Qed.

(** ** The text of an Archidekt deck *)

Lemma substring_after s : ∀ t n, String.substring (String.length s) n (s +:+ t)
                                 = String.substring 0 n t.
Proof. induction s as [|c s IH]; intros t n; [done|]. rewrite append_cons. apply IH. Qed.

Lemma HasSuffix_last s x y :
  Str.HasSuffix (s +:+ String x EmptyString) (String y EmptyString) = Ascii.eqb x y.
Proof.
  unfold Str.HasSuffix. rewrite length_append. cbn [String.length].
  replace (1 <=? String.length s + 1)%nat with true
    by (symmetry; apply Nat.leb_le; lia).
  replace (String.length s + 1 - 1)%nat with (String.length s) by lia.
  rewrite substring_after. cbn [String.substring String.eqb].
  by destruct (Ascii.eqb x y).
Qed.

Lemma notLF_lacks c : notLF c = true → negb (Ascii.eqb Str.LF c) = true.
Proof. destruct c as [[] [] [] [] [] [] [] []]; vm_compute; congruence. Qed.

Lemma setCode_lacks_LF c : isSetCode c = true → negb (Ascii.eqb Str.LF c) = true.
Proof. destruct c as [[] [] [] [] [] [] [] []]; vm_compute; congruence. Qed.

(** The line of a good card is handed over by the scanner and filed by
    the Arena grammar. *)
Lemma archidekt_files ToUpper card :
  archidekt.goodCard ToUpper card = true →
  files (archidekt.lineOf ToUpper card) (archidekt.entry ToUpper card).
Proof.
  unfold archidekt.goodCard, archidekt.lineOf, archidekt.entry.
  set (q := archidekt.Quantity card).
  set (name := archidekt.Name (archidekt.OracleCard (archidekt.Card card))).
  set (code := ToUpper (archidekt.Code (archidekt.Edition (archidekt.Card card)))).
  intros H.
  apply andb_true_iff in H as [H Hlen]. apply andb_true_iff in H as [H Hcode].
  apply andb_true_iff in H as [H Hsome]. apply andb_true_iff in H as [H Hname].
  apply andb_true_iff in H as [H Hfirst]. apply andb_true_iff in H as [H0 Hmax].
  apply Z.leb_le in H0. apply Z.leb_le in Hmax.
  destruct (Itoa_shape q H0) as (d & ds & HI & Hd & Hds).
  pose proof (Atoi_Itoa q (conj H0 Hmax)) as Hback.
  destruct name as [|c name']; [done|]. apply negb_true_iff in Hfirst.
  destruct code as [|e es]; [done|].
  rewrite HI in *.
  assert (Hdigits : allChars isDigit (String d ds) = true)
    by (cbn [allChars]; by rewrite Hd, Hds).
  split.
  - unfold scannable. rewrite Hlen.
    assert (Hlf : lacks Str.LF (String d ds +:+ " " +:+ String c name' +:+ " ("
                                +:+ String e es +:+ ")") = true).
    { unfold lacks. rewrite !allChars_append.
      rewrite (allChars_impl _ _ _ (λ x, digit_lacks Str.LF x eq_refl) Hdigits).
      rewrite (allChars_impl _ _ _ notLF_lacks Hname).
      by rewrite (allChars_impl _ _ _ setCode_lacks_LF Hcode). }
    rewrite Hlf.
    rewrite <- !append_assoc, HasSuffix_last. reflexivity.
  - intros st. cbn [fst snd]. unfold scanLine. rewrite append_cons.
    replace (Str.len _ =? 0) with false
      by (symmetry; apply Z.eqb_neq; unfold Str.len; cbn [String.length]; lia).
    cbn [Str.HasPrefix]. rewrite !(digit_differs d) by done.
    rewrite <- append_cons.
    exact (arena_line_read d ds c name' e es st q Hd Hds Hfirst Hname Hcode Hback).
Qed.

Lemma archidekt_lines_files ToUpper (p : archidekt.archidektCard → bool) cards :
  forallb (archidekt.goodCard ToUpper) cards = true →
  Forall2 files (map (archidekt.lineOf ToUpper) (List.filter p cards))
    (map (archidekt.entry ToUpper) (List.filter p cards)).
Proof.
  induction cards as [|card cards IH]; [constructor|].
  cbn [forallb]. intros H. apply andb_true_iff in H as [Hcard Hall].
  cbn [List.filter]. destruct (p card); [|by apply IH].
  cbn [map]. constructor; [by apply archidekt_files|by apply IH].
Qed.

Lemma archidekt_printCards ToUpper cards :
  archidekt.printCards ToUpper cards
  = linesText (map (archidekt.lineOf ToUpper) cards).
Proof.
  induction cards as [|card cards IH]; [done|].
  unfold archidekt.printCards in *. cbn [foldr map linesText]. rewrite IH.
  unfold archidekt.lineOf at 2. by rewrite !append_assoc.
Qed.

Lemma archidekt_sortCards cards : ∀ s,
  foldl archidekt.sortCard s cards
  = {| archidekt.commanders :=
         archidekt.commanders s
         ++ List.filter (archidekt.inCategory "Commander") cards;
       archidekt.main :=
         archidekt.main s ++ List.filter archidekt.isMain cards;
       archidekt.sideboard :=
         archidekt.sideboard s
         ++ List.filter (archidekt.inCategory "Sideboard") cards;
       archidekt.maybeboard :=
         archidekt.maybeboard s
         ++ List.filter (archidekt.inCategory "Maybeboard") cards |}.
Proof.
  induction cards as [|card cards IH]; intros s.
  - cbn [foldl List.filter]. rewrite !app_nil_r. by destruct s.
  - cbn [foldl]. rewrite IH. unfold archidekt.sortCard.
    cbn [List.filter]. unfold archidekt.isMain, archidekt.inCategory.
    destruct (String.eqb_spec (archidekt.Category card) "Commander") as [->|_].
    { cbn [negb andb archidekt.commanders archidekt.main archidekt.sideboard
             archidekt.maybeboard].
      change (String.eqb "Commander" "Sideboard") with false.
      change (String.eqb "Commander" "Maybeboard") with false.
      by rewrite <- ?app_assoc. }
    destruct (String.eqb_spec (archidekt.Category card) "Sideboard") as [->|_].
    { cbn [negb andb archidekt.commanders archidekt.main archidekt.sideboard
             archidekt.maybeboard].
      change (String.eqb "Sideboard" "Maybeboard") with false.
      by rewrite <- ?app_assoc. }
    destruct (String.eqb (archidekt.Category card) "Maybeboard");
      cbn [negb andb archidekt.commanders archidekt.main archidekt.sideboard
             archidekt.maybeboard];
      by rewrite <- ?app_assoc.
Qed.

(** X30 (handleArchidektLink, parseDeckFile): the text that the Archidekt
    adapter writes, a line "quantity name (CODE)" for each card, is parsed
    into the zones of the categories: the cards of the category
    "Commander" followed by those of no special category make the main
    zone, those of "Sideboard" the sideboard, those of "Maybeboard" the
    maybeboard, each filed with its trimmed name, its quantity and the
    upper-case code as its set (no set for "000"); a zone without cards is
    nil.  This holds when every quantity is in 0 .. 2^63-1, every name is
    not empty, starts with no white space and holds no line feed, and
    every upper-case code is one or more capital letters, digits or
    "_". *)
Theorem archidekt_text_parses (ToUpper : string → string)
    (data : archidekt.archidektDeck) :
  forallb (archidekt.goodCard ToUpper) (archidekt.Cards data) = true →
  parseDeckFile (text (archidekt.deckText ToUpper data))
  = Ret {| pMain :=
             addEntries None
               (map (archidekt.entry ToUpper)
                  (List.filter (archidekt.inCategory "Commander") (archidekt.Cards data)
                   ++ List.filter archidekt.isMain (archidekt.Cards data)));
           pSide :=
             addEntries None
               (map (archidekt.entry ToUpper)
                  (List.filter (archidekt.inCategory "Sideboard") (archidekt.Cards data)));
           pMaybe :=
             addEntries None
               (map (archidekt.entry ToUpper)
                  (List.filter (archidekt.inCategory "Maybeboard") (archidekt.Cards data)));
           pErr := None |}.
Proof.
  intros Hgood.
  set (cards := archidekt.Cards data) in *.
  assert (Htext : archidekt.deckText ToUpper data
    = linesText
        (zoned
           (0 <? Z.of_nat (length (List.filter (archidekt.inCategory "Sideboard") cards)))
           (0 <? Z.of_nat (length (List.filter (archidekt.inCategory "Maybeboard") cards)))
           (map (archidekt.lineOf ToUpper)
              (List.filter (archidekt.inCategory "Commander") cards
               ++ List.filter archidekt.isMain cards))
           (map (archidekt.lineOf ToUpper)
              (List.filter (archidekt.inCategory "Sideboard") cards))
           (map (archidekt.lineOf ToUpper)
              (List.filter (archidekt.inCategory "Maybeboard") cards)))).
  { unfold archidekt.deckText, archidekt.sortCards. rewrite archidekt_sortCards.
    cbn [archidekt.commanders archidekt.main archidekt.sideboard
           archidekt.maybeboard app].
    fold cards. unfold zoned.
    rewrite !linesText_app, !archidekt_printCards, map_app, linesText_app.
    rewrite !append_assoc. do 2 f_equal.
    destruct (0 <? _); destruct (0 <? _); reflexivity. }
  rewrite Htext. apply parse_zoned_entries.
  - rewrite !map_app. apply Forall2_app; by apply archidekt_lines_files.
  - by apply archidekt_lines_files.
  - by apply archidekt_lines_files.
  - intros H. by rewrite (no_header _ H).
  - intros H. by rewrite (no_header _ H).
Qed.

(** ** The grammars and the Archidekt adapter at sample inputs *)

Lemma arena_line_filed_witness :
  parseDeckLine "1 Erase (Not the Urza's Legacy One) (UNH)" initialState
  = Ret (fileCard initialState "Erase (Not the Urza's Legacy One)" (Some "UNH") 1).
Proof.
  exact (arena_line_filed "1" "" "E" "rase (Not the Urza's Legacy One)" "U" "NH"
           initialState 1 eq_refl eq_refl eq_refl eq_refl eq_refl eq_refl).
Defined.

Lemma workstation_line_filed_witness :
  parseDeckLine "SB: 2 [ABC] Counterspell" Decks.afterBlank
  = Ret {| main := Some (mergeInto (Sample.zone [("Forest", 4)])
                           (Sample.zone [("Island", 4)]));
           side := Some (InsertCount NewCardNames "Counterspell" (Some "ABC") 2);
           maybe := None; step := Sideboard; sbLineFound := true;
           emptyLineCount := 1 |}.
Proof.
  exact (workstation_line_filed true "2" "" "A" "BC" "C" "ounterspell"
           Decks.afterBlank 2 eq_refl eq_refl eq_refl eq_refl eq_refl eq_refl eq_refl).
Defined.

Lemma archidekt_text_parses_witness :
  parseDeckFile (text (archidekt.deckText Decks.upper Decks.arch))
  = Ret {| pMain := Some (insertAll NewCardNames
                            [("Atraxa", Some "C16", 1); ("Forest", Some "M10", 4)]);
           pSide := Some (insertAll NewCardNames [("Negate", None, 2)]);
           pMaybe := Some (insertAll NewCardNames
                             [("Erase (Not the Urza's Legacy One)", Some "UNH", 1)]);
           pErr := None |}.
Proof.
  rewrite (archidekt_text_parses Decks.upper Decks.arch eq_refl).
  vm_compute. reflexivity.
Defined.
